(** * Picture-book generator: retry wrapper, generation client, session handlers

    A shallow embedding of [services/geminiService.ts] (the retry wrapper and
    the three generation calls) and of the event handlers of [App.tsx] that
    drive the session (reset, editing of the cast, character-sheet
    generation, the sequential "generate all" loop, single-scene
    regeneration, the exports).

    Asynchronous code that runs as one logical task is embedded in a state and
    exception monad over [Sys]: the remote model's state plus a chronological
    log of the observable effects (requests sent, waits, console output). *)

From Stdlib Require Import ZArith List String Ascii Bool Lia DecimalString.
From Stdlib Require DecimalZ.
From Equations Require Import Equations.
Import ListNotations.

#[local] Open Scope string_scope.
#[local] Open Scope Z_scope.
#[local] Set Warnings "-register-all".

(** ** JavaScript strings and numbers *)

Module Js.

(** [hay.includes(needle)] *)
Fixpoint includes (hay needle : string) : bool :=
  String.prefix needle hay
  || match hay with
     | EmptyString => false
     | String _ rest => includes rest needle
     end.

(** Truthiness of a string: every string but the empty one. *)
Definition truthy (s : string) : bool :=
  match s with EmptyString => false | String _ _ => true end.

(** [s || alt] on strings. *)
Definition or_else (s alt : string) : string :=
  if truthy s then s else alt.

(** Truthiness of an optional string field ([undefined] is falsy). *)
Definition truthy_opt (o : option string) : bool :=
  match o with Some s => truthy s | None => false end.

(** Template interpolation of an integer-valued number. *)
Definition num (z : Z) : string := NilZero.string_of_int (Z.to_int z).

(** The double-quote character and a line feed, for template literals. *)
Definition dq : string := String (ascii_of_nat 34) EmptyString.
Definition nl : string := String (ascii_of_nat 10) EmptyString.

(** [parts.join(sep)] *)
Fixpoint join (sep : string) (parts : list string) : string :=
  match parts with
  | [] => EmptyString
  | [p] => p
  | p :: rest => p ++ sep ++ join sep rest
  end.

(** Strings are kept as UTF-8 bytes, while JavaScript counts UTF-16 code
    units. The lead byte of a sequence tells how many bytes follow it and how
    many code units the character takes: one, but two for a four-byte
    sequence (a character outside the Basic Multilingual Plane). *)
Definition utf8_lead (c : ascii) : nat * nat :=
  let b := N_of_ascii c in
  if (b <? 192)%N then (0%nat, 1%nat)
  else if (b <? 224)%N then (1%nat, 1%nat)
  else if (b <? 240)%N then (2%nat, 1%nat)
  else (3%nat, 2%nat).



(** The high surrogate of the character whose four-byte sequence starts with
    [b0 b1 b2], as the three bytes of that code unit. *)
Definition high_surrogate (b0 b1 b2 : ascii) : string :=
  let w := (N.land (N_of_ascii b0) 7 * 256 + N.land (N_of_ascii b1) 63 * 4
            + N.land (N_of_ascii b2) 63 / 16 - 64)%N in
  String (ascii_of_N 237)
    (String (ascii_of_N (160 + w / 64))
       (String (ascii_of_N (128 + N.land w 63)) EmptyString)).

(** [s.substring(0, n)]: the first [n] code units. A cut between the two
    code units of a character leaves its high surrogate. *)
Fixpoint take_units (n pending : nat) (s : string) : string :=
  match s with
  | EmptyString => EmptyString
  | String c rest =>
      match pending with
      | S k => String c (take_units n k rest)
      | O =>
          match utf8_lead c, n with
          | _, O => EmptyString
          | (more, 1%nat), S m => String c (take_units m more rest)
          | (more, _), S (S m) => String c (take_units m more rest)
          | (_, _), S O =>
              match rest with
              | String b1 (String b2 _) => high_surrogate c b1 b2
              | String b1 EmptyString => high_surrogate c b1 zero
              | EmptyString => high_surrogate c zero zero
              end
          end
      end
  end.

Definition substring0 (n : nat) (s : string) : string := take_units n 0 s.

End Js.

(** ** Thrown values *)

(** Every value this program throws or receives as a rejection is an [Error]
    object: a name, a message, and for API errors a numeric status. *)
Record JsError := mkError {
  e_name : string;
  e_message : string;
  e_status : option Z
}.

(** [String(error)], i.e. [Error.prototype.toString]. *)
Definition error_toString (e : JsError) : string :=
  if negb (Js.truthy (e_name e)) then e_message e
  else if negb (Js.truthy (e_message e)) then e_name e
  else e_name e ++ ": " ++ e_message e.

(** [error.message || String(error)] *)
Definition errorMsg (e : JsError) : string :=
  Js.or_else (e_message e) (error_toString e).

(** [new Error(msg)] *)
Definition Error (msg : string) : JsError := mkError "Error" msg None.
Definition TypeError (msg : string) : JsError := mkError "TypeError" msg None.
Definition SyntaxError (msg : string) : JsError := mkError "SyntaxError" msg None.

Inductive result (A : Type) : Type :=
| Ok (value : A)
| Err (error : JsError).
Arguments Ok {A} value.
Arguments Err {A} error.

(** ** JSON values as JavaScript sees them *)

Module Json.

(** A number is kept as the exact decimal [m * 10^e] with [e <= 0] as large as
    possible, so that an integer [n] is [JNum n 0]; IEEE rounding of very
    long or very small literals is outside the model. An object is its
    list of own properties in insertion order, with distinct keys. *)
Inductive t :=
| JNull
| JBool (b : bool)
| JNum (m e : Z)
| JStr (s : string)
| JArr (items : list t)
| JObj (props : list (string * t)).

Definition obj := list (string * t).

Fixpoint lookup (k : string) (o : obj) : option t :=
  match o with
  | [] => None
  | (k', v) :: rest => if String.eqb k k' then Some v else lookup k rest
  end.

(** Define property [k]: overwrite in place when present, else append. *)
Fixpoint set (k : string) (v : t) (o : obj) : obj :=
  match o with
  | [] => [(k, v)]
  | (k', v') :: rest =>
      if String.eqb k k' then (k, v) :: rest else (k', v') :: set k v rest
  end.

Definition truthy (v : t) : bool :=
  match v with
  | JNull => false
  | JBool b => b
  | JNum m _ => negb (m =? 0)
  | JStr s => Js.truthy s
  | JArr _ | JObj _ => true
  end.

Definition index_key (i : nat) : string := Js.num (Z.of_nat i).

Fixpoint indexed {A} (f : A -> t) (i : nat) (l : list A) : obj :=
  match l with
  | [] => []
  | x :: rest => (index_key i, f x) :: indexed f (S i) rest
  end.

Definition char_str (c : ascii) : t := JStr (String c EmptyString).

(** Own enumerable properties, as copied by object spread [{...v}]:
    primitives other than strings have none, strings and arrays have their
    indices. *)
Definition spread (v : t) : obj :=
  match v with
  | JNull | JBool _ | JNum _ _ => []
  | JStr s => indexed char_str 0 (list_ascii_of_string s)
  | JArr items => indexed (fun x => x) 0 items
  | JObj props => props
  end.

(** [v.k] for a property name [k] that is neither an index nor a builtin of
    strings, arrays or [Object.prototype]: [None] is [undefined]. Reading a
    property of [null] throws. *)
Definition get (v : t) (k : string) : result (option t) :=
  match v with
  | JNull =>
      Err (TypeError ("Cannot read properties of null (reading '" ++ k ++ "')"))
  | JObj props => Ok (lookup k props)
  | _ => Ok None
  end.

(** [v.map(f)]: only an array has a callable [map]. *)
Definition call_map (v : t) (f : t -> t) : result t :=
  match v with
  | JArr items => Ok (JArr (List.map f items))
  | _ => Err (TypeError "(intermediate value).map is not a function")
  end.

(** *** A parser for JSON text (ECMA-404), the grammar of [JSON.parse] *)

Definition code (c : ascii) : nat := nat_of_ascii c.

Definition is_ws (c : ascii) : bool :=
  let n := code c in
  Nat.eqb n 32 || Nat.eqb n 9 || Nat.eqb n 10 || Nat.eqb n 13.

Definition is_digit (c : ascii) : bool :=
  Nat.leb 48 (code c) && Nat.leb (code c) 57.

Definition digit_val (c : ascii) : Z := Z.of_nat (code c - 48)%nat.

Fixpoint skip_ws (s : string) : string :=
  match s with
  | String c rest => if is_ws c then skip_ws rest else s
  | EmptyString => s
  end.

Fixpoint take_digits (s : string) : list Z * string :=
  match s with
  | String c rest =>
      if is_digit c
      then let '(ds, r) := take_digits rest in (digit_val c :: ds, r)
      else ([], s)
  | EmptyString => ([], s)
  end.

Definition of_digits (ds : list Z) : Z :=
  fold_left (fun acc d => acc * 10 + d) ds 0.

(** Drop trailing zero digits while the exponent is negative. *)
Fixpoint strip_zeros (rev_ds : list Z) (e : Z) : list Z * Z :=
  match rev_ds with
  | d :: rest =>
      if (d =? 0) && (e <? 0) then strip_zeros rest (e + 1) else (rev rev_ds, e)
  | [] => ([], e)
  end.

Definition decimal (neg : bool) (ds : list Z) (e : Z) : t :=
  let '(ds', e') := strip_zeros (rev ds) e in
  let m := of_digits ds' in
  if m =? 0 then JNum 0 0
  else if 0 <=? e' then JNum ((if neg then - m else m) * 10 ^ e') 0
  else JNum (if neg then - m else m) e'.

Definition parse_exponent (s : string) : option (Z * string) :=
  match s with
  | String c rest =>
      if Nat.eqb (code c) 101 || Nat.eqb (code c) 69
      then
        let '(neg, r) :=
          match rest with
          | String sg r' =>
              if Nat.eqb (code sg) 45 then (true, r')
              else if Nat.eqb (code sg) 43 then (false, r')
              else (false, rest)
          | EmptyString => (false, rest)
          end in
        match take_digits r with
        | ([], _) => None
        | (ds, r') => Some (if neg then - of_digits ds else of_digits ds, r')
        end
      else Some (0, s)
  | EmptyString => Some (0, s)
  end.

Definition parse_fraction (s : string) : option (list Z * string) :=
  match s with
  | String c rest =>
      if Nat.eqb (code c) 46
      then match take_digits rest with
           | ([], _) => None
           | (ds, r) => Some (ds, r)
           end
      else Some ([], s)
  | EmptyString => Some ([], s)
  end.

Definition parse_number (s : string) : option (t * string) :=
  let '(neg, s1) :=
    match s with
    | String c rest => if Nat.eqb (code c) 45 then (true, rest) else (false, s)
    | EmptyString => (false, s)
    end in
  let int_part :=
    match s1 with
    | String c rest =>
        if Nat.eqb (code c) 48 then Some ([0], rest)
        else if is_digit c then Some (take_digits s1)
        else None
    | EmptyString => None
    end in
  match int_part with
  | None => None
  | Some (ids, s2) =>
      match parse_fraction s2 with
      | None => None
      | Some (fds, s3) =>
          match parse_exponent s3 with
          | None => None
          | Some (ex, s4) =>
              Some (decimal neg (ids ++ fds)%list (ex - Z.of_nat (List.length fds)), s4)
          end
      end
  end.

Definition hex_val (c : ascii) : option nat :=
  let n := code c in
  if is_digit c then Some (n - 48)%nat
  else if Nat.leb 97 n && Nat.leb n 102 then Some (n - 87)%nat
  else if Nat.leb 65 n && Nat.leb n 70 then Some (n - 55)%nat
  else None.

(** A [\uXXXX] escape, stored as the UTF-8 bytes of the code unit. *)
Definition utf8 (cp : nat) : string :=
  let b (n : nat) := String (ascii_of_nat n) EmptyString in
  if Nat.ltb cp 128 then b cp
  else if Nat.ltb cp 2048
  then (b (192 + cp / 64)%nat ++ b (128 + cp mod 64)%nat)%string
  else (b (224 + cp / 4096)%nat ++ b (128 + (cp / 64) mod 64)%nat
        ++ b (128 + cp mod 64)%nat)%string.

Definition simple_escape (c : ascii) : option ascii :=
  let n := code c in
  if Nat.eqb n 34 || Nat.eqb n 92 || Nat.eqb n 47 then Some c
  else if Nat.eqb n 98 then Some (ascii_of_nat 8)
  else if Nat.eqb n 102 then Some (ascii_of_nat 12)
  else if Nat.eqb n 110 then Some (ascii_of_nat 10)
  else if Nat.eqb n 114 then Some (ascii_of_nat 13)
  else if Nat.eqb n 116 then Some (ascii_of_nat 9)
  else None.

(** The characters of a string literal after its opening quote. *)
Fixpoint parse_chars (s : string) : option (string * string) :=
  match s with
  | EmptyString => None
  | String c rest =>
      if Nat.eqb (code c) 34 then Some (EmptyString, rest)
      else if Nat.eqb (code c) 92 then
        match rest with
        | String e rest1 =>
            if Nat.eqb (code e) 117 then
              match rest1 with
              | String h1 (String h2 (String h3 (String h4 rest2))) =>
                  match hex_val h1, hex_val h2, hex_val h3, hex_val h4 with
                  | Some a, Some b, Some c', Some d =>
                      match parse_chars rest2 with
                      | Some (body, r) =>
                          Some ((utf8 (((a * 16 + b) * 16 + c') * 16 + d)%nat
                                 ++ body)%string, r)
                      | None => None
                      end
                  | _, _, _, _ => None
                  end
              | _ => None
              end
            else
              match simple_escape e with
              | Some ch =>
                  match parse_chars rest1 with
                  | Some (body, r) => Some (String ch body, r)
                  | None => None
                  end
              | None => None
              end
        | EmptyString => None
        end
      else if Nat.ltb (code c) 32 then None
      else match parse_chars rest with
           | Some (body, r) => Some (String c body, r)
           | None => None
           end
  end.

Definition expect (word : string) (v : t) (s : string) : option (t * string) :=
  if String.prefix word s
  then Some (v, String.substring (String.length word)
                  (String.length s - String.length word)%nat s)
  else None.

(** Values, then the elements of an array after its first value position,
    then the members of an object; [fuel] bounds the number of calls, each of
    which consumes input. A repeated key keeps its last value. *)
Fixpoint parse_value (fuel : nat) (s : string) {struct fuel}
  : option (t * string) :=
  match fuel with
  | O => None
  | S fuel' =>
      match skip_ws s with
      | EmptyString => None
      | String c rest as s0 =>
          let n := code c in
          if Nat.eqb n 123 then
            match skip_ws rest with
            | String c1 rest1 as r =>
                if Nat.eqb (code c1) 125 then Some (JObj [], rest1)
                else parse_members fuel' r []
            | EmptyString => None
            end
          else if Nat.eqb n 91 then
            match skip_ws rest with
            | String c1 rest1 as r =>
                if Nat.eqb (code c1) 93 then Some (JArr [], rest1)
                else parse_elements fuel' r []
            | EmptyString => None
            end
          else if Nat.eqb n 34 then
            match parse_chars rest with
            | Some (str, r) => Some (JStr str, r)
            | None => None
            end
          else if Nat.eqb n 116 then expect "true" (JBool true) s0
          else if Nat.eqb n 102 then expect "false" (JBool false) s0
          else if Nat.eqb n 110 then expect "null" JNull s0
          else parse_number s0
      end
  end
with parse_elements (fuel : nat) (s : string) (acc : list t) {struct fuel}
  : option (t * string) :=
  match fuel with
  | O => None
  | S fuel' =>
      match parse_value fuel' s with
      | None => None
      | Some (v, r) =>
          match skip_ws r with
          | String c rest =>
              if Nat.eqb (code c) 44 then parse_elements fuel' rest (v :: acc)
              else if Nat.eqb (code c) 93 then Some (JArr (rev (v :: acc)), rest)
              else None
          | EmptyString => None
          end
      end
  end
with parse_members (fuel : nat) (s : string) (acc : obj) {struct fuel}
  : option (t * string) :=
  match fuel with
  | O => None
  | S fuel' =>
      match skip_ws s with
      | String q rest =>
          if Nat.eqb (code q) 34 then
            match parse_chars rest with
            | None => None
            | Some (key, r) =>
                match skip_ws r with
                | String colon r1 =>
                    if Nat.eqb (code colon) 58 then
                      match parse_value fuel' r1 with
                      | None => None
                      | Some (v, r2) =>
                          match skip_ws r2 with
                          | String c r3 =>
                              if Nat.eqb (code c) 44
                              then parse_members fuel' r3 (set key v acc)
                              else if Nat.eqb (code c) 125
                              then Some (JObj (set key v acc), r3)
                              else None
                          | EmptyString => None
                          end
                      end
                    else None
                | EmptyString => None
                end
            end
          else None
      | EmptyString => None
      end
  end.

(** [JSON.parse(text)]; the message of the [SyntaxError] is the engine's own
    and quotes the text here, as V8 does. *)
Definition parse (text : string) : result t :=
  match parse_value (S (String.length text)) text with
  | Some (v, rest) =>
      match skip_ws rest with
      | EmptyString => Ok v
      | _ => Err (SyntaxError ("Unexpected non-whitespace character after JSON: "
                                ++ text))
      end
  | None => Err (SyntaxError ("Unexpected token in JSON: " ++ text))
  end.

(** Writes a JSON text with ['] standing for the double quote. *)
Fixpoint quoted (s : string) : string :=
  match s with
  | EmptyString => EmptyString
  | String c rest =>
      String (if Nat.eqb (code c) 39 then ascii_of_nat 34 else c) (quoted rest)
  end.

End Json.

(** ** The remote model *)

(** One element of [contents.parts] of a request, or of a candidate's
    [content.parts] in a response. *)
Record InlineData := mkInline { mimeType : string; data : string }.

Inductive Part :=
| TextPart (text : string)
| InlinePart (inlineData : InlineData).

(** [ai.models.generateContent] is called in two shapes: the text model with
    a prompt string and the fixed JSON response schema, and the image model
    with a list of parts and an aspect ratio. *)
Inductive Request :=
| TextRequest (model : string) (contents : string)
| ImageRequest (model : string) (parts : list Part) (aspectRatio : string).

(** The inline payload of a response part; both fields are optional in the
    SDK's types. *)
Record Blob := mkBlob {
  b_mimeType : option string;
  b_data : option string
}.

Record ResponsePart := mkRPart {
  rp_text : option string;
  rp_inlineData : option Blob
}.

Record Content := mkContent {
  content_parts : option (list ResponsePart)
}.

Record Candidate := mkCandidate {
  content : option Content
}.

(** [text] is the SDK's accessor for the text of the response, [undefined]
    when there is none; it is kept as a field of its own. *)
Record Response := mkResponse {
  text : option string;
  candidates : option (list Candidate)
}.

(** What the program takes from its platform: the remote model, an opaque
    oracle with its own state, and the engine's [JSON.parse]. *)
Class Platform := {
  World : Type;
  generateContent : Request -> World -> result Response * World;
  JSON_parse : string -> result Json.t
}.

(** ** Effects *)

Inductive Event :=
| Sent (r : Request)          (* ai.models.generateContent(r) was called *)
| Attempt                     (* callWithRetry invoked its operation *)
| Warn (msg : string)         (* console.warn *)
| Sleep (ms : Z)              (* a setTimeout-based wait of ms *)
| ConsoleError (e : JsError). (* console.error *)

Section WithRemote.
Context {platform : Platform}.

Record Sys := mkSys {
  world : World;
  log : list Event
}.

Definition M (A : Type) : Type := Sys -> result A * Sys.

Definition ret {A} (a : A) : M A := fun s => (Ok a, s).
Definition bind {A B} (m : M A) (k : A -> M B) : M B :=
  fun s => match m s with
           | (Ok a, s') => k a s'
           | (Err e, s') => (Err e, s')
           end.

Definition emit (ev : Event) (s : Sys) : Sys :=
  mkSys (world s) (log s ++ [ev]).

(** [await ai.models.generateContent(r)] *)
Definition callRemote (r : Request) : M Response :=
  fun s => let '(res, w) := generateContent r (world s) in
           (res, mkSys w (log s ++ [Sent r])).

End WithRemote.

Notation "x <- m ;; k" := (bind m (fun x => k))
  (at level 61, m at next level, right associativity).

(** ** Retry wrapper *)

(** The classification of the current service module. *)
Definition isRetryable (error : JsError) : bool :=
  let errorMsg := errorMsg error in
  Js.includes errorMsg "429"
  || Js.includes errorMsg "500"
  || Js.includes errorMsg "503"
  || Js.includes errorMsg "RESOURCE_EXHAUSTED"
  || match e_status error with Some st => st =? 429 | None => false end.

Definition retryNotice (delay retries : Z) : string :=
  "Architect Quota/Rate limit detected. Retrying in " ++ Js.num delay
  ++ "ms... (" ++ Js.num retries ++ " retries left)".

(** The classification and notice of the first revision of the module. *)
Definition isRetryable_v1 (error : JsError) : bool :=
  Js.includes (e_message error) "429"
  || Js.includes (e_message error) "500"
  || Js.includes (e_message error) "503"
  || match e_status error with Some st => st =? 429 | None => false end.

Definition retryNotice_v1 (delay retries : Z) : string :=
  "API error detected. Retrying in " ++ Js.num delay
  ++ "ms... (" ++ Js.num retries ++ " retries left)".

Definition inspect {A} (a : A) : {b : A | a = b} := exist _ a eq_refl.

Section Retry.
Context {platform : Platform}.

(** The body shared by both revisions of [callWithRetry], which differ in the
    test [classify] and the text [notice] only. [Attempt] marks each call of
    [fn]; it is not an effect of the program. *)
Equations? retryLoop (classify : JsError -> bool) (notice : Z -> Z -> string)
  {T} (fn : M T) (retries delay : Z) (s : Sys)
  : result T * Sys by wf (Z.to_nat retries) lt :=
retryLoop classify notice fn retries delay s with fn (emit Attempt s) => {
  | (Ok v, s1) => (Ok v, s1);
  | (Err error, s1) with inspect ((0 <? retries) && classify error) => {
      | exist _ true _ =>
          retryLoop classify notice fn (retries - 1) (delay * 2)
            (emit (Sleep delay) (emit (Warn (notice delay retries)) s1));
      | exist _ false _ => (Err error, s1) } }.
Proof.
  apply andb_prop in e as [Hpos _]. apply Z.ltb_lt in Hpos. lia.
Qed.

(** [callWithRetry(fn, retries = 4, delay = 5000)] *)
Definition callWithRetry {T} (fn : M T) (retries delay : Z) : M T :=
  retryLoop isRetryable retryNotice fn retries delay.

Definition defaultRetries : Z := 4.
Definition defaultDelay : Z := 5000.

(** [callWithRetry(fn, retries = 3, delay = 2000)] of the first revision. *)
Definition callWithRetry_v1 {T} (fn : M T) (retries delay : Z) : M T :=
  retryLoop isRetryable_v1 retryNotice_v1 fn retries delay.

End Retry.

(** ** Data model (types.ts) *)

Inductive AgeGroup := Age2to4 | Age5to7 | Age8to10 | AgeAdult.

Record CharacterTweaks := mkTweaks {
  hair : string;
  clothing : string;
  appearance : string;
  personality : string;
  accessory : string
}.

Record Character := mkCharacter {
  c_id : string;
  c_name : string;
  c_description : string;
  c_sheetUrl : option string;
  c_uploadUrl : option string;
  c_isGenerating : option bool;
  c_tweaks : CharacterTweaks
}.

Record SceneSliders := mkSliders {
  sl_tone : Z;
  sl_excitement : Z;
  sl_happiness : Z;
  sl_energy : Z;
  sl_tension : Z
}.

Record Scene := mkScene {
  s_id : Z;
  s_description : string;
  s_storyText : string;
  s_imageUrl : option string;
  s_isGenerating : option bool;
  s_sliders : option SceneSliders
}.

(** [number | 'auto'] *)
Inductive SceneCount := AutoCount | FixedCount (n : Z).

Record StoryParams := mkParams {
  p_story : string;
  p_ageGroup : AgeGroup;
  p_tone : string;
  p_sceneCount : SceneCount
}.

Inductive AppStep := Input | Analysis | Characters | Scenes.

(** ** Constants (constants.ts) *)

Definition AGE_STYLE_TAGS (g : AgeGroup) : string :=
  match g with
  | Age2to4 => "Chunky shapes, bold black outlines, high-contrast, minimalist backgrounds, vibrant primary colors, simple character features."
  | Age5to7 => "Watercolor and colored pencil textures, gentle gradients, whimsical atmosphere, soft lighting, medium detail levels."
  | Age8to10 => "Cinematic lighting, 3D-render aesthetic, detailed digital painting, depth of field, complex textures, realistic proportions within an illustrative style."
  | AgeAdult => "Gothic oil painting textures, dramatic chiaroscuro lighting, intricate details, mature color palettes, realistic but highly stylized character designs, moody atmosphere."
  end.

Definition DEFAULT_MODELS_text : string := "gemini-3-flash-preview".
Definition DEFAULT_MODELS_image : string := "gemini-2.5-flash-image".

(** ** Generation client (services/geminiService.ts) *)

(** [Object.entries(tweaks)], in the order the record is always built. *)
Definition tweakEntries (t : CharacterTweaks) : list (string * string) :=
  [("hair", hair t); ("clothing", clothing t); ("appearance", appearance t);
   ("personality", personality t); ("accessory", accessory t)].

Definition tweakStr (t : CharacterTweaks) : string :=
  Js.join ", "
    (map (fun kv => fst kv ++ ": " ++ snd kv)
       (filter (fun kv => Js.truthy (snd kv)) (tweakEntries t))).

Definition countInstruction (sceneCount : SceneCount) : string :=
  match sceneCount with
  | AutoCount => "Decide on an appropriate number of sequential book pages (between 5 and 40) based on the story length and emotional arc."
  | FixedCount n =>
      "Break the story down into exactly " ++ Js.num n
      ++ " sequential book pages."
  end.

Definition toneInstruction (tone : string) : string :=
  if String.eqb tone "auto"
  then "Determine an appropriate artistic tone (e.g., whimsical, noir, watercolor, cinematic) that fits the story's soul."
  else "The artistic tone for this book is " ++ Js.dq ++ tone ++ Js.dq ++ ".".

Definition analysisPrompt (story : string) (sceneCount : SceneCount)
  (tone : string) : string :=
  "Analyze this story and prepare it for illustration." ++ Js.nl
  ++ "      " ++ Js.nl
  ++ "      Instructions:" ++ Js.nl
  ++ "      1. " ++ countInstruction sceneCount ++ Js.nl
  ++ "      2. " ++ toneInstruction tone ++ Js.nl
  ++ "      3. For each page, provide:" ++ Js.nl
  ++ "         - " ++ Js.dq ++ "storyText" ++ Js.dq
  ++ ": The text to be printed on the page." ++ Js.nl
  ++ "         - " ++ Js.dq ++ "description" ++ Js.dq
  ++ ": A detailed visual description for an illustrator." ++ Js.nl
  ++ "      4. Identify all recurring main characters." ++ Js.nl
  ++ "      " ++ Js.nl
  ++ "      Story: " ++ story ++ Js.nl
  ++ "      " ++ Js.nl
  ++ "      Return the data in a structured JSON format.".

(** The [tweaks] every analysed character is given. *)
Definition emptyTweaks : Json.t :=
  Json.JObj [("hair", Json.JStr EmptyString);
             ("clothing", Json.JStr EmptyString);
             ("appearance", Json.JStr EmptyString);
             ("personality", Json.JStr EmptyString);
             ("accessory", Json.JStr EmptyString)].

(** [c => ({ ...c, tweaks: {...} })] *)
Definition withEmptyTweaks (c : Json.t) : Json.t :=
  Json.JObj (Json.set "tweaks" emptyTweaks (Json.spread c)).

(** [x || []] where [x] is a property read. *)
Definition orEmptyArray (x : option Json.t) : Json.t :=
  match x with
  | Some v => if Json.truthy v then v else Json.JArr []
  | None => Json.JArr []
  end.

(** [response.text || '{}'] *)
Definition textOrEmptyObject (r : Response) : string :=
  match text r with
  | Some t => Js.or_else t "{}"
  | None => "{}"
  end.

(** The regular expression [/^data:(image\/[a-z]+);base64,(.+)$/]. *)

Definition is_lower (c : ascii) : bool :=
  Nat.leb 97 (nat_of_ascii c) && Nat.leb (nat_of_ascii c) 122.

Fixpoint take_lower (s : string) : string * string :=
  match s with
  | String c rest =>
      if is_lower c
      then let '(ls, r) := take_lower rest in (String c ls, r)
      else (EmptyString, s)
  | EmptyString => (EmptyString, s)
  end.

(** No LF, CR, U+2028 or U+2029 (the last two as their UTF-8 bytes): the
    characters that [.] does not match. *)
Fixpoint no_line_terminator (s : string) : bool :=
  match s with
  | EmptyString => true
  | String c rest =>
      let n := nat_of_ascii c in
      negb (Nat.eqb n 10 || Nat.eqb n 13)
      && negb (String.prefix (String (ascii_of_nat 226)
                                (String (ascii_of_nat 128)
                                   (String (ascii_of_nat 168) EmptyString))) s)
      && negb (String.prefix (String (ascii_of_nat 226)
                                (String (ascii_of_nat 128)
                                   (String (ascii_of_nat 169) EmptyString))) s)
      && no_line_terminator rest
  end.

Fixpoint strip_prefix (p s : string) : option string :=
  match p, s with
  | EmptyString, _ => Some s
  | String a p', String b s' => if Ascii.eqb a b then strip_prefix p' s' else None
  | String _ _, EmptyString => None
  end.

(** [url.match(...)]: the two captured groups, or [None] for [null]. The run
    of lower-case letters is followed by [;], so only the longest run can
    match. *)
Definition matchDataUrl (url : string) : option (string * string) :=
  match strip_prefix "data:image/" url with
  | None => None
  | Some r =>
      let '(letters, r1) := take_lower r in
      if Js.truthy letters then
        match strip_prefix ";base64," r1 with
        | Some payload =>
            if Js.truthy payload && no_line_terminator payload
            then Some ("image/" ++ letters, payload)
            else None
        | None => None
        end
      else None
  end.

Definition characterSheetPrompt (character : Character) (tone styleTags : string)
  : string :=
  let tweakStr := tweakStr (c_tweaks character) in
  "Character Sheet for " ++ c_name character ++ ". Basic Concept: "
  ++ c_description character ++ ". "
  ++ (if Js.truthy tweakStr then "Specific features: " ++ tweakStr ++ "."
      else EmptyString)
  ++ " Professional reference sheet showing front, side, and back views, solid white background, "
  ++ tone ++ " tone, " ++ styleTags
  ++ ". High quality character design. Use the attached image as the base reference for features and clothing.".

(** The [parts] array: the text prompt, and the uploaded image unshifted in
    front of it when [uploadUrl] is truthy and matches. *)
Definition characterSheetParts (character : Character) (tone styleTags : string)
  : list Part :=
  let parts := [TextPart (characterSheetPrompt character tone styleTags)] in
  match c_uploadUrl character with
  | Some url =>
      if Js.truthy url then
        match matchDataUrl url with
        | Some (m1, m2) => InlinePart (mkInline m1 m2) :: parts
        | None => parts
        end
      else parts
  | None => parts
  end.

(** [response.candidates?.[0]?.content?.parts || []] *)
Definition responseParts (r : Response) : list ResponsePart :=
  match candidates r with
  | Some (c :: _) =>
      match content c with
      | Some ct =>
          match content_parts ct with
          | Some ps => ps
          | None => []
          end
      | None => []
      end
  | _ => []
  end.

(** Interpolating an optional string: [undefined] prints as its name. *)
Definition interpolate (o : option string) : string :=
  match o with Some s => s | None => "undefined" end.

(** The loop over the parts, returning at the first one with [inlineData],
    and the [throw] after it. *)
Fixpoint firstInlineImage (ps : list ResponsePart) : result string :=
  match ps with
  | [] => Err (Error "No image data returned from API")
  | part :: rest =>
      match rp_inlineData part with
      | Some blob => Ok ("data:image/png;base64," ++ interpolate (b_data blob))
      | None => firstInlineImage rest
      end
  end.

Definition characterContext (characters : list Character) : string :=
  Js.join ", "
    (map (fun c =>
            let tweakStr := tweakStr (c_tweaks c) in
            c_name c ++ " (" ++ c_description c
            ++ (if Js.truthy tweakStr then ", with " ++ tweakStr
                else EmptyString)
            ++ ")")
       characters).

Definition sliderContext (sliders : option SceneSliders) : string :=
  match sliders with
  | Some sl =>
      " Atmosphere: Tone:" ++ Js.num (sl_tone sl)
      ++ ", Excitement:" ++ Js.num (sl_excitement sl)
      ++ ", Happiness:" ++ Js.num (sl_happiness sl)
      ++ ", Energy:" ++ Js.num (sl_energy sl)
      ++ ", Tension:" ++ Js.num (sl_tension sl) ++ "."
  | None => EmptyString
  end.

Definition sceneImagePrompt (scene : Scene) (characters : list Character)
  (tone styleTags : string) (sliders : option SceneSliders)
  (useStoryText : bool) : string :=
  let primaryPrompt :=
    if useStoryText then s_storyText scene else s_description scene in
  "CHILDREN'S BOOK ILLUSTRATION. Scene focus: " ++ primaryPrompt
  ++ ". Characters present: " ++ characterContext characters
  ++ ". Style: " ++ tone ++ ", " ++ styleTags ++ "."
  ++ sliderContext sliders
  ++ " Consistent character appearances. 4K quality.".

Definition characterSheetRequest (character : Character)
  (tone styleTags : string) : Request :=
  ImageRequest DEFAULT_MODELS_image
    (characterSheetParts character tone styleTags) "1:1".

Definition sceneImageRequest (scene : Scene) (characters : list Character)
  (tone styleTags : string) (sliders : option SceneSliders)
  (useStoryText : bool) : Request :=
  ImageRequest DEFAULT_MODELS_image
    [TextPart (sceneImagePrompt scene characters tone styleTags sliders
                 useStoryText)]
    "16:9".

Section Service.
Context {platform : Platform}.

Definition lift {A} (r : result A) : M A := fun s => (r, s).

(** The operation [analyzeStory] hands to the retry wrapper. *)
Definition analyzeStory_attempt (story : string) (sceneCount : SceneCount)
  (tone : string) : M Json.t :=
  response <- callRemote
                (TextRequest DEFAULT_MODELS_text
                   (analysisPrompt story sceneCount tone)) ;;
  parsed <- lift (JSON_parse (textOrEmptyObject response)) ;;
  characters <- lift (Json.get parsed "characters") ;;
  mapped <- lift (Json.call_map (orEmptyArray characters) withEmptyTweaks) ;;
  ret (Json.JObj (Json.set "characters" mapped (Json.spread parsed))).

Definition analyzeStory (story : string) (sceneCount : SceneCount)
  (tone : string) : M Json.t :=
  callWithRetry (analyzeStory_attempt story sceneCount tone)
    defaultRetries defaultDelay.

Definition generateCharacterSheet_attempt (character : Character)
  (tone styleTags : string) : M string :=
  response <- callRemote (characterSheetRequest character tone styleTags) ;;
  lift (firstInlineImage (responseParts response)).

Definition generateCharacterSheet (character : Character)
  (tone styleTags : string) : M string :=
  callWithRetry (generateCharacterSheet_attempt character tone styleTags)
    defaultRetries defaultDelay.

Definition generateSceneImage_attempt (scene : Scene)
  (characters : list Character) (tone styleTags : string)
  (sliders : option SceneSliders) (useStoryText : bool) : M string :=
  response <- callRemote
                (sceneImageRequest scene characters tone styleTags sliders
                   useStoryText) ;;
  lift (firstInlineImage (responseParts response)).

(** [sliders] is optional and [useStoryText] defaults to [false]. *)
Definition generateSceneImage (scene : Scene) (characters : list Character)
  (tone styleTags : string) (sliders : option SceneSliders)
  (useStoryText : bool) : M string :=
  callWithRetry
    (generateSceneImage_attempt scene characters tone styleTags sliders
       useStoryText)
    defaultRetries defaultDelay.

End Service.

(** ** Session state and its handlers (App.tsx) *)

(** The component's state variables. *)
Record Session := mkSession {
  step : AppStep;
  loading : bool;
  errorMessage : option string;
  sessionUsage : Z;
  params : StoryParams;
  characters : list Character;
  scenes : list Scene;
  activeEditingScene : option Scene;
  editingSliders : SceneSliders
}.

Definition initialParams : StoryParams :=
  mkParams EmptyString Age5to7 "auto" AutoCount.

Definition initialSession : Session :=
  mkSession Input false None 0 initialParams [] [] None (mkSliders 5 5 5 5 5).

(** The state setters; those of the two lists take an updater of the latest
    value, as the handlers call them. *)
Definition setStep (v : AppStep) (st : Session) : Session :=
  mkSession v (loading st) (errorMessage st) (sessionUsage st) (params st)
    (characters st) (scenes st) (activeEditingScene st) (editingSliders st).

Definition setLoading (v : bool) (st : Session) : Session :=
  mkSession (step st) v (errorMessage st) (sessionUsage st) (params st)
    (characters st) (scenes st) (activeEditingScene st) (editingSliders st).

Definition setErrorMessage (v : option string) (st : Session) : Session :=
  mkSession (step st) (loading st) v (sessionUsage st) (params st)
    (characters st) (scenes st) (activeEditingScene st) (editingSliders st).

Definition incrementUsage (st : Session) : Session :=
  mkSession (step st) (loading st) (errorMessage st) (sessionUsage st + 1)
    (params st) (characters st) (scenes st) (activeEditingScene st)
    (editingSliders st).

Definition setParams (v : StoryParams) (st : Session) : Session :=
  mkSession (step st) (loading st) (errorMessage st) (sessionUsage st) v
    (characters st) (scenes st) (activeEditingScene st) (editingSliders st).

Definition setCharacters (f : list Character -> list Character) (st : Session)
  : Session :=
  mkSession (step st) (loading st) (errorMessage st) (sessionUsage st)
    (params st) (f (characters st)) (scenes st) (activeEditingScene st)
    (editingSliders st).

Definition setScenes (f : list Scene -> list Scene) (st : Session) : Session :=
  mkSession (step st) (loading st) (errorMessage st) (sessionUsage st)
    (params st) (characters st) (f (scenes st)) (activeEditingScene st)
    (editingSliders st).

Definition setActiveEditingScene (v : option Scene) (st : Session) : Session :=
  mkSession (step st) (loading st) (errorMessage st) (sessionUsage st)
    (params st) (characters st) (scenes st) v (editingSliders st).

(** [prev.map(c => c.id === charId ? f(c) : c)] *)
Definition mapCharacter (charId : string) (f : Character -> Character)
  (prev : list Character) : list Character :=
  map (fun c => if String.eqb (c_id c) charId then f c else c) prev.

(** [prev.map(s => s.id === sceneId ? f(s) : s)] *)
Definition mapScene (sceneId : Z) (f : Scene -> Scene) (prev : list Scene)
  : list Scene :=
  map (fun s => if s_id s =? sceneId then f s else s) prev.

(** [{ ...c, isGenerating }] and [{ ...c, sheetUrl, isGenerating: false }] *)
Definition characterGenerating (b : bool) (c : Character) : Character :=
  mkCharacter (c_id c) (c_name c) (c_description c) (c_sheetUrl c)
    (c_uploadUrl c) (Some b) (c_tweaks c).

Definition characterSheetReady (sheetUrl : string) (c : Character) : Character :=
  mkCharacter (c_id c) (c_name c) (c_description c) (Some sheetUrl)
    (c_uploadUrl c) (Some false) (c_tweaks c).

(** [{ ...s, isGenerating }] and [{ ...s, imageUrl, isGenerating: false }] *)
Definition sceneGenerating (b : bool) (s : Scene) : Scene :=
  mkScene (s_id s) (s_description s) (s_storyText s) (s_imageUrl s) (Some b)
    (s_sliders s).

Definition sceneImageReady (imageUrl : string) (s : Scene) : Scene :=
  mkScene (s_id s) (s_description s) (s_storyText s) (Some imageUrl)
    (Some false) (s_sliders s).

(** [{ ...s, description, storyText, sliders, isGenerating: true }] *)
Definition sceneEdited (description storyText : string) (sliders : SceneSliders)
  (s : Scene) : Scene :=
  mkScene (s_id s) description storyText (s_imageUrl s) (Some true)
    (Some sliders).

Definition quotaMessage : string :=
  "Architect Quota Exceeded. The Free Tier of the Gemini API allows approximately 15 images per minute. We are retrying automatically with delays, but if this persists, please wait 60 seconds or check your project billing status at ai.google.dev/gemini-api/docs/billing".

Definition userMessage (error : JsError) : string :=
  let msg := errorMsg error in
  if Js.includes msg "429" || Js.includes msg "quota"
     || Js.includes msg "RESOURCE_EXHAUSTED"
  then quotaMessage
  else "An unexpected error occurred: " ++ Js.substring0 100 msg.

(** [handleReset]; [confirmed] is the answer of [window.confirm], asked only
    away from the Input step. *)
Definition handleReset (confirmed : bool) (st : Session) : Session :=
  if negb (match step st with Input => true | _ => false end) && negb confirmed
  then st
  else setErrorMessage None
         (setParams initialParams
            (setScenes (fun _ => [])
               (setCharacters (fun _ => []) (setStep Input st)))).

Section Handlers.
Context {platform : Platform}.

(** The whole application: the component state and the outside world. *)
Definition App : Type := Session * Sys.

Definition upd (f : Session -> Session) (a : App) : App := (f (fst a), snd a).

Definition handleError (error : JsError) (a : App) : App :=
  (setErrorMessage (Some (userMessage error)) (fst a),
   emit (ConsoleError error) (snd a)).

(** [handleGenerateCharacter] up to its [await]: the character found in the
    handler's own snapshot (if any) and the state with the flag set. *)
Definition handleGenerateCharacter_begin (charId : string) (st : Session)
  : option Character * Session :=
  match find (fun c => String.eqb (c_id c) charId) (characters st) with
  | None => (None, st)
  | Some char =>
      (Some char,
       setCharacters (mapCharacter charId (characterGenerating true))
         (setErrorMessage None st))
  end.

(** [handleGenerateCharacter] from the settling of the awaited call on, run
    on whatever the state is by then. *)
Definition handleGenerateCharacter_settle (charId : string)
  (outcome : result string) (a : App) : App :=
  match outcome with
  | Ok sheetUrl =>
      upd incrementUsage
        (upd (setCharacters (mapCharacter charId (characterSheetReady sheetUrl)))
           a)
  | Err error =>
      upd (setCharacters (mapCharacter charId (characterGenerating false)))
        (handleError error a)
  end.

(** [handleGenerateCharacter] with nothing else running in between. *)
Definition handleGenerateCharacter (charId : string) (a : App) : App :=
  let st := fst a in
  match handleGenerateCharacter_begin charId st with
  | (None, _) => a
  | (Some char, st1) =>
      let '(outcome, sys1) :=
        generateCharacterSheet char (p_tone (params st))
          (AGE_STYLE_TAGS (p_ageGroup (params st))) (snd a) in
      handleGenerateCharacter_settle charId outcome (st1, sys1)
  end.

(** The [for] loop of [generateAllScenes] over the scenes of the handler's
    snapshot [snap]; an error leaves the loop at once. *)
Fixpoint generateAllScenes_loop (snap : Session) (todo : list Scene) (a : App)
  : result unit * App :=
  match todo with
  | [] => (Ok tt, a)
  | scene :: rest =>
      if Js.truthy_opt (s_imageUrl scene) then generateAllScenes_loop snap rest a
      else
        let a1 := upd (setScenes (mapScene (s_id scene) (sceneGenerating true)))
                    a in
        match generateSceneImage scene (characters snap) (p_tone (params snap))
                (AGE_STYLE_TAGS (p_ageGroup (params snap))) None false (snd a1)
        with
        | (Err error, sys1) => (Err error, (fst a1, sys1))
        | (Ok imageUrl, sys1) =>
            let a2 := upd (setScenes
                             (mapScene (s_id scene) (sceneImageReady imageUrl)))
                        (fst a1, sys1) in
            let a3 := upd incrementUsage a2 in
            generateAllScenes_loop snap rest (fst a3, emit (Sleep 4500) (snd a3))
        end
  end.

Definition generateAllScenes (a : App) : App :=
  let snap := fst a in
  let a1 := upd (setErrorMessage None)
              (upd (setLoading true) (upd (setStep Scenes) a)) in
  let '(outcome, a2) := generateAllScenes_loop snap (scenes snap) a1 in
  let a3 := match outcome with
            | Ok _ => a2
            | Err error => handleError error a2
            end in
  upd (setLoading false) a3.

(** [generateAllScenes] from the settling of the call it awaits for [scene]
    on, run on whatever the state is by then: the rest of the iteration, the
    loop over the scenes [rest] that follow [scene] in the snapshot, the
    [catch] and the [finally]. *)
Definition generateAllScenes_settle (snap : Session) (scene : Scene)
  (rest : list Scene) (outcome : result string) (a : App) : App :=
  let '(result, a2) :=
    match outcome with
    | Err error => (Err error, a)
    | Ok imageUrl =>
        let a2 := upd (setScenes
                         (mapScene (s_id scene) (sceneImageReady imageUrl)))
                    a in
        let a3 := upd incrementUsage a2 in
        generateAllScenes_loop snap rest (fst a3, emit (Sleep 4500) (snd a3))
    end in
  upd (setLoading false)
    match result with
    | Ok _ => a2
    | Err error => handleError error a2
    end.

(** Settling of a single-scene generation, shared by [handleRegenerateScene]
    and [tweakSceneAction]: the [try] continuation or the [catch], then the
    [finally]. *)
Definition sceneGeneration_settle (sceneId : Z) (outcome : result string)
  (a : App) : App :=
  upd (setLoading false)
    match outcome with
    | Ok imageUrl =>
        upd incrementUsage
          (upd (setScenes (mapScene sceneId (sceneImageReady imageUrl))) a)
    | Err error =>
        upd (setScenes (mapScene sceneId (sceneGenerating false)))
          (handleError error a)
    end.

(** [handleRegenerateScene]; when no scene has the id, reading
    [scene.sliders] throws inside the [try]. *)
Definition handleRegenerateScene (sceneId : Z) (useStoryText : bool) (a : App)
  : App :=
  let snap := fst a in
  let scene := find (fun s => s_id s =? sceneId) (scenes snap) in
  let a1 := upd (setScenes (mapScene sceneId (sceneGenerating true)))
              (upd (setErrorMessage None) (upd (setLoading true) a)) in
  let '(outcome, sys1) :=
    match scene with
    | Some sc =>
        generateSceneImage sc (characters snap) (p_tone (params snap))
          (AGE_STYLE_TAGS (p_ageGroup (params snap))) (s_sliders sc)
          useStoryText (snd a1)
    | None =>
        (Err (TypeError
                "Cannot read properties of undefined (reading 'sliders')"),
         snd a1)
    end in
  sceneGeneration_settle sceneId outcome (fst a1, sys1).

(** [tweakSceneAction]; the scene sent is the snapshot's with the two edited
    texts, of which the call reads nothing else (so the id given to a scene
    that was not found is immaterial). *)
Definition tweakSceneAction (sceneId : Z) (newDescription newStoryText : string)
  (useStoryText : bool) (a : App) : App :=
  let snap := fst a in
  let a1 := upd (setActiveEditingScene None)
              (upd (setScenes
                      (mapScene sceneId
                         (sceneEdited newDescription newStoryText
                            (editingSliders snap))))
                 (upd (setErrorMessage None) (upd (setLoading true) a))) in
  let scene :=
    match find (fun s => s_id s =? sceneId) (scenes snap) with
    | Some sc =>
        mkScene (s_id sc) newDescription newStoryText (s_imageUrl sc)
          (s_isGenerating sc) (s_sliders sc)
    | None => mkScene 0 newDescription newStoryText None None None
    end in
  let '(outcome, sys1) :=
    generateSceneImage scene (characters snap) (p_tone (params snap))
      (AGE_STYLE_TAGS (p_ageGroup (params snap))) (Some (editingSliders snap))
      useStoryText (snd a1) in
  sceneGeneration_settle sceneId outcome (fst a1, sys1).

End Handlers.

(** ** A scripted platform

    The remote model answers each call with the next outcome of a script, the
    engine parses JSON with [Json.parse]. *)

Definition scriptExhausted : JsError :=
  mkError "ApiError" "script exhausted" None.

Definition Scripted : Platform := {|
  World := list (result Response);
  generateContent := fun _ w =>
    match w with
    | [] => (Err scriptExhausted, [])
    | r :: rest => (r, rest)
    end;
  JSON_parse := Json.parse
|}.

(** ** Observations on the log *)

(** How many times a retry wrapper called its operation. *)
Definition attempts (l : list Event) : nat :=
  List.length (filter (fun ev => match ev with Attempt => true | _ => false end) l).

(** The waits, in order. *)
Definition waits (l : list Event) : list Z :=
  flat_map (fun ev => match ev with Sleep ms => [ms] | _ => [] end) l.

(** The requests sent to the remote model, in order. *)
Definition requests (l : list Event) : list Request :=
  flat_map (fun ev => match ev with Sent r => [r] | _ => [] end) l.

(** [D; 2D; 4D; ...], [n] delays. *)
Definition doubling (D : Z) (n : nat) : list Z :=
  map (fun i => D * 2 ^ Z.of_nat i) (seq 0 n).

(** The attempts and waits of the log, in order. *)
Definition pacing (l : list Event) : list Event :=
  filter (fun ev => match ev with Attempt | Sleep _ => true | _ => false end) l.

(** [R + 1] attempts with a wait before each but the first, the waits
    doubling from [D]. *)
Fixpoint retrySchedule (D : Z) (R : nat) : list Event :=
  match R with
  | O => [Attempt]
  | S n => Attempt :: Sleep D :: retrySchedule (D * 2) n
  end.

Section Observations.
Context {platform : Platform}.

(** An operation that records no attempt and no wait of its own, so that
    those in the log are the wrapper's. *)
Definition quiet {T} (fn : M T) : Prop :=
  forall s, pacing (log (snd (fn s))) = pacing (log s).

(** An operation that fails on every call, with an error that [classify]
    accepts. *)
Definition alwaysFails {T} (classify : JsError -> bool) (fn : M T) : Prop :=
  forall s, exists error s1, fn s = (Err error, s1) /\ classify error = true.

End Observations.

(** ** Reading the result of an analysis *)

(** A property of the returned object, as the caller destructures it. *)
Definition field (k : string) (r : Json.t) : option Json.t :=
  match r with
  | Json.JObj props => Json.lookup k props
  | _ => None
  end.

(** An object whose [tweaks] has the five keys, each an empty string. *)
Definition hasEmptyTweaks (c : Json.t) : Prop :=
  exists tw,
    field "tweaks" c = Some (Json.JObj tw)
    /\ Json.lookup "hair" tw = Some (Json.JStr EmptyString)
    /\ Json.lookup "clothing" tw = Some (Json.JStr EmptyString)
    /\ Json.lookup "appearance" tw = Some (Json.JStr EmptyString)
    /\ Json.lookup "personality" tw = Some (Json.JStr EmptyString)
    /\ Json.lookup "accessory" tw = Some (Json.JStr EmptyString).

(** ** The recognised form of an uploaded image *)

Fixpoint all_lower (s : string) : bool :=
  match s with
  | EmptyString => true
  | String c rest => is_lower c && all_lower rest
  end.

(** [url] is [data:image/<letters>;base64,<payload>] with at least one
    lower-case letter and a non-empty payload on one line; [mime] is
    [image/<letters>]. *)
Definition embeddedImage (url mime payload : string) : Prop :=
  exists letters,
    url = "data:image/" ++ letters ++ ";base64," ++ payload
    /\ mime = "image/" ++ letters
    /\ letters <> EmptyString
    /\ all_lower letters = true
    /\ payload <> EmptyString
    /\ no_line_terminator payload = true.

(** ** Requests of the scene handlers *)

(** The scene-image request with the cast, tone and style of a session. *)
Definition sessionSceneRequest (snap : Session) (scene : Scene)
  (sliders : option SceneSliders) (useStoryText : bool) : Request :=
  sceneImageRequest scene (characters snap) (p_tone (params snap))
    (AGE_STYLE_TAGS (p_ageGroup (params snap))) sliders useStoryText.

(** [{ ...scene, sliders }] *)
Definition withSliders (sliders : option SceneSliders) (s : Scene) : Scene :=
  mkScene (s_id s) (s_description s) (s_storyText s) (s_imageUrl s)
    (s_isGenerating s) sliders.

(** ** Shapes of image responses *)

(** The first candidate has a part with inline data of type [mime] and
    payload [payload], and no part before it has inline data. *)
Definition firstInlinePart (r : Response) (mime payload : string) : Prop :=
  exists c cs ct pre txt post,
    candidates r = Some (c :: cs)
    /\ content c = Some ct
    /\ content_parts ct
       = Some (pre ++ mkRPart txt (Some (mkBlob (Some mime) (Some payload)))
                 :: post)%list
    /\ Forall (fun p => rp_inlineData p = None) pre.

(** Every part of every candidate. *)
Definition allParts (r : Response) : list ResponsePart :=
  flat_map (fun c => match content c with
                     | Some ct => match content_parts ct with
                                  | Some ps => ps
                                  | None => []
                                  end
                     | None => []
                     end)
    (match candidates r with Some cs => cs | None => [] end).

Definition noInlinePart (r : Response) : Prop :=
  Forall (fun p => rp_inlineData p = None) (allParts r).

(** ** Concrete platforms and inputs *)

(** A remote model that rejects every call as overloaded. *)
Definition overloaded : JsError :=
  mkError "ApiError" "got status: 503 Service Unavailable" (Some 503).

Definition Overloaded : Platform := {|
  World := unit;
  generateContent := fun _ w => (Err overloaded, w);
  JSON_parse := Json.parse
|}.

Definition scripted (script : list (result Response)) : @Sys Scripted :=
  @mkSys Scripted script [].

(** A text response, written with ['] for the double quote. *)
Definition textResponse (body : string) : Response :=
  mkResponse (Some (Json.quoted body)) None.

(** An image response: a text part, then a PNG part with the payload. *)
Definition imageResponse (payload : string) : Response :=
  mkResponse None
    (Some [mkCandidate
             (Some (mkContent
                      (Some [mkRPart (Some "Here is the image.") None;
                             mkRPart None
                               (Some (mkBlob (Some "image/png")
                                        (Some payload)))])))]).

(** A response without any image: one candidate with a text part only. *)
Definition refusalResponse : Response :=
  mkResponse None
    (Some [mkCandidate
             (Some (mkContent (Some [mkRPart (Some "I cannot draw this.")
                                       None])))]).

Definition noTweaks : CharacterTweaks :=
  mkTweaks EmptyString EmptyString EmptyString EmptyString EmptyString.

Definition ann : Character :=
  mkCharacter "char-1" "Ann" "a curious girl" None
    (Some "data:image/jpeg;base64,QUJD") None
    (mkTweaks "red" EmptyString EmptyString "shy" EmptyString).

Definition bob : Character :=
  mkCharacter "char-2" "Bob" "a sleepy bear" None
    (Some "https://example.org/bob.png") None noTweaks.

Definition midSliders : SceneSliders := mkSliders 5 5 5 5 5.

Definition sceneA : Scene :=
  mkScene 1 "Ann opens the door" "Ann went out." None None (Some midSliders).
Definition sceneB : Scene :=
  mkScene 2 "Ann meets Bob" "She met Bob." None None (Some midSliders).
Definition sceneC : Scene :=
  mkScene 3 "They walk home" "They went home." None None (Some midSliders).

Definition book : Session :=
  mkSession Characters false None 0
    (mkParams "Ann went out. She met Bob. They went home." Age5to7 "noir"
       (FixedCount 3))
    [ann; bob] [sceneA; sceneB; sceneC] None midSliders.

(** A story analysed with an explicit count of ten pages and the tone
    "noir", to which the model answers with seven pages and "whimsical". *)
Definition sevenPages : Response :=
  textResponse
    "{'determinedTone':'whimsical','determinedCount':7,'scenes':[{'id':1,'storyText':'Ann went out.','description':'Ann opens the door'}],'characters':[{'id':'c1','name':'Ann','description':'a curious girl'},{'id':'c2','name':'Bob','description':'a sleepy bear'}]}".

Definition analysisRun : result Json.t * @Sys Scripted :=
  @analyzeStory Scripted (p_story (params book)) (FixedCount 10) "noir"
    (scripted [Ok sevenPages]).

Definition analysisResult : Json.t :=
  Eval vm_compute in
    match fst analysisRun with Ok r => r | Err _ => Json.JNull end.

Definition analysisFinal : @Sys Scripted := Eval vm_compute in snd analysisRun.

(** A model that answers in prose. *)
Definition proseResponse : Response :=
  mkResponse (Some "Sorry, I cannot help with that.") None.

(** A response without a body. *)
Definition emptyResponse : Response := mkResponse None None.

(** The batch over the book when the model draws the first scene and
    refuses the second. *)
Definition batchStart : @App Scripted :=
  (book, scripted [Ok (imageResponse "QUFB"); Ok refusalResponse;
                   Ok (imageResponse "Q0ND")]).

(** ** The other handlers and derived values of the component (App.tsx) *)

(** [keyof CharacterTweaks] *)
Inductive TweakField := Hair | Clothing | Appearance | Personality | Accessory.

Definition tweakKey (field : TweakField) : string :=
  match field with
  | Hair => "hair"
  | Clothing => "clothing"
  | Appearance => "appearance"
  | Personality => "personality"
  | Accessory => "accessory"
  end.

(** [tweaks[field]] and [{ ...tweaks, [field]: value }] *)
Definition tweakOf (field : TweakField) (t : CharacterTweaks) : string :=
  match field with
  | Hair => hair t
  | Clothing => clothing t
  | Appearance => appearance t
  | Personality => personality t
  | Accessory => accessory t
  end.

Definition setTweak (field : TweakField) (value : string) (t : CharacterTweaks)
  : CharacterTweaks :=
  match field with
  | Hair => mkTweaks value (clothing t) (appearance t) (personality t) (accessory t)
  | Clothing => mkTweaks (hair t) value (appearance t) (personality t) (accessory t)
  | Appearance => mkTweaks (hair t) (clothing t) value (personality t) (accessory t)
  | Personality => mkTweaks (hair t) (clothing t) (appearance t) value (accessory t)
  | Accessory => mkTweaks (hair t) (clothing t) (appearance t) (personality t) value
  end.

(** ['name' | 'description'] *)
Inductive BasicField := NameField | DescriptionField.

(** [{ ...c, tweaks }], [{ ...c, [field]: value }], [{ ...c, uploadUrl }] *)
Definition characterWithTweaks (t : CharacterTweaks) (c : Character) : Character :=
  mkCharacter (c_id c) (c_name c) (c_description c) (c_sheetUrl c)
    (c_uploadUrl c) (c_isGenerating c) t.

Definition characterWithBasic (field : BasicField) (value : string)
  (c : Character) : Character :=
  match field with
  | NameField =>
      mkCharacter (c_id c) value (c_description c) (c_sheetUrl c)
        (c_uploadUrl c) (c_isGenerating c) (c_tweaks c)
  | DescriptionField =>
      mkCharacter (c_id c) (c_name c) value (c_sheetUrl c)
        (c_uploadUrl c) (c_isGenerating c) (c_tweaks c)
  end.

Definition characterWithUpload (uploadUrl : option string) (c : Character)
  : Character :=
  mkCharacter (c_id c) (c_name c) (c_description c) (c_sheetUrl c)
    uploadUrl (c_isGenerating c) (c_tweaks c).

(** [{ ...s, storyText: text }] *)
Definition sceneWithStoryText (text : string) (s : Scene) : Scene :=
  mkScene (s_id s) (s_description s) text (s_imageUrl s) (s_isGenerating s)
    (s_sliders s).

(** The character [handleAddCharacter] creates; [now] is [Date.now()]. *)
Definition newCharacter (now : Z) : Character :=
  mkCharacter ("char-" ++ Js.num now) "New Character"
    "Enter a brief description of the character..." None None None
    (mkTweaks EmptyString EmptyString EmptyString EmptyString EmptyString).

(** [setCharacters([...characters, newChar])] *)
Definition handleAddCharacter (now : Z) (st : Session) : Session :=
  setCharacters (fun _ => characters st ++ [newCharacter now])%list st.

(** [setCharacters(characters.filter(c => c.id !== charId))] *)
Definition handleRemoveCharacter (charId : string) (st : Session) : Session :=
  setCharacters
    (fun _ => filter (fun c => negb (String.eqb (c_id c) charId)) (characters st))
    st.

(** [handleUploadPhoto]: without a file nothing happens; with one, the reader's
    [onload] stores the data URL [result] it produced. *)
Definition handleUploadPhoto (charId : string) (file : option string)
  (st : Session) : Session :=
  match file with
  | None => st
  | Some result =>
      setCharacters (mapCharacter charId (characterWithUpload (Some result))) st
  end.

(** The button that removes the uploaded photo. *)
Definition clearUploadedPhoto (charId : string) (st : Session) : Session :=
  setCharacters (mapCharacter charId (characterWithUpload None)) st.

Definition updateCharacterTweaks (charId : string) (field : TweakField)
  (value : string) (st : Session) : Session :=
  setCharacters
    (mapCharacter charId
       (fun c => characterWithTweaks (setTweak field value (c_tweaks c)) c))
    st.

Definition updateCharacterBasic (charId : string) (field : BasicField)
  (value : string) (st : Session) : Session :=
  setCharacters (mapCharacter charId (characterWithBasic field value)) st.

Definition updateSceneStoryText (sceneId : Z) (text : string) (st : Session)
  : Session :=
  setScenes (mapScene sceneId (sceneWithStoryText text)) st.

(** [characters.some(c => c.isGenerating)] *)
Definition isCharacterGenerating (st : Session) : bool :=
  existsb (fun c => match c_isGenerating c with Some b => b | None => false end)
    (characters st).

(** [scenes.length > 0 && scenes.every(s => !!s.imageUrl)] *)
Definition allImagesReady (st : Session) : bool :=
  Nat.ltb 0 (List.length (scenes st))
  && forallb (fun s => Js.truthy_opt (s_imageUrl s)) (scenes st).

(** [`page-${idx + 1}.jpg`] for a zero-based index. *)
Definition pageFileName (idx : nat) : string :=
  "page-" ++ Js.num (Z.of_nat idx + 1) ++ ".jpg".

(** What the browser makes of one call of [compressAndDownload]: the image may
    never load (there is no [onerror], so the promise stays pending), the
    canvas may give no 2D context or no blob (the promise resolves with
    nothing saved), or the blob is handed to a link that is clicked. *)
Inductive CanvasOutcome := NeverLoads | NoContext | NoBlob | Encoded.

(** What the export does: calls of [compressAndDownload(url, filename)], the
    clicks on a link whose [download] attribute is [filename], and waits. *)
Inductive ExportEvent :=
| CompressAndDownload (url filename : string)
| Click (filename : string)
| Pause (ms : Z).

(** One call of [compressAndDownload]: what it does, and whether its promise
    settles. *)
Definition compressAndDownload (outcome : CanvasOutcome) (url filename : string)
  : list ExportEvent * bool :=
  match outcome with
  | NeverLoads => ([CompressAndDownload url filename], false)
  | NoContext | NoBlob => ([CompressAndDownload url filename], true)
  | Encoded => ([CompressAndDownload url filename; Click filename], true)
  end.

(** The loop of [downloadAll] from index [i] on; [canvas i] is what the
    browser makes of the call at index [i]. An [await] on a promise that
    never settles ends what the handler does. *)
Fixpoint downloadAll_from (canvas : nat -> CanvasOutcome) (i : nat)
  (generatedScenes : list Scene) : list ExportEvent :=
  match generatedScenes with
  | [] => []
  | scene :: rest =>
      let '(events, settled) :=
        compressAndDownload (canvas i) (interpolate (s_imageUrl scene))
          (pageFileName i) in
      if settled
      then (events ++ Pause 400 :: downloadAll_from canvas (S i) rest)%list
      else events
  end.

Definition downloadAll (canvas : nat -> CanvasOutcome) (st : Session)
  : list ExportEvent :=
  let generatedScenes :=
    filter (fun s => Js.truthy_opt (s_imageUrl s)) (scenes st) in
  downloadAll_from canvas 0 generatedScenes.

(** The call the "Save" button of the scene at position [idx] of the list
    makes. *)
Definition saveScene (idx : nat) (scene : Scene) : ExportEvent :=
  CompressAndDownload (interpolate (s_imageUrl scene)) (pageFileName idx).

(** The text [downloadStoryScript] puts in the file: the block of the scene
    at index [idx], and the blocks of a list of scenes from [idx] on. *)
Definition pageBlock (idx : nat) (scene : Scene) : string :=
  "PAGE " ++ Js.num (Z.of_nat idx + 1) ++ Js.nl ++ "------------------"
  ++ Js.nl ++ s_storyText scene ++ Js.nl.

Fixpoint scriptBlocks (idx : nat) (l : list Scene) : list string :=
  match l with
  | [] => []
  | scene :: rest => pageBlock idx scene :: scriptBlocks (S idx) rest
  end.

Definition storyScript (st : Session) : string :=
  Js.join (Js.nl ++ Js.nl) (scriptBlocks 0 (scenes st)).

(** ** Scripts of the remote model *)

(** A remote model that answers every call with the same response. *)
Definition Constant (resp : Response) : Platform := {|
  World := unit;
  generateContent := fun _ w => (Ok resp, w);
  JSON_parse := Json.parse
|}.

(** What an image call makes of one outcome of the remote model. *)
Definition imageOutcome (o : result Response) : result string :=
  match o with
  | Ok resp => firstInlineImage (responseParts resp)
  | Err error => Err error
  end.

(** An outcome the retry wrapper does not retry. *)
Definition decisive (o : result Response) : bool :=
  match o with
  | Ok _ => true
  | Err error => negb (isRetryable error)
  end.

(** ** Relations between the scene lists before and after a handler *)

(** [!!s.imageUrl] *)
Definition hasImage (s : Scene) : bool := Js.truthy_opt (s_imageUrl s).

(** [s'] is the page [s] with at most its image and flag renewed: same id,
    description, page text and sliders, and an image if [s] had one. *)
Definition keepsPage (s s' : Scene) : Prop :=
  s_id s' = s_id s
  /\ s_description s' = s_description s
  /\ s_storyText s' = s_storyText s
  /\ s_sliders s' = s_sliders s
  /\ (hasImage s = true -> hasImage s' = true).

(** [s'] is [s] illustrated if its id is among [ids], and [s] itself
    otherwise. *)
Definition illustratedIf (ids : list Z) (s s' : Scene) : Prop :=
  (In (s_id s) ids -> hasImage s' = true /\ s_isGenerating s' = Some false)
  /\ (~ In (s_id s) ids -> s' = s).

(** ** What an export leaves on disk *)

(** The calls of [compressAndDownload] made, as (url, file name), in order. *)
Fixpoint downloadCalls (events : list ExportEvent) : list (string * string) :=
  match events with
  | [] => []
  | CompressAndDownload url filename :: rest =>
      (url, filename) :: downloadCalls rest
  | _ :: rest => downloadCalls rest
  end.

(** The names of the files saved, in the order they are saved. *)
Fixpoint downloadedFiles (events : list ExportEvent) : list string :=
  match events with
  | [] => []
  | Click filename :: rest => filename :: downloadedFiles rest
  | _ :: rest => downloadedFiles rest
  end.

(** The book with its first and third page illustrated and the second not. *)
Definition pictureA : Scene :=
  mkScene 1 "Ann opens the door" "Ann went out."
    (Some "data:image/png;base64,AAAA") (Some false) (Some midSliders).
Definition pictureC : Scene :=
  mkScene 3 "They walk home" "They went home."
    (Some "data:image/png;base64,CCCC") (Some false) (Some midSliders).
Definition halfIllustrated : Session :=
  setScenes (fun _ => [pictureA; sceneB; pictureC]) book.

(** The time spent in the given waits, in milliseconds. *)
Definition totalWait (l : list Z) : Z := fold_right Z.add 0 l.

(** ** Runs of the batch *)

(** Every call the loop of [generateAllScenes] makes over [todo] succeeds,
    when the loop starts with the outside world in state [sys]: the scenes
    that have an image are passed over, and each call finds the world as the
    call before it and the wait of 4500 ms left it. *)
Fixpoint allCallsSucceed {platform : Platform} (snap : Session)
  (todo : list Scene) (sys : Sys) : Prop :=
  match todo with
  | [] => True
  | scene :: rest =>
      if Js.truthy_opt (s_imageUrl scene) then allCallsSucceed snap rest sys
      else
        match generateSceneImage scene (characters snap) (p_tone (params snap))
                (AGE_STYLE_TAGS (p_ageGroup (params snap))) None false sys
        with
        | (Ok _, sys1) => allCallsSucceed snap rest (emit (Sleep 4500) sys1)
        | (Err _, _) => False
        end
  end.

(** * Properties *)

Section RetryFacts.
Context {platform : Platform}.
Variable classify : JsError -> bool.
Variable notice : Z -> Z -> string.

Lemma retryLoop_step {T} (fn : M T) retries delay s :
  retryLoop classify notice fn retries delay s =
  match fn (emit Attempt s) with
  | (Ok v, s1) => (Ok v, s1)
  | (Err error, s1) =>
      if (0 <? retries) && classify error
      then retryLoop classify notice fn (retries - 1) (delay * 2)
             (emit (Sleep delay) (emit (Warn (notice delay retries)) s1))
      else (Err error, s1)
  end.
Proof.
  rewrite retryLoop_equation_1. 
  destruct (fn (emit Attempt s)) as [[v | error] s1]; simpl; [reflexivity |].
  destruct ((0 <? retries) && classify error); reflexivity.
Qed.

Lemma attempts_app l1 l2 : attempts (l1 ++ l2) = (attempts l1 + attempts l2)%nat.
Proof. unfold attempts. rewrite filter_app, length_app. reflexivity. Qed.

Lemma waits_app l1 l2 : waits (l1 ++ l2) = (waits l1 ++ waits l2)%list.
Proof. unfold waits. apply flat_map_app. Qed.

Lemma requests_app l1 l2 : requests (l1 ++ l2) = (requests l1 ++ requests l2)%list.
Proof. unfold requests. apply flat_map_app. Qed.

Lemma pacing_app l1 l2 : pacing (l1 ++ l2) = (pacing l1 ++ pacing l2)%list.
Proof. unfold pacing. apply filter_app. Qed.

Lemma attempts_pacing l : attempts (pacing l) = attempts l.
Proof.
  unfold attempts, pacing. induction l as [| ev l IH]; [reflexivity |].
  destruct ev; simpl; rewrite ?IH; reflexivity.
Qed.

Lemma waits_pacing l : waits (pacing l) = waits l.
Proof.
  unfold waits, pacing. induction l as [| ev l IH]; [reflexivity |].
  destruct ev; simpl; rewrite ?IH; reflexivity.
Qed.

Lemma doubling_S D n : doubling D (S n) = D :: doubling (D * 2) n.
Proof.
  unfold doubling. simpl. f_equal; [lia |].
  rewrite <- seq_shift, map_map. apply map_ext. intros i.
  rewrite Nat2Z.inj_succ, Z.pow_succ_r by lia. lia.
Qed.

Lemma attempts_retrySchedule D R : attempts (retrySchedule D R) = S R.
Proof.
  revert D. induction R as [| n IH]; intros D; [reflexivity |].
  cbn [retrySchedule]. unfold attempts in *. simpl. rewrite IH. reflexivity.
Qed.

Lemma waits_retrySchedule D R : waits (retrySchedule D R) = doubling D R.
Proof.
  revert D. induction R as [| n IH]; intros D; [reflexivity |].
  rewrite doubling_S. cbn [retrySchedule]. unfold waits in *. simpl.
  rewrite IH. reflexivity.
Qed.

(** With an operation that always fails retryably, the loop runs [R + 1]
    attempts separated by the doubling waits and ends with the error of the
    last attempt. *)
Lemma retryLoop_exhausts {T} (fn : M T) :
  quiet fn -> alwaysFails classify fn ->
  forall (R : nat) D s, exists error s_last s',
    retryLoop classify notice fn (Z.of_nat R) D s = (Err error, s')
    /\ fn s_last = (Err error, s')
    /\ classify error = true
    /\ pacing (log s') = (pacing (log s) ++ retrySchedule D R)%list.
Proof.
  intros Hq Hf R. induction R as [| n IH]; intros D s;
    destruct (Hf (emit Attempt s)) as (error & s1 & Hfn & Hc);
    pose proof (Hq (emit Attempt s)) as Hp; rewrite Hfn in Hp;
    cbn [snd emit log] in Hp; rewrite pacing_app in Hp;
    change (pacing [Attempt]) with [Attempt] in Hp.
  - exists error, (emit Attempt s), s1.
    rewrite retryLoop_step, Hfn. cbn [Z.of_nat Z.ltb Z.compare andb].
    repeat split; assumption.
  - destruct (IH (D * 2)
                (emit (Sleep D)
                   (emit (Warn (notice D (Z.of_nat (S n)))) s1)))
      as (e' & s_last & s' & Hrun & Hlast & Hc' & Hp').
    exists e', s_last, s'.
    rewrite retryLoop_step, Hfn, Hc.
    replace (0 <? Z.of_nat (S n)) with true by (symmetry; apply Z.ltb_lt; lia).
    cbn [andb].
    replace (Z.of_nat (S n) - 1) with (Z.of_nat n) by lia.
    cbn [emit log] in Hp'. rewrite !pacing_app in Hp'.
    change (pacing [Sleep D]) with [Sleep D] in Hp'.
    change (pacing [Warn (notice D (Z.of_nat (S n)))]) with (@nil Event) in Hp'.
    rewrite app_nil_r in Hp'.
    repeat split; try assumption.
    rewrite Hp', Hp. cbn [retrySchedule]. rewrite <- !app_assoc. reflexivity.
Qed.

(** A first failure that [classify] rejects ends the loop at once. *)
Lemma retryLoop_terminal {T} (fn : M T) retries delay s error s1 :
  fn (emit Attempt s) = (Err error, s1) ->
  classify error = false ->
  retryLoop classify notice fn retries delay s = (Err error, s1).
Proof.
  intros Hfn Hc. rewrite retryLoop_step, Hfn, Hc, andb_false_r. reflexivity.
Qed.

(** A first success ends the loop at once. *)
Lemma retryLoop_first_ok {T} (fn : M T) retries delay s v s1 :
  fn (emit Attempt s) = (Ok v, s1) ->
  retryLoop classify notice fn retries delay s = (Ok v, s1).
Proof. intros Hfn. rewrite retryLoop_step, Hfn. reflexivity. Qed.

(** Whatever the loop returns was returned by one of its attempts. *)
Lemma retryLoop_outcome {T} (fn : M T) retries delay s out s' :
  retryLoop classify notice fn retries delay s = (out, s') ->
  exists s0, fn (emit Attempt s0) = (out, s').
Proof.
  remember (Z.to_nat retries) as n eqn:Hn.
  revert retries delay s Hn.
  induction n as [| n IH]; intros retries delay s Hn;
    rewrite retryLoop_step;
    destruct (fn (emit Attempt s)) as [[v | error] s1] eqn:Hfn;
    try (intros [= <- <-]; exists s; assumption).
  - replace (0 <? retries) with false by (symmetry; apply Z.ltb_ge; lia).
    simpl. intros [= <- <-]. exists s. assumption.
  - destruct ((0 <? retries) && classify error) eqn:Hc.
    + apply IH. lia.
    + intros [= <- <-]. exists s. assumption.
Qed.

End RetryFacts.

Section ServiceFacts.
Context {platform : Platform}.

Lemma quiet_callRemote r : quiet (callRemote r).
Proof.
  intros s. unfold callRemote.
  destruct (generateContent r (world s)) as [res w]. cbn [snd log].
  rewrite pacing_app. change (pacing [Sent r]) with (@nil Event).
  apply app_nil_r.
Qed.

Lemma quiet_lift {A} (r : result A) : quiet (lift r).
Proof. intros s. reflexivity. Qed.

Lemma quiet_ret {A} (a : A) : quiet (ret a).
Proof. intros s. reflexivity. Qed.

Lemma quiet_bind {A B} (m : M A) (k : A -> M B) :
  quiet m -> (forall a, quiet (k a)) -> quiet (bind m k).
Proof.
  intros Hm Hk s. unfold bind. specialize (Hm s).
  destruct (m s) as [[a | e] s1]; cbn [snd] in *; [| exact Hm].
  rewrite (Hk a s1). exact Hm.
Qed.

Lemma quiet_analyzeStory_attempt story sceneCount tone :
  quiet (analyzeStory_attempt story sceneCount tone).
Proof.
  unfold analyzeStory_attempt.
  repeat (apply quiet_bind; [| intros ?]);
    auto using quiet_callRemote, quiet_lift, quiet_ret.
Qed.

Lemma quiet_generateCharacterSheet_attempt character tone styleTags :
  quiet (generateCharacterSheet_attempt character tone styleTags).
Proof.
  unfold generateCharacterSheet_attempt.
  apply quiet_bind; [apply quiet_callRemote | intros ?; apply quiet_lift].
Qed.

Lemma quiet_generateSceneImage_attempt scene cs tone styleTags sliders ust :
  quiet (generateSceneImage_attempt scene cs tone styleTags sliders ust).
Proof.
  unfold generateSceneImage_attempt.
  apply quiet_bind; [apply quiet_callRemote | intros ?; apply quiet_lift].
Qed.

Lemma firstInlineImage_found pre txt blob post :
  Forall (fun p => rp_inlineData p = None) pre ->
  firstInlineImage (pre ++ mkRPart txt (Some blob) :: post)
  = Ok ("data:image/png;base64," ++ interpolate (b_data blob)).
Proof.
  induction 1 as [| p pre Hp _ IH]; simpl; [reflexivity |].
  rewrite Hp. exact IH.
Qed.

Lemma firstInlineImage_none ps :
  Forall (fun p => rp_inlineData p = None) ps ->
  firstInlineImage ps = Err (Error "No image data returned from API").
Proof.
  induction 1 as [| p ps Hp _ IH]; simpl; [reflexivity |].
  rewrite Hp. exact IH.
Qed.

Lemma responseParts_allParts r p : In p (responseParts r) -> In p (allParts r).
Proof.
  unfold responseParts, allParts.
  destruct (candidates r) as [[| c cs] |]; simpl; try contradiction.
  intros Hin. apply in_or_app. left. exact Hin.
Qed.

Lemma responseParts_first r mime payload :
  firstInlinePart r mime payload ->
  firstInlineImage (responseParts r) = Ok ("data:image/png;base64," ++ payload).
Proof.
  intros (c & cs & ct & pre & txt & post & Hc & Hct & Hps & Hpre).
  unfold responseParts. rewrite Hc, Hct, Hps.
  apply (firstInlineImage_found pre txt (mkBlob (Some mime) (Some payload))).
  exact Hpre.
Qed.

Lemma responseParts_none r :
  noInlinePart r ->
  firstInlineImage (responseParts r)
  = Err (Error "No image data returned from API").
Proof.
  intros Hno. apply firstInlineImage_none. apply Forall_forall.
  intros p Hin. unfold noInlinePart in Hno. rewrite Forall_forall in Hno.
  apply Hno, responseParts_allParts, Hin.
Qed.

(** One attempt of an image call, from the remote model's answer. *)
Lemma image_attempt req s resp w :
  generateContent req (world s) = (Ok resp, w) ->
  bind (callRemote req) (fun response => lift (firstInlineImage (responseParts response))) s
  = (firstInlineImage (responseParts resp), mkSys w (log s ++ [Sent req])).
Proof.
  intros Hgen. unfold bind, callRemote. rewrite Hgen.
  unfold lift. destruct (firstInlineImage (responseParts resp)); reflexivity.
Qed.

Lemma noImageData_terminal :
  isRetryable (Error "No image data returned from API") = false.
Proof. reflexivity. Qed.

End ServiceFacts.

(** ** The retry wrapper *)

(** C2: for every retry count [R] and base delay [D], an operation that fails
    on every attempt with a retryable error is attempted exactly [R + 1]
    times by [callWithRetry], with one wait between consecutive attempts, the
    waits being exactly [D, 2D, 4D, ..., 2^(R-1) D], and the call ends with
    the error of the last attempt. *)
Theorem callWithRetry_exhausts_retries {platform : Platform} {T}
  (fn : M T) (R : nat) (D : Z) (s : Sys) :
  quiet fn -> alwaysFails isRetryable fn ->
  exists error s_last s',
    callWithRetry fn (Z.of_nat R) D s = (Err error, s')
    /\ fn s_last = (Err error, s')
    /\ isRetryable error = true
    /\ pacing (log s') = (pacing (log s) ++ retrySchedule D R)%list
    /\ attempts (log s') = (attempts (log s) + R + 1)%nat
    /\ waits (log s')
       = (waits (log s) ++ map (fun i => D * 2 ^ Z.of_nat i) (seq 0 R))%list.
Proof.
  intros Hq Hf.
  destruct (retryLoop_exhausts isRetryable retryNotice fn Hq Hf R D s)
    as (error & s_last & s' & Hrun & Hlast & Hc & Hp).
  exists error, s_last, s'. unfold callWithRetry.
  repeat split; try assumption.
  - rewrite <- (attempts_pacing (log s')), Hp, attempts_app, attempts_pacing,
      attempts_retrySchedule. lia.
  - rewrite <- (waits_pacing (log s')), Hp, waits_app, waits_pacing,
      waits_retrySchedule. reflexivity.
Qed.

(** The first revision of the wrapper behaves the same way under its own
    classification. *)
Lemma callWithRetry_v1_exhausts_retries {platform : Platform} {T}
  (fn : M T) (R : nat) (D : Z) (s : Sys) :
  quiet fn -> alwaysFails isRetryable_v1 fn ->
  exists error s_last s',
    callWithRetry_v1 fn (Z.of_nat R) D s = (Err error, s')
    /\ fn s_last = (Err error, s')
    /\ pacing (log s') = (pacing (log s) ++ retrySchedule D R)%list.
Proof.
  intros Hq Hf.
  destruct (retryLoop_exhausts isRetryable_v1 retryNotice_v1 fn Hq Hf R D s)
    as (error & s_last & s' & Hrun & Hlast & Hc & Hp).
  exists error, s_last, s'. unfold callWithRetry_v1.
  repeat split; assumption.
Qed.

(** Without retries left ([retries <= 0]) even a retryable failure is final. *)
Lemma callWithRetry_no_retries_left {platform : Platform} {T}
  (fn : M T) retries delay s :
  retries <= 0 -> callWithRetry fn retries delay s = fn (emit Attempt s).
Proof.
  intros Hle. unfold callWithRetry. rewrite retryLoop_step.
  destruct (fn (emit Attempt s)) as [[v | error] s1]; [reflexivity |].
  replace (0 <? retries) with false by (symmetry; apply Z.ltb_ge; lia).
  reflexivity.
Qed.

(** C6: an operation that fails with a non-retryable error is attempted
    exactly once by [callWithRetry], whatever the retry count and delay: the
    call is that one attempt and nothing more, and it ends with the very
    error the operation raised. *)
Theorem callWithRetry_terminal_once {platform : Platform} {T}
  (fn : M T) (retries delay : Z) (s : Sys) (error : JsError) (s1 : Sys) :
  fn (emit Attempt s) = (Err error, s1) ->
  isRetryable error = false ->
  callWithRetry fn retries delay s = (Err error, s1)
  /\ callWithRetry fn retries delay s = fn (emit Attempt s)
  /\ (quiet fn ->
      pacing (log s1) = (pacing (log s) ++ [Attempt])%list
      /\ attempts (log s1) = (attempts (log s) + 1)%nat
      /\ waits (log s1) = waits (log s)).
Proof.
  intros Hfn Hc.
  assert (Hrun : callWithRetry fn retries delay s = (Err error, s1))
    by (apply retryLoop_terminal; assumption).
  split; [exact Hrun |]. split; [congruence |].
  intros Hq. pose proof (Hq (emit Attempt s)) as Hp.
  rewrite Hfn in Hp. cbn [snd emit log] in Hp. rewrite pacing_app in Hp.
  change (pacing [Attempt]) with [Attempt] in Hp.
  split; [exact Hp |]. split.
  - rewrite <- (attempts_pacing (log s1)), Hp, attempts_app, attempts_pacing.
    reflexivity.
  - rewrite <- (waits_pacing (log s1)), Hp, waits_app, waits_pacing.
    apply app_nil_r.
Qed.

(** ** Image results *)

(** C5: when the remote model answers a character-sheet or scene-image
    request with a response whose first inline part (in the first candidate)
    is a PNG with base64 payload [P], the call returns exactly
    ["data:image/png;base64," ++ P]; when it answers with a response that has
    no inline part, the call fails with the error "No image data returned
    from API", which is terminal: one attempt, no retry. *)
Theorem image_result_contract {platform : Platform}
  (character : Character) (scene : Scene) (cast : list Character)
  (tone styleTags : string) (sliders : option SceneSliders)
  (useStoryText : bool) (resp : Response) (s : Sys) (w : World) :
  let sheetReq := characterSheetRequest character tone styleTags in
  let sceneReq :=
    sceneImageRequest scene cast tone styleTags sliders useStoryText in
  (forall P, firstInlinePart resp "image/png" P ->
     (generateContent sheetReq (world s) = (Ok resp, w) ->
      generateCharacterSheet character tone styleTags s
      = (Ok ("data:image/png;base64," ++ P),
         mkSys w (log s ++ [Attempt; Sent sheetReq])))
     /\ (generateContent sceneReq (world s) = (Ok resp, w) ->
         generateSceneImage scene cast tone styleTags sliders useStoryText s
         = (Ok ("data:image/png;base64," ++ P),
            mkSys w (log s ++ [Attempt; Sent sceneReq]))))
  /\ (noInlinePart resp ->
      isRetryable (Error "No image data returned from API") = false
      /\ (generateContent sheetReq (world s) = (Ok resp, w) ->
          generateCharacterSheet character tone styleTags s
          = (Err (Error "No image data returned from API"),
             mkSys w (log s ++ [Attempt; Sent sheetReq])))
      /\ (generateContent sceneReq (world s) = (Ok resp, w) ->
          generateSceneImage scene cast tone styleTags sliders useStoryText s
          = (Err (Error "No image data returned from API"),
             mkSys w (log s ++ [Attempt; Sent sceneReq])))).
Proof.
  intros sheetReq sceneReq. split.
  - intros P HP. split; intros Hgen.
    + unfold generateCharacterSheet, callWithRetry.
      apply retryLoop_first_ok. unfold generateCharacterSheet_attempt.
      fold sheetReq. rewrite (image_attempt sheetReq _ resp w) by exact Hgen.
      rewrite (responseParts_first _ _ _ HP). cbn [emit log].
      rewrite <- app_assoc. reflexivity.
    + unfold generateSceneImage, callWithRetry.
      apply retryLoop_first_ok. unfold generateSceneImage_attempt.
      fold sceneReq. rewrite (image_attempt sceneReq _ resp w) by exact Hgen.
      rewrite (responseParts_first _ _ _ HP). cbn [emit log].
      rewrite <- app_assoc. reflexivity.
  - intros Hno. split; [reflexivity |]. split; intros Hgen.
    + unfold generateCharacterSheet, callWithRetry.
      apply retryLoop_terminal; [| reflexivity].
      unfold generateCharacterSheet_attempt.
      fold sheetReq. rewrite (image_attempt sheetReq _ resp w) by exact Hgen.
      rewrite (responseParts_none _ Hno). cbn [emit log].
      rewrite <- app_assoc. reflexivity.
    + unfold generateSceneImage, callWithRetry.
      apply retryLoop_terminal; [| reflexivity].
      unfold generateSceneImage_attempt.
      fold sceneReq. rewrite (image_attempt sceneReq _ resp w) by exact Hgen.
      rewrite (responseParts_none _ Hno). cbn [emit log].
      rewrite <- app_assoc. reflexivity.
Qed.

Section AnalysisFacts.
Context {platform : Platform}.

Lemma lookup_set_same k v o : Json.lookup k (Json.set k v o) = Some v.
Proof.
  induction o as [| [k' v'] o IH]; simpl.
  - rewrite String.eqb_refl. reflexivity.
  - destruct (String.eqb k k') eqn:E; simpl; rewrite ?E, ?String.eqb_refl;
      [reflexivity | exact IH].
Qed.

Lemma lookup_set_other k k' v o :
  k <> k' -> Json.lookup k (Json.set k' v o) = Json.lookup k o.
Proof.
  intros Hne. induction o as [| [k2 v2] o IH]; simpl.
  - apply String.eqb_neq in Hne. rewrite Hne. reflexivity.
  - destruct (String.eqb k' k2) eqn:E; simpl.
    + apply String.eqb_eq in E. subst k2.
      apply String.eqb_neq in Hne. rewrite Hne. reflexivity.
    + destruct (String.eqb k k2); [reflexivity | exact IH].
Qed.

Lemma withEmptyTweaks_spec c : hasEmptyTweaks (withEmptyTweaks c).
Proof.
  unfold hasEmptyTweaks, withEmptyTweaks, field.
  eexists. rewrite lookup_set_same. unfold emptyTweaks.
  split; [reflexivity |]. repeat split; reflexivity.
Qed.

(** What one successful attempt of the analysis returns: the parsed response
    with its [characters] replaced. *)
Lemma analyzeStory_attempt_ok story sceneCount tone s r s' :
  analyzeStory_attempt story sceneCount tone s = (Ok r, s') ->
  exists resp parsed chars items,
    generateContent
      (TextRequest DEFAULT_MODELS_text (analysisPrompt story sceneCount tone))
      (world s) = (Ok resp, world s')
    /\ JSON_parse (textOrEmptyObject resp) = Ok parsed
    /\ Json.get parsed "characters" = Ok chars
    /\ orEmptyArray chars = Json.JArr items
    /\ r = Json.JObj
             (Json.set "characters" (Json.JArr (map withEmptyTweaks items))
                (Json.spread parsed)).
Proof.
  unfold analyzeStory_attempt, bind, callRemote, lift, ret.
  destruct (generateContent _ (world s)) as [[resp | e] w] eqn:Hgen;
    [| discriminate].
  destruct (JSON_parse (textOrEmptyObject resp)) as [parsed | e] eqn:Hparse;
    [| discriminate].
  destruct (Json.get parsed "characters") as [chars | e] eqn:Hget;
    [| discriminate].
  destruct (orEmptyArray chars) as [| | | | items |] eqn:Harr;
    simpl; try discriminate.
  intros [= <- <-]. exists resp, parsed, chars, items.
  repeat split; try assumption; reflexivity.
Qed.

(** A successful analysis is a successful attempt. *)
Lemma analyzeStory_ok story sceneCount tone s r s' :
  analyzeStory story sceneCount tone s = (Ok r, s') ->
  exists s0, analyzeStory_attempt story sceneCount tone (emit Attempt s0)
             = (Ok r, s').
Proof. apply retryLoop_outcome. Qed.

End AnalysisFacts.

(** ** Story analysis *)

(** C8: whatever the model's response, every character in the result of
    [analyzeStory] is an object carrying a [tweaks] record in which all five
    keys (hair, clothing, appearance, personality, accessory) are present and
    bound to the empty string. *)
Theorem analyzeStory_characters_tweaks {platform : Platform}
  (story : string) (sceneCount : SceneCount) (tone : string)
  (s : Sys) (r : Json.t) (s' : Sys) :
  analyzeStory story sceneCount tone s = (Ok r, s') ->
  exists cs, field "characters" r = Some (Json.JArr cs)
             /\ Forall hasEmptyTweaks cs.
Proof.
  intros Hrun. apply analyzeStory_ok in Hrun as [s0 Hatt].
  apply analyzeStory_attempt_ok in Hatt
    as (resp & parsed & chars & items & _ & _ & _ & _ & ->).
  exists (map withEmptyTweaks items). unfold field.
  rewrite lookup_set_same. split; [reflexivity |].
  apply Forall_forall. intros c Hin. apply in_map_iff in Hin as (c0 & <- & _).
  apply withEmptyTweaks_spec.
Qed.

(** C4, as amended: the [determinedCount] and [determinedTone] returned by
    [analyzeStory] are those of the parsed model response, whatever
    [sceneCount] and [tone] were passed; they equal an explicit [N] and [T]
    when the model's response carries [N] and [T]. *)
Theorem analyzeStory_returns_model_choice {platform : Platform}
  (story : string) (sceneCount : SceneCount) (tone : string)
  (s : Sys) (r : Json.t) (s' : Sys) :
  analyzeStory story sceneCount tone s = (Ok r, s') ->
  exists s0 resp parsed,
    generateContent
      (TextRequest DEFAULT_MODELS_text (analysisPrompt story sceneCount tone))
      (world s0) = (Ok resp, world s')
    /\ JSON_parse (textOrEmptyObject resp) = Ok parsed
    /\ field "determinedCount" r
       = Json.lookup "determinedCount" (Json.spread parsed)
    /\ field "determinedTone" r
       = Json.lookup "determinedTone" (Json.spread parsed)
    /\ (forall N,
          sceneCount = FixedCount N ->
          Json.lookup "determinedCount" (Json.spread parsed)
          = Some (Json.JNum N 0) ->
          Json.lookup "determinedTone" (Json.spread parsed)
          = Some (Json.JStr tone) ->
          field "determinedCount" r = Some (Json.JNum N 0)
          /\ field "determinedTone" r = Some (Json.JStr tone)).
Proof.
  intros Hrun. apply analyzeStory_ok in Hrun as [s0 Hatt].
  apply analyzeStory_attempt_ok in Hatt
    as (resp & parsed & chars & items & Hgen & Hparse & _ & _ & ->).
  exists (emit Attempt s0), resp, parsed. unfold field.
  rewrite !lookup_set_other by discriminate.
  repeat split; try assumption; try reflexivity.
Qed.

(** C3, as amended: a response whose body is missing or empty is analysed
    as the text of an empty object, and the result has an empty character
    list and no scene list; a non-empty body that fails to parse makes the
    attempt fail with the parse error, and the call with it unless the
    wrapper takes that error for a retryable one. *)
Theorem analyzeStory_body_handling {platform : Platform}
  (story : string) (sceneCount : SceneCount) (tone : string)
  (s : Sys) (resp : Response) (w : World) :
  let req :=
    TextRequest DEFAULT_MODELS_text (analysisPrompt story sceneCount tone) in
  let s1 := mkSys w (log s ++ [Attempt; Sent req]) in
  generateContent req (world s) = (Ok resp, w) ->
  (Js.truthy_opt (text resp) = false ->
   JSON_parse "{}" = Ok (Json.JObj []) ->
   exists r, analyzeStory story sceneCount tone s = (Ok r, s1)
             /\ field "characters" r = Some (Json.JArr [])
             /\ field "scenes" r = None)
  /\ (forall body error,
        text resp = Some body -> Js.truthy body = true ->
        JSON_parse body = Err error ->
        analyzeStory_attempt story sceneCount tone (emit Attempt s)
        = (Err error, s1)
        /\ (isRetryable error = false ->
            analyzeStory story sceneCount tone s = (Err error, s1))).
Proof.
  intros req s1 Hgen.
  assert (Hlog : forall (l : list Event), ((l ++ [Attempt]) ++ [Sent req] = l ++ [Attempt; Sent req])%list)
    by (intros l; rewrite <- app_assoc; reflexivity).
  split.
  - intros Hempty Hparse.
    exists (Json.JObj [("characters", Json.JArr [])]).
    split; [| split; reflexivity].
    unfold analyzeStory, callWithRetry. apply retryLoop_first_ok.
    unfold analyzeStory_attempt, bind, callRemote, lift, ret.
    fold req. cbn [emit world log]. rewrite Hgen.
    assert (Htext : textOrEmptyObject resp = "{}").
    { unfold textOrEmptyObject. destruct (text resp) as [t |]; [| reflexivity].
      unfold Js.or_else. simpl in Hempty. rewrite Hempty. reflexivity. }
    rewrite Htext, Hparse. cbn. unfold s1. rewrite Hlog. reflexivity.
  - intros body error Hbody Htruthy Hparse.
    assert (Hatt : analyzeStory_attempt story sceneCount tone (emit Attempt s)
                   = (Err error, s1)).
    { unfold analyzeStory_attempt, bind, callRemote, lift.
      fold req. cbn [emit world log]. rewrite Hgen.
      unfold textOrEmptyObject. rewrite Hbody. unfold Js.or_else.
      rewrite Htruthy, Hparse. unfold s1. rewrite Hlog. reflexivity. }
    split; [exact Hatt |].
    intros Hterm. unfold analyzeStory, callWithRetry.
    apply retryLoop_terminal; assumption.
Qed.

(** ** Character sheets and the uploaded reference image *)

Lemma strip_prefix_app p r : strip_prefix p (p ++ r) = Some r.
Proof.
  induction p as [| a p IH]; simpl; [destruct r; reflexivity |].
  rewrite Ascii.eqb_refl. exact IH.
Qed.

Lemma strip_prefix_inv p s r : strip_prefix p s = Some r -> s = p ++ r.
Proof.
  revert s. induction p as [| a p IH]; intros s; simpl.
  - destruct s; intros [= <-]; reflexivity.
  - destruct s as [| b s]; [discriminate |].
    destruct (Ascii.eqb a b) eqn:E; [| discriminate].
    apply Ascii.eqb_eq in E. subst b. intros H. f_equal. apply IH, H.
Qed.

Lemma take_lower_inv s ls r :
  take_lower s = (ls, r) -> s = ls ++ r /\ all_lower ls = true.
Proof.
  revert ls r. induction s as [| c s IH]; intros ls r; simpl.
  - intros [= <- <-]. split; reflexivity.
  - destruct (is_lower c) eqn:E.
    + destruct (take_lower s) as [ls' r'] eqn:Ht. intros [= <- <-].
      destruct (IH ls' r' eq_refl) as [-> Hl]. simpl. rewrite E, Hl.
      split; reflexivity.
    + intros [= <- <-]. split; reflexivity.
Qed.

Lemma take_lower_app ls c r :
  all_lower ls = true -> is_lower c = false ->
  take_lower (ls ++ String c r) = (ls, String c r).
Proof.
  intros Hl Hc. induction ls as [| a ls IH]; simpl.
  - rewrite Hc. reflexivity.
  - simpl in Hl. apply andb_prop in Hl as [Ha Hl].
    rewrite Ha, (IH Hl). reflexivity.
Qed.

Lemma truthy_nonempty s : Js.truthy s = true <-> s <> EmptyString.
Proof. destruct s; simpl; split; congruence. Qed.

(** The matcher accepts exactly the recognised form. *)
Lemma matchDataUrl_iff url mime payload :
  matchDataUrl url = Some (mime, payload) <-> embeddedImage url mime payload.
Proof.
  unfold matchDataUrl, embeddedImage. split.
  - destruct (strip_prefix "data:image/" url) as [r |] eqn:Hp; [| discriminate].
    apply strip_prefix_inv in Hp.
    destruct (take_lower r) as [letters r1] eqn:Ht.
    apply take_lower_inv in Ht as [-> Hl].
    destruct (Js.truthy letters) eqn:Hne; [| discriminate].
    destruct (strip_prefix ";base64," r1) as [pl |] eqn:Hb; [| discriminate].
    apply strip_prefix_inv in Hb.
    destruct (Js.truthy pl && no_line_terminator pl) eqn:Hok; [| discriminate].
    apply andb_prop in Hok as [Hpl Hnl].
    intros [= <- <-]. exists letters. subst.
    repeat split; try assumption; apply truthy_nonempty; assumption.
  - intros (letters & -> & -> & Hne & Hl & Hpl & Hnl).
    rewrite strip_prefix_app.
    change (";base64," ++ payload) with (String ";" ("base64," ++ payload)).
    rewrite (take_lower_app letters ";" _ Hl eq_refl).
    apply truthy_nonempty in Hne. rewrite Hne.
    change (String ";" ("base64," ++ payload)) with (";base64," ++ payload).
    rewrite strip_prefix_app.
    apply truthy_nonempty in Hpl. rewrite Hpl, Hnl. reflexivity.
Qed.

(** ** Scene requests: the batch and the single-scene paths *)

Section SceneRequests.
Context {platform : Platform}.

Lemma requests_emit ev s :
  requests (log (emit ev s))
  = (requests (log s) ++ match ev with Sent r => [r] | _ => [] end)%list.
Proof. unfold emit. cbn [log]. rewrite requests_app. destruct ev; reflexivity. Qed.

(** An operation that sends [req] once per call makes the retry loop send
    [req] at least once, and nothing else. *)
Lemma retryLoop_requests classify notice {T} (fn : M T) req :
  (forall s, requests (log (snd (fn s))) = (requests (log s) ++ [req])%list) ->
  forall retries delay s,
  exists k,
    requests (log (snd (retryLoop classify notice fn retries delay s)))
    = (requests (log s) ++ repeat req (S k))%list.
Proof.
  intros Hfn retries.
  remember (Z.to_nat retries) as n eqn:Hn. revert retries Hn.
  induction n as [| n IH]; intros retries Hn delay s;
    rewrite retryLoop_step;
    pose proof (Hfn (emit Attempt s)) as H1;
    rewrite requests_emit, app_nil_r in H1;
    destruct (fn (emit Attempt s)) as [[v | error] s1]; cbn [snd] in *;
    try (exists 0%nat; exact H1).
  - replace (0 <? retries) with false by (symmetry; apply Z.ltb_ge; lia).
    exists 0%nat. exact H1.
  - destruct ((0 <? retries) && classify error) eqn:Hc;
      [| exists 0%nat; exact H1].
    apply andb_prop in Hc as [Hpos _]. apply Z.ltb_lt in Hpos.
    destruct (IH (retries - 1) ltac:(lia) (delay * 2)
                (emit (Sleep delay) (emit (Warn (notice delay retries)) s1)))
      as [k Hk].
    exists (S k). rewrite Hk, !requests_emit, !app_nil_r, H1, <- app_assoc.
    reflexivity.
Qed.

Lemma generateSceneImage_requests scene cast tone styleTags sliders ust s :
  exists k,
    requests (log (snd (generateSceneImage scene cast tone styleTags sliders
                          ust s)))
    = (requests (log s)
       ++ repeat (sceneImageRequest scene cast tone styleTags sliders ust)
            (S k))%list.
Proof.
  unfold generateSceneImage, callWithRetry. apply retryLoop_requests.
  intros s0. unfold generateSceneImage_attempt, bind, callRemote, lift.
  destruct (generateContent _ (world s0)) as [[resp | e] w]; cbn [snd log].
  - destruct (firstInlineImage (responseParts resp)); cbn [snd log];
      rewrite requests_app; reflexivity.
  - rewrite requests_app. reflexivity.
Qed.

(** Every request of the batch loop is the request of one of its scenes,
    built without sliders and from the description. *)
Lemma generateAllScenes_loop_requests snap todo a :
  exists sent,
    requests (log (snd (snd (generateAllScenes_loop snap todo a))))
    = (requests (log (snd a)) ++ sent)%list
    /\ Forall (fun r => exists scene,
                  In scene todo /\ r = sessionSceneRequest snap scene None false)
         sent.
Proof.
  revert a. induction todo as [| scene rest IH]; intros a; cbn [generateAllScenes_loop].
  - exists []. rewrite app_nil_r. split; [reflexivity | constructor].
  - destruct (Js.truthy_opt (s_imageUrl scene)).
    + destruct (IH a) as (sent & Hlog & Hall). exists sent.
      split; [exact Hlog |].
      eapply Forall_impl; [| exact Hall].
      intros r (sc & Hin & ->). exists sc. split; [right; exact Hin | reflexivity].
    + set (a1 := upd (setScenes (mapScene (s_id scene) (sceneGenerating true))) a).
      destruct (generateSceneImage_requests scene (characters snap)
                  (p_tone (params snap))
                  (AGE_STYLE_TAGS (p_ageGroup (params snap))) None false
                  (snd a1)) as [k Hk].
      fold (sessionSceneRequest snap scene None false) in Hk.
      assert (Hrep : Forall (fun r => exists sc,
                                In sc (scene :: rest)
                                /\ r = sessionSceneRequest snap sc None false)
                       (repeat (sessionSceneRequest snap scene None false) (S k))).
      { apply Forall_forall. intros r Hr. apply repeat_spec in Hr.
        exists scene. split; [left; reflexivity | exact Hr]. }
      destruct (generateSceneImage scene (characters snap) (p_tone (params snap))
                  (AGE_STYLE_TAGS (p_ageGroup (params snap))) None false
                  (snd a1)) as [[imageUrl | error] sys1]; cbn [snd] in Hk.
      * match goal with
        | |- context [generateAllScenes_loop snap rest ?x] =>
            destruct (IH x) as (sent & Hlog & Hall)
        end.
        exists (repeat (sessionSceneRequest snap scene None false) (S k) ++ sent)%list.
        split.
        -- rewrite Hlog. cbn [snd fst upd]. rewrite requests_emit, app_nil_r, Hk.
           rewrite <- app_assoc. reflexivity.
        -- apply Forall_app. split; [exact Hrep |].
           eapply Forall_impl; [| exact Hall].
           intros r (sc & Hin & ->). exists sc.
           split; [right; exact Hin | reflexivity].
      * exists (repeat (sessionSceneRequest snap scene None false) (S k)).
        cbn [snd]. split; [exact Hk | exact Hrep].
Qed.

End SceneRequests.

Lemma append_assoc (a b c : string) : ((a ++ b) ++ c = a ++ (b ++ c))%string.
Proof. induction a as [| x a IH]; simpl; [reflexivity | rewrite IH; reflexivity]. Qed.

Lemma sceneGeneration_settle_requests {platform : Platform} sceneId outcome a :
  requests (log (snd (sceneGeneration_settle sceneId outcome a)))
  = requests (log (snd a)).
Proof.
  unfold sceneGeneration_settle, handleError, upd.
  destruct outcome; cbn [snd fst]; [reflexivity |].
  rewrite requests_emit, app_nil_r. reflexivity.
Qed.

(** ** The reference image of a character sheet *)

(** [generateCharacterSheet] sends its request at least once, and nothing
    else. *)
Lemma generateCharacterSheet_requests {platform : Platform}
  character tone styleTags s :
  exists k,
    requests (log (snd (generateCharacterSheet character tone styleTags s)))
    = (requests (log s)
       ++ repeat (characterSheetRequest character tone styleTags) (S k))%list.
Proof.
  unfold generateCharacterSheet, callWithRetry. apply retryLoop_requests.
  intros s0. unfold generateCharacterSheet_attempt, bind, callRemote, lift.
  destruct (generateContent _ (world s0)) as [[resp | e] w]; cbn [snd log].
  - destruct (firstInlineImage (responseParts resp)); cbn [snd log];
      rewrite requests_app; reflexivity.
  - rewrite requests_app. reflexivity.
Qed.

(** C9: when the character's [uploadUrl] is not of the recognised form
    [data:image/...;base64,...], [generateCharacterSheet] attaches no inline
    image: every request it sends carries the text prompt alone, and the
    attempt is that request and the reading of its response, nothing that
    could fail before; when [uploadUrl] is of that form, every request it
    sends carries the decoded image part first and the text prompt second.
    In both cases at least one request is sent. *)
Theorem characterSheet_reference_image {platform : Platform}
  (character : Character) (tone styleTags : string) :
  let prompt := characterSheetPrompt character tone styleTags in
  ((forall url, c_uploadUrl character = Some url ->
                forall mime payload, ~ embeddedImage url mime payload) ->
   characterSheetParts character tone styleTags = [TextPart prompt]
   /\ generateCharacterSheet_attempt character tone styleTags
      = (response <- callRemote
                       (ImageRequest DEFAULT_MODELS_image [TextPart prompt]
                          "1:1") ;;
         lift (firstInlineImage (responseParts response)))
   /\ forall s, exists k,
        requests (log (snd (generateCharacterSheet character tone styleTags s)))
        = (requests (log s)
           ++ repeat (ImageRequest DEFAULT_MODELS_image [TextPart prompt] "1:1")
                (S k))%list)
  /\ (forall url mime payload,
        c_uploadUrl character = Some url ->
        embeddedImage url mime payload ->
        characterSheetParts character tone styleTags
        = [InlinePart (mkInline mime payload); TextPart prompt]
        /\ generateCharacterSheet_attempt character tone styleTags
           = (response <- callRemote
                            (ImageRequest DEFAULT_MODELS_image
                               [InlinePart (mkInline mime payload);
                                TextPart prompt]
                               "1:1") ;;
              lift (firstInlineImage (responseParts response)))
        /\ forall s, exists k,
             requests (log (snd (generateCharacterSheet character tone
                                   styleTags s)))
             = (requests (log s)
                ++ repeat (ImageRequest DEFAULT_MODELS_image
                             [InlinePart (mkInline mime payload);
                              TextPart prompt]
                             "1:1")
                     (S k))%list).
Proof.
  intros prompt.
  assert (Hfrom : forall parts,
            characterSheetParts character tone styleTags = parts ->
            characterSheetParts character tone styleTags = parts
            /\ generateCharacterSheet_attempt character tone styleTags
               = (response <- callRemote
                                (ImageRequest DEFAULT_MODELS_image parts "1:1") ;;
                  lift (firstInlineImage (responseParts response)))
            /\ forall s, exists k,
                 requests (log (snd (generateCharacterSheet character tone
                                       styleTags s)))
                 = (requests (log s)
                    ++ repeat (ImageRequest DEFAULT_MODELS_image parts "1:1")
                         (S k))%list).
  { intros parts Hparts. split; [exact Hparts |]. split.
    - unfold generateCharacterSheet_attempt, characterSheetRequest.
      rewrite Hparts. reflexivity.
    - intros s.
      destruct (generateCharacterSheet_requests character tone styleTags s)
        as [k Hk].
      exists k. rewrite Hk. unfold characterSheetRequest. rewrite Hparts.
      reflexivity. }
  split.
  - intros Hno. apply Hfrom.
    unfold characterSheetParts.
    destruct (c_uploadUrl character) as [url |]; [| reflexivity].
    destruct (Js.truthy url); [| reflexivity].
    destruct (matchDataUrl url) as [[m1 m2] |] eqn:Hm; [| reflexivity].
    apply matchDataUrl_iff in Hm. exfalso. exact (Hno url eq_refl m1 m2 Hm).
  - intros url mime payload Hurl Hm. apply Hfrom.
    unfold characterSheetParts. rewrite Hurl.
    assert (Ht : Js.truthy url = true).
    { destruct Hm as (letters & -> & _). reflexivity. }
    apply matchDataUrl_iff in Hm. rewrite Ht, Hm. reflexivity.
Qed.

(** C10: the batch loop calls [generateSceneImage] without sliders, so each
    of its requests is built with an empty atmosphere clause and does not
    depend on the sliders the scene has; the single-scene paths pass
    sliders (the scene's own on regeneration, the edited ones on a tweak), and
    the prompt then carries the clause [" Atmosphere: Tone:..."] between the
    style and the closing sentences. *)
Theorem batch_requests_omit_atmosphere {platform : Platform}
  (a : App) (sceneId : Z) (useStoryText : bool)
  (newDescription newStoryText : string) :
  let snap := fst a in
  (exists sent,
      requests (log (snd (generateAllScenes a)))
      = (requests (log (snd a)) ++ sent)%list
      /\ Forall (fun r => exists scene,
                   In scene (scenes snap)
                   /\ r = sessionSceneRequest snap scene None false)
           sent)
  /\ (forall scene ust,
        exists head tail,
          forall sliders,
            sessionSceneRequest snap scene sliders ust
            = ImageRequest DEFAULT_MODELS_image
                [TextPart (head ++ sliderContext sliders ++ tail)] "16:9")
  /\ sliderContext None = EmptyString
  /\ (forall sl,
        sliderContext (Some sl)
        = " Atmosphere: Tone:" ++ Js.num (sl_tone sl)
          ++ ", Excitement:" ++ Js.num (sl_excitement sl)
          ++ ", Happiness:" ++ Js.num (sl_happiness sl)
          ++ ", Energy:" ++ Js.num (sl_energy sl)
          ++ ", Tension:" ++ Js.num (sl_tension sl) ++ ".")
  /\ (forall scene sliders,
        sessionSceneRequest snap (withSliders sliders scene) None false
        = sessionSceneRequest snap scene None false)
  /\ (forall sc,
        find (fun s => s_id s =? sceneId) (scenes snap) = Some sc ->
        exists k,
          requests (log (snd (handleRegenerateScene sceneId useStoryText a)))
          = (requests (log (snd a))
             ++ repeat (sessionSceneRequest snap sc (s_sliders sc) useStoryText)
                  (S k))%list)
  /\ (exists k edited,
        s_description edited = newDescription
        /\ s_storyText edited = newStoryText
        /\ requests (log (snd (tweakSceneAction sceneId newDescription
                                 newStoryText useStoryText a)))
           = (requests (log (snd a))
              ++ repeat (sessionSceneRequest snap edited
                           (Some (editingSliders snap)) useStoryText)
                   (S k))%list).
Proof.
  intros snap. repeat apply conj.
  - unfold generateAllScenes. fold snap.
    set (a1 := upd (setErrorMessage None)
                 (upd (setLoading true) (upd (setStep Scenes) a))).
    destruct (generateAllScenes_loop_requests snap (scenes snap) a1)
      as (sent & Hlog & Hall).
    exists sent. split; [| exact Hall].
    destruct (generateAllScenes_loop snap (scenes snap) a1)
      as [[[] | error] a2]; cbn [snd] in Hlog |- *.
    + exact Hlog.
    + unfold handleError, upd. cbn [snd fst].
      rewrite requests_emit, app_nil_r. exact Hlog.
  - intros scene ust.
    exists ("CHILDREN'S BOOK ILLUSTRATION. Scene focus: "
            ++ (if ust then s_storyText scene else s_description scene)
            ++ ". Characters present: " ++ characterContext (characters snap)
            ++ ". Style: " ++ p_tone (params snap) ++ ", "
            ++ AGE_STYLE_TAGS (p_ageGroup (params snap)) ++ "."),
           " Consistent character appearances. 4K quality.".
    intros sliders. unfold sessionSceneRequest, sceneImageRequest, sceneImagePrompt.
    rewrite !append_assoc. reflexivity.
  - reflexivity.
  - reflexivity.
  - reflexivity.
  - intros sc Hfind. unfold handleRegenerateScene. fold snap. rewrite Hfind.
    set (a1 := upd (setScenes (mapScene sceneId (sceneGenerating true)))
                 (upd (setErrorMessage None) (upd (setLoading true) a))).
    destruct (generateSceneImage_requests sc (characters snap)
                (p_tone (params snap))
                (AGE_STYLE_TAGS (p_ageGroup (params snap))) (s_sliders sc)
                useStoryText (snd a1)) as [k Hk].
    exists k.
    destruct (generateSceneImage sc (characters snap) (p_tone (params snap))
                (AGE_STYLE_TAGS (p_ageGroup (params snap))) (s_sliders sc)
                useStoryText (snd a1)) as [outcome sys1].
    rewrite sceneGeneration_settle_requests. exact Hk.
  - unfold tweakSceneAction. fold snap.
    match goal with
    | |- context [generateSceneImage ?sc ?cast ?tone ?style ?sl ?ust ?sys] =>
        destruct (generateSceneImage_requests sc cast tone style sl ust sys)
          as [k Hk];
        exists k, sc;
        destruct (generateSceneImage sc cast tone style sl ust sys)
          as [outcome sys1]
    end.
    rewrite sceneGeneration_settle_requests.
    split; [destruct (find _ _); reflexivity |].
    split; [destruct (find _ _); reflexivity |]. exact Hk.
Qed.

(** ** The sequential batch when a scene fails *)

(** C1: in the batch over scenes [A; B; C] (distinct ids, no images yet)
    where the call for [A] succeeds and the call for [B] fails, [A] ends with
    its image and [isGenerating] false, the failure is surfaced through
    [handleError], and [C] is never attempted (nothing happens after the
    failed call but the error report); but [B], left without an image, keeps
    [isGenerating] true: the loop's [catch] does not clear the flag it set. *)
Theorem generateAllScenes_failure_leaves_flag {platform : Platform}
  (a : App) (A B C : Scene) (urlA : string) (errB : JsError) (sysA sysB : Sys) :
  let st := fst a in
  let cast := characters st in
  let tone := p_tone (params st) in
  let style := AGE_STYLE_TAGS (p_ageGroup (params st)) in
  scenes st = [A; B; C] ->
  Js.truthy_opt (s_imageUrl A) = false ->
  Js.truthy_opt (s_imageUrl B) = false ->
  s_id A <> s_id B -> s_id A <> s_id C -> s_id B <> s_id C ->
  generateSceneImage A cast tone style None false (snd a) = (Ok urlA, sysA) ->
  generateSceneImage B cast tone style None false (emit (Sleep 4500) sysA)
  = (Err errB, sysB) ->
  generateAllScenes a
  = (mkSession Scenes false (Some (userMessage errB)) (sessionUsage st + 1)
       (params st) (characters st)
       [sceneImageReady urlA A; sceneGenerating true B; C]
       (activeEditingScene st) (editingSliders st),
     emit (ConsoleError errB) sysB)
  /\ s_isGenerating (sceneGenerating true B) = Some true
  /\ s_imageUrl (sceneGenerating true B) = s_imageUrl B.
Proof.
  destruct a as [st0 sys0]. destruct st0 as [stp ld em us ps cs scs ae es].
  destruct A as [idA dA tA iA gA slA], B as [idB dB tB iB gB slB],
    C as [idC dC tC iC gC slC].
  cbn [fst snd scenes characters params sessionUsage activeEditingScene
         editingSliders s_id s_imageUrl].
  intros Hsc HA HB HAB HAC HBC HgenA HgenB. subst scs.
  split; [| split; reflexivity].
  assert (EAB : (idA =? idB) = false) by (apply Z.eqb_neq; congruence).
  assert (EBA : (idB =? idA) = false) by (apply Z.eqb_neq; congruence).
  assert (ECA : (idC =? idA) = false) by (apply Z.eqb_neq; congruence).
  assert (ECB : (idC =? idB) = false) by (apply Z.eqb_neq; congruence).
  unfold generateAllScenes.
  cbn [fst snd scenes characters params generateAllScenes_loop s_imageUrl s_id].
  rewrite HA.
  cbv [upd setStep setLoading setErrorMessage setScenes fst snd step loading
         errorMessage sessionUsage params characters scenes activeEditingScene
         editingSliders].
  rewrite HgenA.
  cbv [upd incrementUsage setScenes fst snd step loading errorMessage
         sessionUsage params characters scenes activeEditingScene
         editingSliders].
  rewrite HB.
  cbv [upd setScenes fst snd step loading errorMessage sessionUsage params
         characters scenes activeEditingScene editingSliders].
  rewrite HgenB.
  cbv [upd handleError setLoading setErrorMessage fst snd step loading
         errorMessage sessionUsage params characters scenes activeEditingScene
         editingSliders].
  cbv [mapScene map sceneGenerating sceneImageReady s_id s_description
         s_storyText s_imageUrl s_isGenerating s_sliders].
  repeat (rewrite ?Z.eqb_refl, ?EAB, ?EBA, ?ECA, ?ECB; cbv iota).
  reflexivity.
Qed.

(** ** Reset with a call in flight *)

(** The batch handler is its first call followed by the continuation
    [generateAllScenes_settle]. *)
Lemma generateAllScenes_first_call {platform : Platform} (a : App) scene rest :
  scenes (fst a) = scene :: rest ->
  Js.truthy_opt (s_imageUrl scene) = false ->
  let snap := fst a in
  let a1 := upd (setScenes (mapScene (s_id scene) (sceneGenerating true)))
              (upd (setErrorMessage None)
                 (upd (setLoading true) (upd (setStep Scenes) a))) in
  generateAllScenes a
  = generateAllScenes_settle snap scene rest
      (fst (generateSceneImage scene (characters snap) (p_tone (params snap))
              (AGE_STYLE_TAGS (p_ageGroup (params snap))) None false (snd a1)))
      (fst a1,
       snd (generateSceneImage scene (characters snap) (p_tone (params snap))
              (AGE_STYLE_TAGS (p_ageGroup (params snap))) None false (snd a1))).
Proof.
  intros Hsc Himg. cbv zeta.
  unfold generateAllScenes, generateAllScenes_settle. rewrite Hsc.
  cbn [generateAllScenes_loop]. rewrite Himg.
  destruct a as [st sys]. cbn [upd fst snd].
  destruct (generateSceneImage scene (characters st) (p_tone (params st))
              (AGE_STYLE_TAGS (p_ageGroup (params st))) None false sys)
    as [[url | e] sys1]; reflexivity.
Qed.



(** After the reset the settling of a stale call still counts as a
    generation: the usage counter, which a reset keeps, is incremented. *)
Lemma stale_completion_counts_usage :
  sessionUsage
    (fst (@handleGenerateCharacter_settle Scripted "char-1"
            (Ok "data:image/png;base64,QUJD")
            (handleReset true
               (snd (@handleGenerateCharacter_begin "char-1" book)),
             scripted [])))
  = sessionUsage
      (handleReset true (snd (@handleGenerateCharacter_begin "char-1" book)))
    + 1.
Proof. reflexivity. Qed.

(** * The properties at concrete inputs *)

Lemma callWithRetry_exhausts_retries_witness :
  exists error s_last s',
    @callWithRetry Overloaded _
      (generateSceneImage_attempt sceneA [ann; bob] "noir"
         (AGE_STYLE_TAGS Age5to7) None false)
      (Z.of_nat 4) 5000 (@mkSys Overloaded tt [])
    = (Err error, s')
    /\ generateSceneImage_attempt sceneA [ann; bob] "noir"
         (AGE_STYLE_TAGS Age5to7) None false s_last = (Err error, s')
    /\ isRetryable error = true
    /\ pacing (log s') = (pacing [] ++ retrySchedule 5000 4)%list
    /\ attempts (log s') = (attempts [] + 4 + 1)%nat
    /\ waits (log s')
       = (waits [] ++ map (fun i => 5000 * 2 ^ Z.of_nat i) (seq 0 4))%list.
Proof.
  apply (@callWithRetry_exhausts_retries Overloaded _
           (generateSceneImage_attempt sceneA [ann; bob] "noir"
              (AGE_STYLE_TAGS Age5to7) None false)
           4 5000 (@mkSys Overloaded tt [])).
  - apply quiet_generateSceneImage_attempt.
  - intros s. exists overloaded. eexists. split; reflexivity.
Defined.

Lemma callWithRetry_terminal_once_witness :
  exists s1,
    @callWithRetry Scripted _
      (generateSceneImage_attempt sceneB [ann; bob] "noir"
         (AGE_STYLE_TAGS Age5to7) None false)
      4 5000 (scripted [Ok refusalResponse])
    = (Err (Error "No image data returned from API"), s1)
    /\ attempts (log s1) = 1%nat
    /\ waits (log s1) = [].
Proof.
  eexists.
  destruct (@callWithRetry_terminal_once Scripted _
              (generateSceneImage_attempt sceneB [ann; bob] "noir"
                 (AGE_STYLE_TAGS Age5to7) None false)
              4 5000 (scripted [Ok refusalResponse])
              (Error "No image data returned from API") _
              eq_refl eq_refl) as (Hrun & _ & Hquiet).
  split; [exact Hrun |].
  apply (proj2 (Hquiet (quiet_generateSceneImage_attempt _ _ _ _ _ _))).
Defined.

Lemma image_result_contract_witness :
  @generateCharacterSheet Scripted ann "noir" (AGE_STYLE_TAGS Age5to7)
    (scripted [Ok (imageResponse "QUJD")])
  = (Ok "data:image/png;base64,QUJD",
     @mkSys Scripted []
       [Attempt; Sent (characterSheetRequest ann "noir" (AGE_STYLE_TAGS Age5to7))])
  /\ @generateSceneImage Scripted sceneA [ann; bob] "noir"
       (AGE_STYLE_TAGS Age5to7) None false
       (scripted [Ok refusalResponse])
     = (Err (Error "No image data returned from API"),
        @mkSys Scripted []
          [Attempt;
           Sent (sceneImageRequest sceneA [ann; bob] "noir"
                   (AGE_STYLE_TAGS Age5to7) None false)]).
Proof.
  assert (Hpng : firstInlinePart (imageResponse "QUJD") "image/png" "QUJD").
  { exists (mkCandidate
              (Some (mkContent
                       (Some [mkRPart (Some "Here is the image.") None;
                              mkRPart None
                                (Some (mkBlob (Some "image/png")
                                         (Some "QUJD")))])))),
           [],
           (mkContent
              (Some [mkRPart (Some "Here is the image.") None;
                     mkRPart None
                       (Some (mkBlob (Some "image/png") (Some "QUJD")))])),
           [mkRPart (Some "Here is the image.") None], None, [].
    repeat split; try reflexivity. repeat constructor. }
  assert (Hnone : noInlinePart refusalResponse) by (repeat constructor).
  split.
  - apply (proj1 (proj1 (@image_result_contract Scripted ann sceneA [ann; bob]
                           "noir" (AGE_STYLE_TAGS Age5to7) None false
                           (imageResponse "QUJD")
                           (scripted [Ok (imageResponse "QUJD")]) [])
                    "QUJD" Hpng)).
    reflexivity.
  - apply (proj2 (proj2 (proj2 (@image_result_contract Scripted ann sceneA
                                  [ann; bob] "noir" (AGE_STYLE_TAGS Age5to7)
                                  None false refusalResponse
                                  (scripted [Ok refusalResponse]) [])
                           Hnone))).
    reflexivity.
Defined.

Lemma analyzeStory_characters_tweaks_witness :
  exists cs, field "characters" analysisResult = Some (Json.JArr cs)
             /\ Forall hasEmptyTweaks cs.
Proof.
  apply (@analyzeStory_characters_tweaks Scripted (p_story (params book))
           (FixedCount 10) "noir" (scripted [Ok sevenPages])
           analysisResult analysisFinal).
  reflexivity.
Defined.

(** C4 as stated fails: with the explicit count 10 and the explicit tone
    "noir", a model that answers 7 and "whimsical" has its values returned. *)
Lemma analyzeStory_returns_seven_not_ten :
  analysisRun = (Ok analysisResult, analysisFinal)
  /\ field "determinedCount" analysisResult = Some (Json.JNum 7 0)
  /\ field "determinedCount" analysisResult <> Some (Json.JNum 10 0)
  /\ field "determinedTone" analysisResult = Some (Json.JStr "whimsical")
  /\ field "determinedTone" analysisResult <> Some (Json.JStr "noir").
Proof.
  split; [reflexivity |].
  split; [reflexivity |].
  split; [discriminate |].
  split; [reflexivity | discriminate].
Qed.

Lemma analyzeStory_returns_model_choice_witness :
  exists s0 resp parsed,
    @generateContent Scripted
      (TextRequest DEFAULT_MODELS_text
         (analysisPrompt (p_story (params book)) (FixedCount 10) "noir"))
      (world s0) = (Ok resp, world analysisFinal)
    /\ @JSON_parse Scripted (textOrEmptyObject resp) = Ok parsed
    /\ field "determinedCount" analysisResult
       = Json.lookup "determinedCount" (Json.spread parsed)
    /\ field "determinedTone" analysisResult
       = Json.lookup "determinedTone" (Json.spread parsed).
Proof.
  destruct (@analyzeStory_returns_model_choice Scripted (p_story (params book))
              (FixedCount 10) "noir" (scripted [Ok sevenPages])
              analysisResult analysisFinal)
    as (s0 & resp & parsed & Hgen & Hparse & Hcount & Htone & _).
  - reflexivity.
  - exists s0, resp, parsed. repeat split; assumption.
Defined.

(** C3 as stated fails: a body that is not JSON makes the call fail with the
    parse error; no result is returned. *)
Lemma analyzeStory_fails_on_prose :
  fst (@analyzeStory Scripted (p_story (params book)) AutoCount "auto"
         (scripted [Ok proseResponse]))
  = Err (SyntaxError
           "Unexpected token in JSON: Sorry, I cannot help with that.")
  /\ ~ exists r s',
         @analyzeStory Scripted (p_story (params book)) AutoCount "auto"
           (scripted [Ok proseResponse]) = (Ok r, s').
Proof.
  assert (Hfail : fst (@analyzeStory Scripted (p_story (params book))
                         AutoCount "auto" (scripted [Ok proseResponse]))
                  = Err (SyntaxError
                           "Unexpected token in JSON: Sorry, I cannot help with that."))
    by reflexivity.
  split; [exact Hfail |].
  intros (r & s' & H). rewrite H in Hfail. discriminate Hfail.
Qed.

Lemma analyzeStory_body_handling_witness :
  (exists r s1,
      @analyzeStory Scripted (p_story (params book)) AutoCount "auto"
        (scripted [Ok emptyResponse]) = (Ok r, s1)
      /\ field "characters" r = Some (Json.JArr [])
      /\ field "scenes" r = None)
  /\ (exists s1,
         @analyzeStory Scripted (p_story (params book)) AutoCount "auto"
           (scripted [Ok proseResponse])
         = (Err (SyntaxError
                   "Unexpected token in JSON: Sorry, I cannot help with that."),
            s1)).
Proof.
  split.
  - destruct (proj1 (@analyzeStory_body_handling Scripted
                       (p_story (params book)) AutoCount "auto"
                       (scripted [Ok emptyResponse]) emptyResponse []
                       eq_refl) eq_refl eq_refl)
      as (r & Hrun & Hchars & Hscenes).
    exists r. eexists. repeat split; eassumption.
  - eexists.
    apply (proj2 (@analyzeStory_body_handling Scripted
                    (p_story (params book)) AutoCount "auto"
                    (scripted [Ok proseResponse]) proseResponse []
                    eq_refl)
             "Sorry, I cannot help with that."
             (SyntaxError
                "Unexpected token in JSON: Sorry, I cannot help with that.")
             eq_refl eq_refl eq_refl).
    reflexivity.
Defined.

Lemma characterSheet_reference_image_witness :
  (exists k,
      requests (log (snd (@generateCharacterSheet Scripted bob "noir"
                            (AGE_STYLE_TAGS Age5to7)
                            (scripted [Ok (imageResponse "QUFB")]))))
      = (requests []
         ++ repeat (ImageRequest DEFAULT_MODELS_image
                      [TextPart (characterSheetPrompt bob "noir"
                                   (AGE_STYLE_TAGS Age5to7))]
                      "1:1")
              (S k))%list)
  /\ (exists k,
        requests (log (snd (@generateCharacterSheet Scripted ann "noir"
                              (AGE_STYLE_TAGS Age5to7)
                              (scripted [Ok (imageResponse "QUFB")]))))
        = (requests []
           ++ repeat (ImageRequest DEFAULT_MODELS_image
                        [InlinePart (mkInline "image/jpeg" "QUJD");
                         TextPart (characterSheetPrompt ann "noir"
                                     (AGE_STYLE_TAGS Age5to7))]
                        "1:1")
                (S k))%list).
Proof.
  split.
  - apply (proj1 (@characterSheet_reference_image Scripted bob "noir"
                    (AGE_STYLE_TAGS Age5to7))).
    intros url Hurl mime payload Hm. apply matchDataUrl_iff in Hm.
    injection Hurl as <-. discriminate Hm.
  - apply (proj2 (@characterSheet_reference_image Scripted ann "noir"
                    (AGE_STYLE_TAGS Age5to7))
             "data:image/jpeg;base64,QUJD" "image/jpeg" "QUJD" eq_refl).
    apply matchDataUrl_iff. reflexivity.
Defined.

Lemma batch_requests_omit_atmosphere_witness :
  exists k,
    requests (log (snd (handleRegenerateScene 2 false batchStart)))
    = (requests (log (snd batchStart))
       ++ repeat (sessionSceneRequest book sceneB (Some midSliders) false)
            (S k))%list.
Proof.
  destruct (@batch_requests_omit_atmosphere Scripted batchStart 2 false
              "Ann meets Bob" "She met Bob.")
    as (_ & _ & _ & _ & _ & Hregen & _).
  apply Hregen. reflexivity.
Defined.

Lemma generateAllScenes_failure_leaves_flag_witness :
  exists sysB,
    generateAllScenes batchStart
    = (mkSession Scenes false
         (Some (userMessage (Error "No image data returned from API")))
         (sessionUsage book + 1) (params book) (characters book)
         [sceneImageReady "data:image/png;base64,QUFB" sceneA;
          sceneGenerating true sceneB; sceneC]
         (activeEditingScene book) (editingSliders book),
       emit (ConsoleError (Error "No image data returned from API")) sysB)
    /\ s_isGenerating (sceneGenerating true sceneB) = Some true
    /\ s_imageUrl (sceneGenerating true sceneB) = s_imageUrl sceneB.
Proof.
  pose (sysA := snd (@generateSceneImage Scripted sceneA (characters book)
                       (p_tone (params book))
                       (AGE_STYLE_TAGS (p_ageGroup (params book))) None false
                       (snd batchStart))).
  pose (sysB := snd (@generateSceneImage Scripted sceneB (characters book)
                       (p_tone (params book))
                       (AGE_STYLE_TAGS (p_ageGroup (params book))) None false
                       (emit (Sleep 4500) sysA))).
  exists sysB.
  apply (@generateAllScenes_failure_leaves_flag Scripted batchStart
           sceneA sceneB sceneC "data:image/png;base64,QUFB"
           (Error "No image data returned from API") sysA sysB);
    try reflexivity; simpl; lia.
Defined.

(** * Further properties of the code *)

(** ** The retry wrapper on arbitrary operations *)

Section RetryBounds.
Context {platform : Platform}.
Variable classify : JsError -> bool.
Variable notice : Z -> Z -> string.

(** Whatever the operation does, the loop follows a prefix of its schedule,
    and hands back an error that [classify] accepts only at the end of it. *)
Lemma retryLoop_bounded {T} (fn : M T) :
  quiet fn ->
  forall retries delay s,
  exists k,
    (k <= Z.to_nat retries)%nat
    /\ pacing (log (snd (retryLoop classify notice fn retries delay s)))
       = (pacing (log s) ++ retrySchedule delay k)%list
    /\ (forall error,
          fst (retryLoop classify notice fn retries delay s) = Err error ->
          classify error = true -> k = Z.to_nat retries).
Proof.
  intros Hq retries.
  remember (Z.to_nat retries) as n eqn:Hn. revert retries Hn.
  induction n as [| n IH]; intros retries Hn delay s;
    rewrite retryLoop_step;
    pose proof (Hq (emit Attempt s)) as Hp;
    cbn [emit log] in Hp; rewrite pacing_app in Hp;
    change (pacing [Attempt]) with [Attempt] in Hp;
    destruct (fn (emit Attempt s)) as [[v | error] s1]; cbn [snd] in Hp.
  - exists 0%nat. cbn [snd fst retrySchedule].
    split; [lia |]. split; [exact Hp | discriminate].
  - replace (0 <? retries) with false by (symmetry; apply Z.ltb_ge; lia).
    exists 0%nat. cbn [andb snd fst retrySchedule].
    split; [lia |]. split; [exact Hp | reflexivity].
  - exists 0%nat. cbn [snd fst retrySchedule].
    split; [lia |]. split; [exact Hp | discriminate].
  - destruct ((0 <? retries) && classify error) eqn:Hc.
    + apply andb_prop in Hc as [Hpos _]. apply Z.ltb_lt in Hpos.
      destruct (IH (retries - 1) ltac:(lia) (delay * 2)
                  (emit (Sleep delay) (emit (Warn (notice delay retries)) s1)))
        as (k & Hk & Hpk & Hlast).
      exists (S k). split; [lia |]. split.
      * rewrite Hpk. cbn [emit log]. rewrite !pacing_app.
        change (pacing [Sleep delay]) with [Sleep delay].
        change (pacing [Warn (notice delay retries)]) with (@nil Event).
        rewrite app_nil_r, Hp. cbn [retrySchedule].
        rewrite <- !app_assoc. reflexivity.
      * intros e He Hce. f_equal. apply (Hlast e He Hce).
    + exists 0%nat. cbn [snd fst retrySchedule].
      split; [lia |]. split; [exact Hp |].
      intros e [= <-] Hce. rewrite Hce, andb_true_r in Hc.
      apply Z.ltb_ge in Hc. lia.
Qed.

End RetryBounds.

(** X1: whatever the operation does on each call, [callWithRetry] never makes
    more than [retries + 1] attempts (one attempt when [retries <= 0]); its
    attempts and waits are the first [k + 1] attempts of the doubling
    schedule for some [k <= retries], and a retryable error is handed back
    only when the whole schedule was used. *)
Theorem callWithRetry_attempts_bounded {platform : Platform} {T}
  (fn : M T) (retries delay : Z) (s : Sys) :
  quiet fn ->
  exists k,
    (k <= Z.to_nat retries)%nat
    /\ pacing (log (snd (callWithRetry fn retries delay s)))
       = (pacing (log s) ++ retrySchedule delay k)%list
    /\ attempts (log (snd (callWithRetry fn retries delay s)))
       = (attempts (log s) + k + 1)%nat
    /\ waits (log (snd (callWithRetry fn retries delay s)))
       = (waits (log s) ++ doubling delay k)%list
    /\ (forall error,
          fst (callWithRetry fn retries delay s) = Err error ->
          isRetryable error = true -> k = Z.to_nat retries).
Proof.
  intros Hq.
  destruct (retryLoop_bounded isRetryable retryNotice fn Hq retries delay s)
    as (k & Hk & Hp & Hlast).
  exists k. unfold callWithRetry.
  split; [exact Hk |]. split; [exact Hp |]. split; [| split; [| exact Hlast]].
  - rewrite <- attempts_pacing, Hp, attempts_app, attempts_pacing,
      attempts_retrySchedule. lia.
  - rewrite <- waits_pacing, Hp, waits_app, waits_pacing, waits_retrySchedule.
    reflexivity.
Qed.

Lemma callWithRetry_attempts_bounded_witness :
  exists k,
    (k <= Z.to_nat 4)%nat
    /\ pacing (log (snd (@callWithRetry Scripted _
                           (generateSceneImage_attempt sceneA [ann; bob] "noir"
                              (AGE_STYLE_TAGS Age5to7) None false)
                           4 5000 (scripted [Err overloaded;
                                             Ok (imageResponse "QUFB")]))))
       = (pacing [] ++ retrySchedule 5000 k)%list.
Proof.
  destruct (@callWithRetry_attempts_bounded Scripted _
              (generateSceneImage_attempt sceneA [ann; bob] "noir"
                 (AGE_STYLE_TAGS Age5to7) None false)
              4 5000 (scripted [Err overloaded; Ok (imageResponse "QUFB")])
              (quiet_generateSceneImage_attempt _ _ _ _ _ _))
    as (k & Hk & Hp & _).
  exists k. split; assumption.
Defined.

(** ** Image calls against a scripted remote model *)

Lemma firstInlineImage_error ps error :
  firstInlineImage ps = Err error ->
  error = Error "No image data returned from API".
Proof.
  induction ps as [| p ps IH]; simpl.
  - intros [= <-]. reflexivity.
  - destruct (rp_inlineData p); [discriminate | exact IH].
Qed.

Lemma imageOutcome_decisive o error :
  decisive o = true -> imageOutcome o = Err error ->
  isRetryable error = false \/ exists e, o = Err e /\ e = error.
Proof.
  destruct o as [resp | e]; simpl.
  - intros _ H. apply firstInlineImage_error in H. subst. left. reflexivity.
  - intros Hd [= <-]. left. destruct (isRetryable e); [discriminate | reflexivity].
Qed.

Lemma emit_mkSys {platform : Platform} ev w l :
  emit ev (mkSys w l) = mkSys w (l ++ [ev]).
Proof. reflexivity. Qed.

(** One attempt of an image call on a script. *)
Lemma scripted_image_attempt req o rest l :
  bind (callRemote req)
    (fun response => lift (firstInlineImage (responseParts response)))
    (@mkSys Scripted (o :: rest) l)
  = (imageOutcome o, @mkSys Scripted rest (l ++ [Sent req])).
Proof.
  unfold bind, callRemote, lift. cbn [world log generateContent Scripted].
  destruct o as [resp | e]; [| reflexivity].
  cbn [imageOutcome]. destruct (firstInlineImage (responseParts resp)); reflexivity.
Qed.

(** The retry loop consumes the retryable errors at the head of the script
    and returns what it makes of the next outcome, provided that outcome is
    decisive or the retries are used up by then. *)
Lemma scripted_image_retry req errs final rest :
  Forall (fun e => isRetryable e = true) errs ->
  forall retries delay l,
    Z.of_nat (List.length errs) <= retries ->
    decisive final = true \/ Z.of_nat (List.length errs) = retries ->
    exists l',
      retryLoop isRetryable retryNotice
        (bind (callRemote req)
           (fun response => lift (firstInlineImage (responseParts response))))
        retries delay
        (@mkSys Scripted (map Err errs ++ final :: rest)%list l)
      = (imageOutcome final, @mkSys Scripted rest l')
      /\ pacing l' = (pacing l ++ retrySchedule delay (List.length errs))%list
      /\ requests l'
         = (requests l ++ repeat req (S (List.length errs)))%list.
Proof.
  induction 1 as [| e errs He _ IH]; intros retries delay l Hlen Hfin.
  - cbn [map app List.length retrySchedule repeat] in *.
    rewrite retryLoop_step, (@emit_mkSys Scripted), scripted_image_attempt.
    exists ((l ++ [Attempt]) ++ [Sent req])%list.
    split; [| split].
    + destruct (imageOutcome final) as [uri | error] eqn:Hout; [reflexivity |].
      destruct Hfin as [Hd | Hz].
      * destruct (imageOutcome_decisive _ _ Hd Hout) as [Hnr | (e0 & -> & ->)].
        -- rewrite Hnr, andb_false_r. reflexivity.
        -- simpl in Hd. destruct (isRetryable error); [discriminate |].
           rewrite andb_false_r. reflexivity.
      * replace (0 <? retries) with false
          by (symmetry; apply Z.ltb_ge; cbn in Hz; lia).
        reflexivity.
    + rewrite !pacing_app. change (pacing [Sent req]) with (@nil Event).
      rewrite app_nil_r. reflexivity.
    + rewrite !requests_app. change (requests [Attempt]) with (@nil Request).
      rewrite app_nil_r. reflexivity.
  - cbn [map app List.length] in *.
    rewrite retryLoop_step, (@emit_mkSys Scripted), scripted_image_attempt. cbn [imageOutcome]. rewrite He.
    replace (0 <? retries) with true by (symmetry; apply Z.ltb_lt; lia).
    cbn [andb]. rewrite !(@emit_mkSys Scripted).
    destruct (IH (retries - 1) (delay * 2)
                ((((l ++ [Attempt]) ++ [Sent req])
                  ++ [Warn (retryNotice delay retries)]) ++ [Sleep delay])%list
                ltac:(lia)
                ltac:(destruct Hfin as [Hd | Hz]; [left; exact Hd | right; lia]))
      as (l' & Hrun & Hp & Hr).
    exists l'. split; [exact Hrun |]. split.
    + rewrite Hp, !pacing_app.
      change (pacing [Sent req]) with (@nil Event).
      change (pacing [Warn (retryNotice delay retries)]) with (@nil Event).
      change (pacing [Attempt]) with [Attempt].
      change (pacing [Sleep delay]) with [Sleep delay].
      rewrite !app_nil_r. cbn [retrySchedule]. rewrite <- !app_assoc. reflexivity.
    + rewrite Hr, !requests_app.
      change (requests [Sent req]) with [req].
      change (requests [Warn (retryNotice delay retries)]) with (@nil Request).
      change (requests [Attempt]) with (@nil Request).
      change (requests [Sleep delay]) with (@nil Request).
      rewrite !app_nil_r. cbn [repeat]. rewrite <- !app_assoc. reflexivity.
Qed.

(** X2: against a remote model that answers with retryable errors [errs] and
    then with [final], a scene-image or character-sheet call returns what it
    makes of [final] (the data URI of its first inline part, the
    no-image-data error, or [final]'s own error), provided [errs] has at most
    four errors and [final] is not itself a retryable error or is the fifth
    outcome. The call sends one request per outcome consumed, waits 5000,
    10000, ... between them, and leaves the rest of the script untouched. *)
Theorem image_call_on_script
  (character : Character) (scene : Scene) (cast : list Character)
  (tone styleTags : string) (sliders : option SceneSliders)
  (useStoryText : bool)
  (errs : list JsError) (final : result Response)
  (rest : list (result Response)) :
  Forall (fun e => isRetryable e = true) errs ->
  (List.length errs <= 4)%nat ->
  decisive final = true \/ List.length errs = 4%nat ->
  let script := (map Err errs ++ final :: rest)%list in
  let sheet := @generateCharacterSheet Scripted character tone styleTags
                 (scripted script) in
  let image := @generateSceneImage Scripted scene cast tone styleTags sliders
                 useStoryText (scripted script) in
  (fst sheet = imageOutcome final
   /\ world (snd sheet) = rest
   /\ requests (log (snd sheet))
      = repeat (characterSheetRequest character tone styleTags)
          (S (List.length errs))
   /\ waits (log (snd sheet)) = doubling 5000 (List.length errs))
  /\ (fst image = imageOutcome final
      /\ world (snd image) = rest
      /\ requests (log (snd image))
         = repeat (sceneImageRequest scene cast tone styleTags sliders
                     useStoryText)
             (S (List.length errs))
      /\ waits (log (snd image)) = doubling 5000 (List.length errs)).
Proof.
  intros Herrs Hlen Hfin script sheet image.
  assert (Hlen' : Z.of_nat (List.length errs) <= defaultRetries)
    by (unfold defaultRetries; lia).
  assert (Hfin' : decisive final = true
                  \/ Z.of_nat (List.length errs) = defaultRetries)
    by (destruct Hfin as [Hd | Hz];
        [left; exact Hd | right; unfold defaultRetries; lia]).
  split.
  - destruct (scripted_image_retry (characterSheetRequest character tone styleTags)
                errs final rest Herrs defaultRetries defaultDelay [] Hlen' Hfin')
      as (l' & Hrun & Hp & Hr).
    subst sheet. unfold generateCharacterSheet, callWithRetry,
      generateCharacterSheet_attempt, scripted. fold script in Hrun.
    rewrite Hrun. cbn [fst snd world log].
    repeat split; try assumption.
    rewrite <- waits_pacing, Hp. cbn [pacing filter app].
    apply waits_retrySchedule.
  - destruct (scripted_image_retry
                (sceneImageRequest scene cast tone styleTags sliders useStoryText)
                errs final rest Herrs defaultRetries defaultDelay [] Hlen' Hfin')
      as (l' & Hrun & Hp & Hr).
    subst image. unfold generateSceneImage, callWithRetry,
      generateSceneImage_attempt, scripted. fold script in Hrun.
    rewrite Hrun. cbn [fst snd world log].
    repeat split; try assumption.
    rewrite <- waits_pacing, Hp. cbn [pacing filter app].
    apply waits_retrySchedule.
Qed.

Lemma image_call_on_script_witness :
  fst (@generateSceneImage Scripted sceneA [ann; bob] "noir"
         (AGE_STYLE_TAGS Age5to7) None false
         (scripted [Err overloaded; Err overloaded; Ok (imageResponse "QUFB");
                    Ok refusalResponse]))
  = Ok "data:image/png;base64,QUFB"
  /\ world (snd (@generateSceneImage Scripted sceneA [ann; bob] "noir"
                   (AGE_STYLE_TAGS Age5to7) None false
                   (scripted [Err overloaded; Err overloaded;
                              Ok (imageResponse "QUFB"); Ok refusalResponse])))
     = [Ok refusalResponse].
Proof.
  destruct (image_call_on_script ann sceneA [ann; bob] "noir"
              (AGE_STYLE_TAGS Age5to7) None false
              [overloaded; overloaded] (Ok (imageResponse "QUFB"))
              [Ok refusalResponse])
    as [_ (Hres & Hworld & _)].
  - repeat constructor.
  - simpl. lia.
  - left. reflexivity.
  - split; [exact Hres | exact Hworld].
Defined.

(** ** What a successful image call returns *)

Lemma firstInlineImage_ok ps url :
  firstInlineImage ps = Ok url ->
  exists pre part blob post,
    ps = (pre ++ part :: post)%list
    /\ Forall (fun p => rp_inlineData p = None) pre
    /\ rp_inlineData part = Some blob
    /\ url = "data:image/png;base64," ++ interpolate (b_data blob).
Proof.
  induction ps as [| p ps IH]; simpl; [discriminate |].
  destruct (rp_inlineData p) as [blob |] eqn:Hp.
  - intros [= <-]. exists [], p, blob, ps.
    repeat split; [constructor | exact Hp].
  - intros H. destruct (IH H) as (pre & part & blob & post & -> & Hpre & Hb & ->).
    exists (p :: pre), part, blob, post.
    repeat split; [constructor; assumption | exact Hb].
Qed.

Lemma image_attempt_ok {platform : Platform} req s url s' :
  bind (callRemote req)
    (fun response => lift (firstInlineImage (responseParts response))) s
  = (Ok url, s') ->
  exists resp,
    generateContent req (world s) = (Ok resp, world s')
    /\ firstInlineImage (responseParts resp) = Ok url.
Proof.
  unfold bind, callRemote, lift.
  destruct (generateContent req (world s)) as [[resp | e] w]; [| discriminate].
  destruct (firstInlineImage (responseParts resp)) as [u | e] eqn:Hf;
    [| discriminate].
  intros [= <- <-]. exists resp. split; reflexivity || exact Hf.
Qed.

(** X3: whenever a character-sheet or scene-image call succeeds, be it
    after retries, its result is ["data:image/png;base64,"] followed by the
    data of the first inline part of the first candidate of the response to
    one of its requests; the MIME type that part declares is not looked at,
    and the result is never the empty string. *)
Theorem image_result_is_png_data_uri {platform : Platform}
  (character : Character) (scene : Scene) (cast : list Character)
  (tone styleTags : string) (sliders : option SceneSliders)
  (useStoryText : bool) (s : Sys) (url : string) (s' : Sys) :
  generateCharacterSheet character tone styleTags s = (Ok url, s')
  \/ generateSceneImage scene cast tone styleTags sliders useStoryText s
     = (Ok url, s') ->
  exists s0 req resp pre part blob post,
    generateContent req (world s0) = (Ok resp, world s')
    /\ (req = characterSheetRequest character tone styleTags
        \/ req = sceneImageRequest scene cast tone styleTags sliders
                   useStoryText)
    /\ responseParts resp = (pre ++ part :: post)%list
    /\ Forall (fun p => rp_inlineData p = None) pre
    /\ rp_inlineData part = Some blob
    /\ url = "data:image/png;base64," ++ interpolate (b_data blob)
    /\ Js.truthy url = true.
Proof.
  intros [Hrun | Hrun];
    apply retryLoop_outcome in Hrun as [s0 Hatt];
    apply image_attempt_ok in Hatt as (resp & Hgen & Hfirst);
    apply firstInlineImage_ok in Hfirst
      as (pre & part & blob & post & Hparts & Hpre & Hblob & ->).
  - exists (emit Attempt s0), (characterSheetRequest character tone styleTags),
      resp, pre, part, blob, post.
    repeat split; try assumption. left. reflexivity.
  - exists (emit Attempt s0),
      (sceneImageRequest scene cast tone styleTags sliders useStoryText),
      resp, pre, part, blob, post.
    repeat split; try assumption. right. reflexivity.
Qed.

Lemma image_result_is_png_data_uri_witness :
  exists s0 req resp pre part blob post,
    @generateContent Scripted req (world s0) = (Ok resp, [])
    /\ (req = characterSheetRequest ann "noir" (AGE_STYLE_TAGS Age5to7)
        \/ req = sceneImageRequest sceneA [ann; bob] "noir"
                   (AGE_STYLE_TAGS Age5to7) None false)
    /\ responseParts resp = (pre ++ part :: post)%list
    /\ Forall (fun p => rp_inlineData p = None) pre
    /\ rp_inlineData part = Some blob
    /\ "data:image/png;base64,QUJD"
       = "data:image/png;base64," ++ interpolate (b_data blob)
    /\ Js.truthy "data:image/png;base64,QUJD" = true.
Proof.
  apply (@image_result_is_png_data_uri Scripted ann sceneA [ann; bob] "noir"
           (AGE_STYLE_TAGS Age5to7) None false
           (scripted [Ok (mkResponse None
                            (Some [mkCandidate
                                     (Some (mkContent
                                              (Some [mkRPart None
                                                       (Some (mkBlob
                                                                (Some "image/jpeg")
                                                                (Some "QUJD")))])))]))])
           "data:image/png;base64,QUJD"
           (@mkSys Scripted []
              [Attempt;
               Sent (characterSheetRequest ann "noir" (AGE_STYLE_TAGS Age5to7))])).
  left. reflexivity.
Defined.

(** ** What the analysis keeps and what it rejects *)



(** X5: what [analyzeStory] makes of the [characters] of a parsed response,
    when the remote model answers the first request with [resp]: if the
    response parses to [null] the call fails with a [TypeError]; if it parses
    to an object whose [characters] is absent or falsy ([null], [false], [0],
    the empty string) the result has an empty character list; if
    [characters] is truthy but not an array the call fails with a
    [TypeError]. Neither error is retried. *)
Theorem analyzeStory_characters_shapes {platform : Platform}
  (story : string) (sceneCount : SceneCount) (tone : string)
  (s : Sys) (resp : Response) (w : World) (parsed : Json.t) :
  let req :=
    TextRequest DEFAULT_MODELS_text (analysisPrompt story sceneCount tone) in
  let s1 := mkSys w (log s ++ [Attempt; Sent req]) in
  generateContent req (world s) = (Ok resp, w) ->
  JSON_parse (textOrEmptyObject resp) = Ok parsed ->
  (parsed = Json.JNull ->
   analyzeStory story sceneCount tone s
   = (Err (TypeError "Cannot read properties of null (reading 'characters')"),
      s1))
  /\ (forall props,
        parsed = Json.JObj props ->
        (Json.lookup "characters" props = None
         \/ (exists v, Json.lookup "characters" props = Some v
                       /\ Json.truthy v = false) ->
         analyzeStory story sceneCount tone s
         = (Ok (Json.JObj (Json.set "characters" (Json.JArr []) props)), s1))
        /\ (forall items,
              Json.lookup "characters" props = Some (Json.JArr items) ->
              analyzeStory story sceneCount tone s
              = (Ok (Json.JObj
                       (Json.set "characters"
                          (Json.JArr (map withEmptyTweaks items)) props)),
                 s1))
        /\ (forall v,
              Json.lookup "characters" props = Some v ->
              Json.truthy v = true ->
              (forall items, v <> Json.JArr items) ->
              analyzeStory story sceneCount tone s
              = (Err (TypeError "(intermediate value).map is not a function"),
                 s1))).
Proof.
  intros req s1 Hgen Hparse.
  assert (Hatt : analyzeStory_attempt story sceneCount tone (emit Attempt s)
                 = (match Json.get parsed "characters" with
                    | Ok chars =>
                        match Json.call_map (orEmptyArray chars) withEmptyTweaks with
                        | Ok mapped =>
                            Ok (Json.JObj (Json.set "characters" mapped
                                             (Json.spread parsed)))
                        | Err e => Err e
                        end
                    | Err e => Err e
                    end, s1)).
  { unfold analyzeStory_attempt, bind, callRemote, lift, ret.
    fold req. cbn [emit world log]. rewrite Hgen, Hparse.
    unfold s1. rewrite <- app_assoc. cbn [app].
    destruct (Json.get parsed "characters") as [chars | e]; [| reflexivity].
    destruct (Json.call_map (orEmptyArray chars) withEmptyTweaks); reflexivity. }
  split; [| intros props ->; split; [| split]].
  - intros ->. unfold analyzeStory, callWithRetry.
    apply retryLoop_terminal; [exact Hatt | reflexivity].
  - intros Hfalsy. unfold analyzeStory, callWithRetry.
    apply retryLoop_first_ok. rewrite Hatt. cbn [Json.get Json.spread].
    destruct Hfalsy as [-> | (v & -> & Hv)]; cbn [orEmptyArray];
      rewrite ?Hv; reflexivity.
  - intros items Hitems. unfold analyzeStory, callWithRetry.
    apply retryLoop_first_ok. rewrite Hatt. cbn [Json.get Json.spread].
    rewrite Hitems. reflexivity.
  - intros v Hv Htruthy Hnot. unfold analyzeStory, callWithRetry.
    apply retryLoop_terminal; [| reflexivity].
    rewrite Hatt. cbn [Json.get]. rewrite Hv. cbn [orEmptyArray].
    rewrite Htruthy.
    destruct v; try reflexivity. exfalso. apply (Hnot items). reflexivity.
Qed.

Lemma analyzeStory_characters_shapes_witness :
  fst (@analyzeStory Scripted "Once." AutoCount "auto"
         (scripted [Ok (textResponse "null")]))
  = Err (TypeError "Cannot read properties of null (reading 'characters')")
  /\ fst (@analyzeStory Scripted "Once." AutoCount "auto"
            (scripted [Ok (textResponse "{'scenes':[],'characters':'none'}")]))
     = Err (TypeError "(intermediate value).map is not a function")
  /\ fst (@analyzeStory Scripted "Once." AutoCount "auto"
            (scripted [Ok (textResponse "{'scenes':[],'characters':null}")]))
     = Ok (Json.JObj [("scenes", Json.JArr []); ("characters", Json.JArr [])]).
Proof.
  split; [| split].
  - rewrite (proj1 (@analyzeStory_characters_shapes Scripted "Once." AutoCount
                      "auto" (scripted [Ok (textResponse "null")])
                      (textResponse "null") [] Json.JNull eq_refl eq_refl)
               eq_refl).
    reflexivity.
  - destruct (proj2 (@analyzeStory_characters_shapes Scripted "Once." AutoCount
                       "auto"
                       (scripted [Ok (textResponse
                                        "{'scenes':[],'characters':'none'}")])
                       (textResponse "{'scenes':[],'characters':'none'}") []
                       (Json.JObj [("scenes", Json.JArr []);
                                   ("characters", Json.JStr "none")])
                       eq_refl eq_refl)
                _ eq_refl) as (_ & _ & Hbad).
    rewrite (Hbad (Json.JStr "none") eq_refl eq_refl); [reflexivity |].
    intros items. discriminate.
  - destruct (proj2 (@analyzeStory_characters_shapes Scripted "Once." AutoCount
                       "auto"
                       (scripted [Ok (textResponse
                                        "{'scenes':[],'characters':null}")])
                       (textResponse "{'scenes':[],'characters':null}") []
                       (Json.JObj [("scenes", Json.JArr []);
                                   ("characters", Json.JNull)])
                       eq_refl eq_refl)
                _ eq_refl) as (Hfalsy & _ & _).
    rewrite Hfalsy; [reflexivity |].
    right. exists Json.JNull. split; reflexivity.
Defined.

(** ** What the prompts quote *)

Lemma append_nil_r (s : string) : s ++ EmptyString = s.
Proof. induction s as [| c s IH]; simpl; [reflexivity | rewrite IH; reflexivity]. Qed.

Lemma prefix_app p r : String.prefix p (p ++ r) = true.
Proof.
  induction p as [| a p IH]; simpl; [destruct r; reflexivity |].
  destruct (ascii_dec a a); [exact IH | congruence].
Qed.

Lemma prefix_inv p s : String.prefix p s = true -> exists r, s = p ++ r.
Proof.
  revert s. induction p as [| a p IH]; intros s.
  - exists s. reflexivity.
  - destruct s as [| b s]; simpl; [discriminate |].
    destruct (ascii_dec a b) as [<- |]; [| discriminate].
    intros H. destruct (IH s H) as [r ->]. exists r. reflexivity.
Qed.

Lemma includes_step hay needle :
  Js.includes hay needle
  = String.prefix needle hay
    || match hay with
       | EmptyString => false
       | String _ rest => Js.includes rest needle
       end.
Proof. destruct hay; reflexivity. Qed.

(** [includes] finds exactly the substrings. *)
Lemma includes_intro pre needle post :
  Js.includes (pre ++ needle ++ post) needle = true.
Proof.
  induction pre as [| c pre IH]; simpl append.
  - rewrite includes_step, prefix_app. reflexivity.
  - rewrite includes_step, IH. apply orb_true_r.
Qed.

Lemma includes_elim hay needle :
  Js.includes hay needle = true ->
  exists pre post, hay = pre ++ needle ++ post.
Proof.
  induction hay as [| c hay IH]; rewrite includes_step; intros H;
    apply orb_prop in H as [H | H].
  - apply prefix_inv in H as [r ->]. exists EmptyString, r. reflexivity.
  - discriminate.
  - apply prefix_inv in H as [r ->]. exists EmptyString, r. reflexivity.
  - destruct (IH H) as (pre & post & ->). exists (String c pre), post. reflexivity.
Qed.

Lemma includes_here needle post : Js.includes (needle ++ post) needle = true.
Proof. apply (includes_intro EmptyString). Qed.

Lemma includes_refl needle : Js.includes needle needle = true.
Proof. rewrite <- (append_nil_r needle) at 1. apply includes_here. Qed.

Lemma includes_skip pre hay needle :
  Js.includes hay needle = true -> Js.includes (pre ++ hay) needle = true.
Proof.
  intros H. apply includes_elim in H as (p & q & ->).
  rewrite <- append_assoc. apply includes_intro.
Qed.

(** Finds a needle that is one of the pieces of a concatenation. *)
Ltac find_piece :=
  rewrite ?append_assoc;
  repeat first [ apply includes_here | apply includes_refl | apply includes_skip ].

Lemma includes_trans a b c :
  Js.includes a b = true -> Js.includes b c = true -> Js.includes a c = true.
Proof.
  intros Hab Hbc.
  apply includes_elim in Hab as (p1 & q1 & ->).
  apply includes_elim in Hbc as (p2 & q2 & ->).
  replace (p1 ++ (p2 ++ c ++ q2) ++ q1) with ((p1 ++ p2) ++ c ++ (q2 ++ q1))
    by (rewrite !append_assoc; reflexivity).
  apply includes_intro.
Qed.

Lemma includes_join sep parts x :
  In x parts -> Js.includes (Js.join sep parts) x = true.
Proof.
  induction parts as [| p rest IH]; [contradiction |].
  intros [-> | Hin].
  - destruct rest as [| q rest]; cbn [Js.join].
    + apply includes_refl.
    + apply includes_here.
  - destruct rest as [| q rest]; [contradiction |].
    change (Js.join sep (p :: q :: rest))
      with (p ++ sep ++ Js.join sep (q :: rest)).
    apply includes_elim in IH as (pre & post & ->); [| exact Hin].
    replace (p ++ sep ++ pre ++ x ++ post) with ((p ++ sep ++ pre) ++ x ++ post)
      by (rewrite !append_assoc; reflexivity).
    apply includes_intro.
Qed.

Lemma tweakEntries_field field t :
  In (tweakKey field, tweakOf field t) (tweakEntries t).
Proof. destruct field; simpl; auto 6. Qed.

Lemma tweakStr_mentions field t :
  tweakOf field t <> EmptyString ->
  Js.includes (tweakStr t) (tweakKey field ++ ": " ++ tweakOf field t) = true.
Proof.
  intros Hne. unfold tweakStr. apply includes_join.
  apply (in_map (fun kv => fst kv ++ ": " ++ snd kv) _
           (tweakKey field, tweakOf field t)).
  apply filter_In. split; [apply tweakEntries_field |].
  apply truthy_nonempty. exact Hne.
Qed.

Lemma tweakStr_empty_iff t :
  tweakStr t = EmptyString
  <-> t = mkTweaks EmptyString EmptyString EmptyString EmptyString EmptyString.
Proof.
  split.
  - destruct t as [[| a1 h] [| a2 c] [| a3 a] [| a4 p] [| a5 x]];
      try reflexivity; cbv [tweakStr tweakEntries hair clothing appearance
                              personality accessory filter Js.truthy snd fst
                              map Js.join];
      simpl append; discriminate.
  - intros ->. reflexivity.
Qed.

(** X6: the features of a character reach the prompts exactly when they are
    filled in. Every non-empty tweak appears as ["key: value"] in the
    character-sheet prompt of the character and in the scene prompt of any
    cast the character belongs to; when all five tweaks are empty the
    character-sheet prompt has no "Specific features" clause and the
    character alone makes the cast ["name (description)"]. *)
Theorem tweaks_reach_the_prompts
  (c : Character) (tone styleTags : string) :
  (forall field,
     tweakOf field (c_tweaks c) <> EmptyString ->
     let clause := tweakKey field ++ ": " ++ tweakOf field (c_tweaks c) in
     Js.includes (characterSheetPrompt c tone styleTags) clause = true
     /\ (forall scene cast sliders ust,
           In c cast ->
           Js.includes
             (sceneImagePrompt scene cast tone styleTags sliders ust) clause
           = true))
  /\ (c_tweaks c
      = mkTweaks EmptyString EmptyString EmptyString EmptyString EmptyString ->
      characterSheetPrompt c tone styleTags
      = "Character Sheet for " ++ c_name c ++ ". Basic Concept: "
        ++ c_description c ++ ". "
        ++ " Professional reference sheet showing front, side, and back views, solid white background, "
        ++ tone ++ " tone, " ++ styleTags
        ++ ". High quality character design. Use the attached image as the base reference for features and clothing."
      /\ characterContext [c] = c_name c ++ " (" ++ c_description c ++ ")").
Proof.
  split.
  - intros field Hne clause.
    assert (Hstr : Js.includes (tweakStr (c_tweaks c)) clause = true)
      by (apply tweakStr_mentions, Hne).
    assert (Htruthy : Js.truthy (tweakStr (c_tweaks c)) = true).
    { apply truthy_nonempty. intros Hempty.
      apply tweakStr_empty_iff in Hempty. rewrite Hempty in Hne.
      destruct field; apply Hne; reflexivity. }
    split.
    + unfold characterSheetPrompt. rewrite Htruthy.
      apply includes_trans with (b := tweakStr (c_tweaks c)); [| exact Hstr].
      find_piece.
    + intros scene cast sliders ust Hin.
      apply includes_trans with (b := tweakStr (c_tweaks c)); [| exact Hstr].
      apply includes_trans with (b := characterContext cast).
      * unfold sceneImagePrompt. find_piece.
      * apply includes_trans
          with (b := c_name c ++ " (" ++ c_description c
                     ++ (", with " ++ tweakStr (c_tweaks c)) ++ ")").
        -- unfold characterContext. apply includes_join.
           apply in_map_iff. exists c. rewrite Htruthy.
           split; [reflexivity | exact Hin].
        -- find_piece.
  - intros Hempty. unfold characterSheetPrompt, characterContext.
    cbn [map Js.join]. rewrite Hempty. split; reflexivity.
Qed.

Lemma tweaks_reach_the_prompts_witness :
  Js.includes (characterSheetPrompt ann "noir" (AGE_STYLE_TAGS Age5to7))
    "personality: shy" = true
  /\ Js.includes
       (sceneImagePrompt sceneA [ann; bob] "noir" (AGE_STYLE_TAGS Age5to7)
          None false)
       "personality: shy" = true.
Proof.
  destruct (proj1 (tweaks_reach_the_prompts ann "noir" (AGE_STYLE_TAGS Age5to7))
              Personality) as [Hsheet Hscene].
  - discriminate.
  - split; [exact Hsheet |].
    apply (Hscene sceneA [ann; bob] None false). left. reflexivity.
Defined.

(** X7: the scene prompt quotes, verbatim, the chosen source (the page text
    when [useStoryText] is set, the description otherwise), the tone, the
    style tags, the atmosphere clause, and every character of the cast as
    ["name (description"]; the source that was not chosen plays no part in
    the prompt. *)
Theorem sceneImagePrompt_quotes
  (scene : Scene) (cast : list Character) (tone styleTags : string)
  (sliders : option SceneSliders) (useStoryText : bool) :
  let prompt :=
    sceneImagePrompt scene cast tone styleTags sliders useStoryText in
  Js.includes prompt
    (if useStoryText then s_storyText scene else s_description scene) = true
  /\ Js.includes prompt tone = true
  /\ Js.includes prompt styleTags = true
  /\ Js.includes prompt (sliderContext sliders) = true
  /\ (forall c, In c cast ->
                Js.includes prompt (c_name c ++ " (" ++ c_description c) = true)
  /\ (forall other,
        (if useStoryText
         then s_storyText other = s_storyText scene
         else s_description other = s_description scene) ->
        sceneImagePrompt other cast tone styleTags sliders useStoryText
        = prompt).
Proof.
  intros prompt. subst prompt. unfold sceneImagePrompt.
  repeat apply conj; try (find_piece; fail).
  - intros c Hin.
    apply includes_trans with (b := characterContext cast); [find_piece |].
    apply includes_trans
      with (b := c_name c ++ " (" ++ c_description c
                 ++ (if Js.truthy (tweakStr (c_tweaks c))
                     then ", with " ++ tweakStr (c_tweaks c)
                     else EmptyString) ++ ")").
    + unfold characterContext. apply includes_join.
      apply in_map_iff. exists c. split; [reflexivity | exact Hin].
    + replace (c_name c ++ " (" ++ c_description c
               ++ (if Js.truthy (tweakStr (c_tweaks c))
                   then ", with " ++ tweakStr (c_tweaks c)
                   else EmptyString) ++ ")")
        with ((c_name c ++ " (" ++ c_description c)
              ++ (if Js.truthy (tweakStr (c_tweaks c))
                  then ", with " ++ tweakStr (c_tweaks c)
                  else EmptyString) ++ ")")
        by (rewrite !append_assoc; reflexivity).
      apply includes_here.
  - intros other Hsame. destruct useStoryText; rewrite Hsame; reflexivity.
Qed.

Lemma sceneImagePrompt_quotes_witness :
  Js.includes
    (sceneImagePrompt sceneA [ann; bob] "noir" (AGE_STYLE_TAGS Age5to7)
       (Some midSliders) true)
    "Bob (a sleepy bear" = true.
Proof.
  destruct (sceneImagePrompt_quotes sceneA [ann; bob] "noir"
              (AGE_STYLE_TAGS Age5to7) (Some midSliders) true)
    as (_ & _ & _ & _ & Hcast & _).
  apply (Hcast bob). right. left. reflexivity.
Defined.

(** ** Uploaded reference images *)

(** X8: the matcher inverts the data-URL encoding: from a URL it accepts it
    returns the MIME type and payload that, put back together as
    [data:<mime>;base64,<payload>], give the URL again; and it accepts every
    URL so built from a type [image/<lower-case letters>] and a non-empty
    payload on one line. In particular the result of an image call with such
    a payload is itself a recognised reference, of type [image/png]. *)
Theorem matchDataUrl_round_trip :
  (forall url mime payload,
     matchDataUrl url = Some (mime, payload) ->
     "data:" ++ mime ++ ";base64," ++ payload = url)
  /\ (forall letters payload,
        letters <> EmptyString -> all_lower letters = true ->
        payload <> EmptyString -> no_line_terminator payload = true ->
        matchDataUrl ("data:" ++ ("image/" ++ letters) ++ ";base64," ++ payload)
        = Some ("image/" ++ letters, payload))
  /\ (forall payload,
        payload <> EmptyString -> no_line_terminator payload = true ->
        matchDataUrl ("data:image/png;base64," ++ payload)
        = Some ("image/png", payload)).
Proof.
  split; [| split].
  - intros url mime payload Hm. apply matchDataUrl_iff in Hm.
    destruct Hm as (letters & -> & -> & _). reflexivity.
  - intros letters payload Hl Hlow Hp Hnl. apply matchDataUrl_iff.
    exists letters. repeat split; assumption.
  - intros payload Hp Hnl. apply matchDataUrl_iff.
    exists "png". repeat split; try assumption. discriminate.
Qed.

Lemma matchDataUrl_round_trip_witness :
  "data:" ++ "image/jpeg" ++ ";base64," ++ "QUJD" = "data:image/jpeg;base64,QUJD"
  /\ matchDataUrl ("data:image/png;base64," ++ "QUJD")
     = Some ("image/png", "QUJD").
Proof.
  split.
  - apply (proj1 matchDataUrl_round_trip "data:image/jpeg;base64,QUJD"
             "image/jpeg" "QUJD").
    reflexivity.
  - apply (proj2 (proj2 matchDataUrl_round_trip) "QUJD").
    + discriminate.
    + reflexivity.
Defined.

Lemma In_mapCharacter charId f l c :
  In c (mapCharacter charId f l)
  <-> exists c0, In c0 l
                 /\ c = (if String.eqb (c_id c0) charId then f c0 else c0).
Proof.
  unfold mapCharacter. rewrite in_map_iff.
  split; intros (c0 & H1 & H2); exists c0; split; auto.
Qed.

Lemma mapCharacter_compose charId f g l :
  (forall c, c_id (f c) = c_id c) ->
  mapCharacter charId g (mapCharacter charId f l)
  = mapCharacter charId (fun c => g (f c)) l.
Proof.
  intros Hid. unfold mapCharacter. rewrite map_map. apply map_ext. intros c.
  destruct (String.eqb (c_id c) charId) eqn:E.
  - rewrite Hid, E. reflexivity.
  - rewrite E. reflexivity.
Qed.

Lemma find_mapCharacter charId f l :
  (forall c, c_id (f c) = c_id c) ->
  find (fun c => String.eqb (c_id c) charId) (mapCharacter charId f l)
  = option_map f (find (fun c => String.eqb (c_id c) charId) l).
Proof.
  intros Hid. unfold mapCharacter.
  induction l as [| c l IH]; [reflexivity |]. cbn [map find].
  destruct (String.eqb (c_id c) charId) eqn:E.
  - rewrite Hid, E. reflexivity.
  - rewrite E. exact IH.
Qed.

(** The requests of [handleGenerateCharacter] are those of the character
    sheet of the character it found, built with the tone and the style tags
    of the session. *)
Lemma handleGenerateCharacter_requests {platform : Platform} charId st sys char :
  find (fun c => String.eqb (c_id c) charId) (characters st) = Some char ->
  exists k,
    requests (log (snd (handleGenerateCharacter charId (st, sys))))
    = (requests (log sys)
       ++ repeat (characterSheetRequest char (p_tone (params st))
                    (AGE_STYLE_TAGS (p_ageGroup (params st))))
            (S k))%list.
Proof.
  intros Hfind.
  unfold handleGenerateCharacter, handleGenerateCharacter_begin.
  cbn [fst snd]. rewrite Hfind.
  destruct (generateCharacterSheet_requests char (p_tone (params st))
              (AGE_STYLE_TAGS (p_ageGroup (params st))) sys) as [k Hk].
  exists k.
  destruct (generateCharacterSheet char (p_tone (params st))
              (AGE_STYLE_TAGS (p_ageGroup (params st))) sys)
    as [[sheetUrl | error] sys1]; cbn [snd] in Hk;
    unfold handleGenerateCharacter_settle, handleError, upd; cbn [fst snd].
  - exact Hk.
  - rewrite requests_emit, app_nil_r. exact Hk.
Qed.

(** X9: an uploaded photo reaches the next character-sheet request. After
    [handleUploadPhoto] stored a data URL of the recognised form for
    [charId], every request [handleGenerateCharacter] sends for that id (at
    least one, if a character has the id) carries the decoded image first
    and the text prompt of the character second; after the photo is removed
    again its requests carry the text prompt alone. The same holds of the
    request of every character with that id. Characters with another id are
    left as they were, and without a file the handler does nothing. *)
Theorem uploaded_photo_reaches_request {platform : Platform}
  (st : Session) (sys : Sys) (charId url mime payload tone styleTags : string) :
  embeddedImage url mime payload ->
  let uploaded := handleUploadPhoto charId (Some url) st in
  let cleared := clearUploadedPhoto charId uploaded in
  (forall c0,
      find (fun c => String.eqb (c_id c) charId) (characters st) = Some c0 ->
      let prompt := characterSheetPrompt c0 (p_tone (params st))
                      (AGE_STYLE_TAGS (p_ageGroup (params st))) in
      (exists k,
          requests (log (snd (handleGenerateCharacter charId (uploaded, sys))))
          = (requests (log sys)
             ++ repeat (ImageRequest DEFAULT_MODELS_image
                          [InlinePart (mkInline mime payload); TextPart prompt]
                          "1:1")
                  (S k))%list)
      /\ (exists k,
            requests (log (snd (handleGenerateCharacter charId (cleared, sys))))
            = (requests (log sys)
               ++ repeat (ImageRequest DEFAULT_MODELS_image [TextPart prompt]
                            "1:1")
                    (S k))%list))
  /\ (forall c, In c (characters uploaded) -> c_id c = charId ->
                characterSheetRequest c tone styleTags
                = ImageRequest DEFAULT_MODELS_image
                    [InlinePart (mkInline mime payload);
                     TextPart (characterSheetPrompt c tone styleTags)]
                    "1:1")
  /\ (forall c, In c (characters cleared) -> c_id c = charId ->
                characterSheetRequest c tone styleTags
                = ImageRequest DEFAULT_MODELS_image
                    [TextPart (characterSheetPrompt c tone styleTags)] "1:1")
  /\ (forall c, c_id c <> charId ->
                (In c (characters uploaded) <-> In c (characters st)))
  /\ map c_id (characters uploaded) = map c_id (characters st)
  /\ handleUploadPhoto charId None st = st.
Proof.
  intros Hm uploaded cleared.
  assert (Htruthy : Js.truthy url = true)
    by (destruct Hm as (letters & -> & _); reflexivity).
  apply matchDataUrl_iff in Hm.
  subst cleared uploaded. unfold clearUploadedPhoto, handleUploadPhoto.
  split; [| cbn [characters setCharacters]; split; [| split; [| split; [| split]]]].
  - intros c0 Hfind.
    destruct st as [stp ld em us ps cs scs ae es].
    cbn [characters] in Hfind.
    cbv [setCharacters characters step loading errorMessage sessionUsage params
           scenes activeEditingScene editingSliders].
    rewrite mapCharacter_compose by reflexivity.
    split.
    + destruct (handleGenerateCharacter_requests charId
                  (mkSession stp ld em us ps
                     (mapCharacter charId (characterWithUpload (Some url)) cs)
                     scs ae es)
                  sys (characterWithUpload (Some url) c0)) as [k Hk].
      { cbn [characters]. rewrite find_mapCharacter by reflexivity.
        rewrite Hfind. reflexivity. }
      exists k. rewrite Hk. cbn [params].
      unfold characterSheetRequest, characterSheetParts.
      cbn [characterWithUpload c_uploadUrl]. rewrite Htruthy, Hm.
      reflexivity.
    + destruct (handleGenerateCharacter_requests charId
                  (mkSession stp ld em us ps
                     (mapCharacter charId
                        (fun s => characterWithUpload None
                                    (characterWithUpload (Some url) s)) cs)
                     scs ae es)
                  sys (characterWithUpload None
                         (characterWithUpload (Some url) c0))) as [k Hk].
      { cbn [characters]. rewrite find_mapCharacter by reflexivity.
        rewrite Hfind. reflexivity. }
      exists k. rewrite Hk. reflexivity.
  - intros c Hin Hid. apply In_mapCharacter in Hin as (c0 & _ & ->).
    destruct (String.eqb (c_id c0) charId) eqn:E.
    + unfold characterSheetRequest, characterSheetParts.
      cbn [characterWithUpload c_uploadUrl]. rewrite Htruthy, Hm. reflexivity.
    + apply String.eqb_neq in E. contradiction.
  - intros c Hin Hid. apply In_mapCharacter in Hin as (c0 & Hin0 & ->).
    destruct (String.eqb (c_id c0) charId) eqn:E.
    + reflexivity.
    + apply String.eqb_neq in E. contradiction.
  - intros c Hne. rewrite In_mapCharacter. split.
    + intros (c0 & Hin0 & ->).
      destruct (String.eqb (c_id c0) charId) eqn:E; [| exact Hin0].
      apply String.eqb_eq in E. cbn [characterWithUpload c_id] in Hne.
      contradiction.
    + intros Hin. exists c. split; [exact Hin |].
      apply String.eqb_neq in Hne. rewrite Hne. reflexivity.
  - unfold mapCharacter. rewrite map_map. apply map_ext. intros c.
    destruct (String.eqb (c_id c) charId); reflexivity.
  - reflexivity.
Qed.

Lemma uploaded_photo_reaches_request_witness :
  exists k,
    requests
      (log (snd (@handleGenerateCharacter Scripted "char-2"
                   (handleUploadPhoto "char-2"
                      (Some "data:image/webp;base64,UklGRg") book,
                    scripted [Ok (imageResponse "QUFB")]))))
    = (requests []
       ++ repeat (ImageRequest DEFAULT_MODELS_image
                    [InlinePart (mkInline "image/webp" "UklGRg");
                     TextPart (characterSheetPrompt bob "noir"
                                 (AGE_STYLE_TAGS Age5to7))]
                    "1:1")
            (S k))%list.
Proof.
  apply (proj1 (@uploaded_photo_reaches_request Scripted book
                  (scripted [Ok (imageResponse "QUFB")]) "char-2"
                  "data:image/webp;base64,UklGRg" "image/webp" "UklGRg"
                  "noir" (AGE_STYLE_TAGS Age5to7)
                  (proj1 (matchDataUrl_iff "data:image/webp;base64,UklGRg"
                            "image/webp" "UklGRg") eq_refl))
           bob eq_refl).
Defined.

(** ** Single generations: what they leave behind *)

Lemma mapScene_compose sceneId f g l :
  (forall s, s_id (f s) = s_id s) ->
  mapScene sceneId g (mapScene sceneId f l)
  = mapScene sceneId (fun s => g (f s)) l.
Proof.
  intros Hid. unfold mapScene. rewrite map_map. apply map_ext. intros s.
  destruct (s_id s =? sceneId) eqn:E.
  - rewrite Hid, E. reflexivity.
  - rewrite E. reflexivity.
Qed.

Lemma mapScene_absent sceneId f l :
  find (fun s => s_id s =? sceneId) l = None -> mapScene sceneId f l = l.
Proof.
  induction l as [| s l IH]; simpl; [reflexivity |].
  destruct (s_id s =? sceneId); [discriminate |].
  intros H. rewrite (IH H). reflexivity.
Qed.

Lemma In_mapScene sceneId f l s :
  In s (mapScene sceneId f l)
  <-> exists s0, In s0 l /\ s = (if s_id s0 =? sceneId then f s0 else s0).
Proof.
  unfold mapScene. rewrite in_map_iff.
  split; intros (s0 & H1 & H2); exists s0; split; auto.
Qed.

(** Reduces the handlers' state updates on a state given by its fields. *)
Ltac run_setters :=
  cbv [upd handleError setStep setLoading setErrorMessage incrementUsage
         setParams setCharacters setScenes setActiveEditingScene fst snd
         step loading errorMessage sessionUsage params characters scenes
         activeEditingScene editingSliders].

(** X10: [handleGenerateCharacter] for an id no character has does nothing
    and sends nothing. For an id that is found it always clears the flag it
    set: afterwards every character with that id has [isGenerating] false,
    with the new sheet after a success (usage counter incremented, no error
    message) or with its old sheet after a failure (usage counter unchanged,
    error message set); characters with other ids, the scenes, the
    parameters, the step and [loading] are untouched. *)
Theorem handleGenerateCharacter_settles {platform : Platform}
  (charId : string) (a : App) :
  let st := fst a in
  let a' := handleGenerateCharacter charId a in
  (find (fun c => String.eqb (c_id c) charId) (characters st) = None -> a' = a)
  /\ (forall char,
        find (fun c => String.eqb (c_id c) charId) (characters st) = Some char ->
        let outcome :=
          fst (generateCharacterSheet char (p_tone (params st))
                 (AGE_STYLE_TAGS (p_ageGroup (params st))) (snd a)) in
        characters (fst a')
        = mapCharacter charId
            (match outcome with
             | Ok sheetUrl => characterSheetReady sheetUrl
             | Err _ => characterGenerating false
             end)
            (characters st)
        /\ (forall c, In c (characters (fst a')) -> c_id c = charId ->
                      c_isGenerating c = Some false)
        /\ sessionUsage (fst a')
           = sessionUsage st + match outcome with Ok _ => 1 | Err _ => 0 end
        /\ errorMessage (fst a')
           = match outcome with
             | Ok _ => None
             | Err error => Some (userMessage error)
             end
        /\ scenes (fst a') = scenes st
        /\ params (fst a') = params st
        /\ step (fst a') = step st
        /\ loading (fst a') = loading st).
Proof.
  intros st a'. subst st a'. unfold handleGenerateCharacter,
    handleGenerateCharacter_begin, handleGenerateCharacter_settle.
  split.
  - intros Hfind. rewrite Hfind. reflexivity.
  - intros char Hfind. rewrite Hfind.
    destruct a as [st sys]. destruct st as [stp ld em us ps cs scs ae es].
    cbn [fst snd characters params] in *.
    destruct (generateCharacterSheet char (p_tone ps)
                (AGE_STYLE_TAGS (p_ageGroup ps)) sys) as [[url | e] sys1];
      run_setters.
    + assert (Hcs : mapCharacter charId (characterSheetReady url)
                      (mapCharacter charId (characterGenerating true) cs)
                    = mapCharacter charId (characterSheetReady url) cs)
        by (rewrite mapCharacter_compose by reflexivity; reflexivity).
      rewrite Hcs. repeat split; try reflexivity.
      intros c Hin Hid. apply In_mapCharacter in Hin as (c0 & _ & ->).
      destruct (String.eqb (c_id c0) charId) eqn:E; [reflexivity |].
      apply String.eqb_neq in E. contradiction.
    + assert (Hcs : mapCharacter charId (characterGenerating false)
                      (mapCharacter charId (characterGenerating true) cs)
                    = mapCharacter charId (characterGenerating false) cs)
        by (rewrite mapCharacter_compose by reflexivity; reflexivity).
      rewrite Hcs. repeat split; try reflexivity; try lia.
      intros c Hin Hid. apply In_mapCharacter in Hin as (c0 & _ & ->).
      destruct (String.eqb (c_id c0) charId) eqn:E; [reflexivity |].
      apply String.eqb_neq in E. contradiction.
Qed.

Lemma handleGenerateCharacter_settles_witness :
  characters (fst (@handleGenerateCharacter Scripted "char-1"
                     (book, scripted [Ok refusalResponse])))
  = mapCharacter "char-1" (characterGenerating false) (characters book)
  /\ errorMessage (fst (@handleGenerateCharacter Scripted "char-1"
                          (book, scripted [Ok refusalResponse])))
     = Some (userMessage (Error "No image data returned from API")).
Proof.
  destruct (proj2 (@handleGenerateCharacter_settles Scripted "char-1"
                     (book, scripted [Ok refusalResponse])) ann eq_refl)
    as (Hcs & _ & _ & Hmsg & _).
  split; [exact Hcs | exact Hmsg].
Defined.

(** X11: [handleRegenerateScene] always ends with [loading] false and with
    [isGenerating] false on every scene of the given id, the new image
    attached after a success (usage counter incremented) and the old image
    kept after a failure (error message set); other scenes, the characters
    and the parameters are untouched. For an id no scene has, no request is
    sent at all: reading the sliders of the missing scene throws, the scene
    list is unchanged and the error is reported. *)
Theorem handleRegenerateScene_settles {platform : Platform}
  (sceneId : Z) (useStoryText : bool) (a : App) :
  let st := fst a in
  let a' := handleRegenerateScene sceneId useStoryText a in
  (find (fun s => s_id s =? sceneId) (scenes st) = None ->
   scenes (fst a') = scenes st
   /\ errorMessage (fst a')
      = Some "An unexpected error occurred: Cannot read properties of undefined (reading 'sliders')"
   /\ requests (log (snd a')) = requests (log (snd a))
   /\ world (snd a') = world (snd a)
   /\ sessionUsage (fst a') = sessionUsage st)
  /\ (forall sc,
        find (fun s => s_id s =? sceneId) (scenes st) = Some sc ->
        let outcome :=
          fst (generateSceneImage sc (characters st) (p_tone (params st))
                 (AGE_STYLE_TAGS (p_ageGroup (params st))) (s_sliders sc)
                 useStoryText (snd a)) in
        scenes (fst a')
        = mapScene sceneId
            (match outcome with
             | Ok imageUrl => sceneImageReady imageUrl
             | Err _ => sceneGenerating false
             end)
            (scenes st)
        /\ (forall s, In s (scenes (fst a')) -> s_id s = sceneId ->
                      s_isGenerating s = Some false)
        /\ sessionUsage (fst a')
           = sessionUsage st + match outcome with Ok _ => 1 | Err _ => 0 end
        /\ errorMessage (fst a')
           = match outcome with
             | Ok _ => None
             | Err error => Some (userMessage error)
             end)
  /\ loading (fst a') = false
  /\ characters (fst a') = characters st
  /\ params (fst a') = params st
  /\ step (fst a') = step st.
Proof.
  intros st a'. subst st a'.
  unfold handleRegenerateScene, sceneGeneration_settle.
  destruct a as [st sys]. destruct st as [stp ld em us ps cs scs ae es].
  cbn [fst snd scenes characters params].
  split; [| split].
  - intros Hfind. rewrite Hfind. run_setters.
    rewrite !(mapScene_absent _ _ _ Hfind).
    cbn [emit world log]. rewrite requests_app, app_nil_r.
    repeat split; reflexivity.
  - intros sc Hfind. rewrite Hfind.
    match goal with
    | |- context [generateSceneImage ?x1 ?x2 ?x3 ?x4 ?x5 ?x6 ?x7] =>
        replace (generateSceneImage x1 x2 x3 x4 x5 x6 x7)
          with (generateSceneImage sc cs (p_tone ps)
                  (AGE_STYLE_TAGS (p_ageGroup ps)) (s_sliders sc)
                  useStoryText sys) by reflexivity
    end.
    destruct (generateSceneImage sc cs (p_tone ps)
                (AGE_STYLE_TAGS (p_ageGroup ps)) (s_sliders sc) useStoryText
                sys) as [[url | e] sys1];
      run_setters;
      rewrite mapScene_compose by reflexivity;
      (repeat split; try reflexivity; try lia);
      intros s Hin Hid; apply In_mapScene in Hin as (s0 & _ & ->);
      (destruct (s_id s0 =? sceneId) eqn:E; [reflexivity |]);
      apply Z.eqb_neq in E; contradiction.
  - destruct (find (fun s => s_id s =? sceneId) scs) as [sc |];
      [destruct (generateSceneImage _ _ _ _ _ _ _) as [[url | e] sys1] |];
      run_setters; repeat split; reflexivity.
Qed.

Lemma handleRegenerateScene_settles_witness :
  scenes (fst (@handleRegenerateScene Scripted 2 true
                 (book, scripted [Ok (imageResponse "QUJD")])))
  = mapScene 2 (sceneImageReady "data:image/png;base64,QUJD") (scenes book)
  /\ scenes (fst (@handleRegenerateScene Scripted 9 true
                    (book, scripted [Ok (imageResponse "QUJD")])))
     = scenes book.
Proof.
  split.
  - destruct (proj1 (proj2 (@handleRegenerateScene_settles Scripted 2 true
                              (book, scripted [Ok (imageResponse "QUJD")])))
                sceneB eq_refl) as (Hsc & _).
    exact Hsc.
  - destruct (proj1 (@handleRegenerateScene_settles Scripted 9 true
                       (book, scripted [Ok (imageResponse "QUJD")]))
                eq_refl) as (Hsc & _).
    exact Hsc.
Defined.

(** X12: [tweakSceneAction] stores the edits before it calls the model and
    they stay whatever the call does: afterwards every scene with the given
    id has the new description, the new page text and the edited sliders,
    and [isGenerating] false, with the new image after a success and the
    image it had before after a failure. The request is built from the new
    texts and the edited sliders; the editor is closed and [loading] is
    false. *)
Theorem tweakSceneAction_keeps_edits {platform : Platform}
  (sceneId : Z) (newDescription newStoryText : string) (useStoryText : bool)
  (a : App) :
  let st := fst a in
  let a' := tweakSceneAction sceneId newDescription newStoryText useStoryText a in
  exists outcome edited,
    s_description edited = newDescription
    /\ s_storyText edited = newStoryText
    /\ outcome
       = fst (generateSceneImage edited (characters st) (p_tone (params st))
                (AGE_STYLE_TAGS (p_ageGroup (params st)))
                (Some (editingSliders st)) useStoryText (snd a))
    /\ scenes (fst a')
       = mapScene sceneId
           (fun s =>
              mkScene (s_id s) newDescription newStoryText
                (match outcome with
                 | Ok imageUrl => Some imageUrl
                 | Err _ => s_imageUrl s
                 end)
                (Some false) (Some (editingSliders st)))
           (scenes st)
    /\ errorMessage (fst a')
       = match outcome with
         | Ok _ => None
         | Err error => Some (userMessage error)
         end
    /\ sessionUsage (fst a')
       = sessionUsage st + match outcome with Ok _ => 1 | Err _ => 0 end
    /\ activeEditingScene (fst a') = None
    /\ loading (fst a') = false
    /\ characters (fst a') = characters st
    /\ params (fst a') = params st.
Proof.
  intros st a'. subst st a'. unfold tweakSceneAction, sceneGeneration_settle.
  destruct a as [st sys]. destruct st as [stp ld em us ps cs scs ae es].
  cbn [fst snd scenes characters params editingSliders].
  match goal with
  | |- context [generateSceneImage ?x1 ?x2 ?x3 ?x4 ?x5 ?x6 ?x7] =>
      exists (fst (generateSceneImage x1 cs (p_tone ps)
                     (AGE_STYLE_TAGS (p_ageGroup ps)) (Some es) useStoryText
                     sys)), x1;
      replace (generateSceneImage x1 x2 x3 x4 x5 x6 x7)
        with (generateSceneImage x1 cs (p_tone ps)
                (AGE_STYLE_TAGS (p_ageGroup ps)) (Some es) useStoryText sys)
        by reflexivity;
      destruct (generateSceneImage x1 cs (p_tone ps)
                  (AGE_STYLE_TAGS (p_ageGroup ps)) (Some es) useStoryText sys)
        as [[url | e] sys1]
  end;
    run_setters; rewrite mapScene_compose by reflexivity;
    (split; [destruct (find _ _); reflexivity |]);
    (split; [destruct (find _ _); reflexivity |]);
    repeat split; try reflexivity; try lia.
Qed.

(** ** The batch: what it keeps, what it sends, what it achieves *)

Lemma Forall2_refl_on {A} (R : A -> A -> Prop) l :
  (forall x, R x x) -> Forall2 R l l.
Proof. intros HR. induction l; constructor; auto. Qed.

Lemma Forall2_trans_on {A} (R : A -> A -> Prop) l1 l2 l3 :
  (forall x y z, R x y -> R y z -> R x z) ->
  Forall2 R l1 l2 -> Forall2 R l2 l3 -> Forall2 R l1 l3.
Proof.
  intros HR H12. revert l3.
  induction H12 as [| x y l1 l2 Hxy _ IH]; intros l3 H23;
    inversion H23; subst; constructor; eauto.
Qed.

Lemma Forall2_map_r {A B} (R : A -> B -> Prop) (f : A -> B) l :
  (forall x, R x (f x)) -> Forall2 R l (map f l).
Proof. intros HR. induction l; simpl; constructor; auto. Qed.

Lemma Forall2_map_l_inv {A B} (R : A -> B -> Prop) (f : A -> A) l l' :
  Forall2 R (map f l) l' -> Forall2 (fun x y => R (f x) y) l l'.
Proof.
  revert l'. induction l as [| x l IH]; intros l' H; simpl in H;
    inversion H; subst; constructor; auto.
Qed.

Lemma keepsPage_refl s : keepsPage s s.
Proof. unfold keepsPage. auto. Qed.

Lemma keepsPage_trans s1 s2 s3 :
  keepsPage s1 s2 -> keepsPage s2 s3 -> keepsPage s1 s3.
Proof.
  unfold keepsPage. intros (H1 & H2 & H3 & H4 & H5) (K1 & K2 & K3 & K4 & K5).
  repeat split; try congruence. auto.
Qed.

Lemma keepsPage_mapScene sceneId f l :
  (forall s, keepsPage s (f s)) -> Forall2 keepsPage l (mapScene sceneId f l).
Proof.
  intros Hf. unfold mapScene. apply Forall2_map_r. intros s.
  destruct (s_id s =? sceneId); [apply Hf | apply keepsPage_refl].
Qed.

Lemma generateSceneImage_ok_truthy {platform : Platform}
  scene cast tone styleTags sliders ust s url s' :
  generateSceneImage scene cast tone styleTags sliders ust s = (Ok url, s') ->
  Js.truthy url = true.
Proof.
  intros Hrun. apply retryLoop_outcome in Hrun as [s0 Hatt].
  apply image_attempt_ok in Hatt as (resp & _ & Hfirst).
  apply firstInlineImage_ok in Hfirst as (pre & part & blob & post & _ & _ & _ & ->).
  reflexivity.
Qed.

Section BatchFacts.
Context {platform : Platform}.

(** The loop changes nothing but the images and flags of the scenes and the
    usage counter, which it only raises. *)
Lemma generateAllScenes_loop_frame snap todo a :
  let r := generateAllScenes_loop snap todo a in
  Forall2 keepsPage (scenes (fst a)) (scenes (fst (snd r)))
  /\ sessionUsage (fst a) <= sessionUsage (fst (snd r))
  /\ step (fst (snd r)) = step (fst a)
  /\ loading (fst (snd r)) = loading (fst a)
  /\ errorMessage (fst (snd r)) = errorMessage (fst a)
  /\ params (fst (snd r)) = params (fst a)
  /\ characters (fst (snd r)) = characters (fst a)
  /\ activeEditingScene (fst (snd r)) = activeEditingScene (fst a)
  /\ editingSliders (fst (snd r)) = editingSliders (fst a).
Proof.
  revert a. induction todo as [| scene rest IH]; intros a;
    cbn [generateAllScenes_loop].
  - cbn [snd]. split; [apply Forall2_refl_on, keepsPage_refl |].
    split; [lia |]. repeat split; reflexivity.
  - destruct (Js.truthy_opt (s_imageUrl scene)); [apply IH |].
    destruct a as [st sys]. destruct st as [stp ld em us ps cs scs ae es].
    destruct (generateSceneImage scene (characters snap) (p_tone (params snap))
                (AGE_STYLE_TAGS (p_ageGroup (params snap))) None false _)
      as [[url | e] sys1] eqn:Hgen.
    + match goal with
      | |- context [generateAllScenes_loop snap rest ?x] =>
          specialize (IH x); revert IH
      end.
      run_setters. cbv zeta.
      intros (Hsc & Hus & Hrest).
      split; [| split; [lia | exact Hrest]].
      eapply Forall2_trans_on; [exact keepsPage_trans | | exact Hsc].
      eapply Forall2_trans_on; [exact keepsPage_trans | |].
      * apply (keepsPage_mapScene (s_id scene) (sceneGenerating true)).
        intros s. unfold keepsPage. repeat split; auto.
      * apply keepsPage_mapScene.
        intros s. unfold keepsPage, hasImage. repeat split; try reflexivity.
        intros _. cbn [sceneImageReady s_imageUrl Js.truthy_opt].
        eapply generateSceneImage_ok_truthy, Hgen.
    + run_setters. cbv zeta.
      split; [| split; [lia | repeat split; reflexivity]].
      apply (keepsPage_mapScene (s_id scene) (sceneGenerating true)).
      intros s. unfold keepsPage. repeat split; auto.
Qed.

End BatchFacts.

Lemma keepsPage_map {B} (g : Scene -> B) l l' :
  (forall s s', keepsPage s s' -> g s' = g s) ->
  Forall2 keepsPage l l' -> map g l' = map g l.
Proof.
  intros Hg H. induction H; simpl; [reflexivity |]. f_equal; auto.
Qed.

(** X13: whatever the model answers, [generateAllScenes] keeps the book: the
    scene list afterwards has the same pages in the same order, each with
    its id, description, page text and sliders unchanged, and every scene
    that had an image still has one; characters, parameters and the editing
    state are untouched, the usage counter does not decrease, the step is
    Scenes and [loading] is false. *)
Theorem generateAllScenes_keeps_the_book {platform : Platform} (a : App) :
  let st := fst a in
  let st' := fst (generateAllScenes a) in
  Forall2 keepsPage (scenes st) (scenes st')
  /\ List.length (scenes st') = List.length (scenes st)
  /\ map s_id (scenes st') = map s_id (scenes st)
  /\ map s_description (scenes st') = map s_description (scenes st)
  /\ map s_storyText (scenes st') = map s_storyText (scenes st)
  /\ map s_sliders (scenes st') = map s_sliders (scenes st)
  /\ sessionUsage st <= sessionUsage st'
  /\ characters st' = characters st
  /\ params st' = params st
  /\ activeEditingScene st' = activeEditingScene st
  /\ editingSliders st' = editingSliders st
  /\ step st' = Scenes
  /\ loading st' = false.
Proof.
  intros st st'.
  assert (Hall : Forall2 keepsPage (scenes st) (scenes st')
                 /\ sessionUsage st <= sessionUsage st'
                 /\ characters st' = characters st
                 /\ params st' = params st
                 /\ activeEditingScene st' = activeEditingScene st
                 /\ editingSliders st' = editingSliders st
                 /\ step st' = Scenes
                 /\ loading st' = false).
  { subst st st'. unfold generateAllScenes.
    destruct a as [st sys]. destruct st as [stp ld em us ps cs scs ae es].
    match goal with
    | |- context [generateAllScenes_loop ?snap ?todo ?x] =>
        pose proof (generateAllScenes_loop_frame snap todo x) as Hframe;
        destruct (generateAllScenes_loop snap todo x) as [outcome [st2 sys2]]
    end.
    revert Hframe. run_setters. cbv zeta.
    destruct st2 as [stp2 ld2 em2 us2 ps2 cs2 scs2 ae2 es2].
    intros (Hsc & Hus & Hstep & Hld & Hem & Hps & Hcs & Hae & Hes).
    destruct outcome; run_setters; subst;
      (split; [exact Hsc |]); (split; [exact Hus |]); repeat split; reflexivity. }
  destruct Hall as (Hsc & Hus & Hrest).
  split; [exact Hsc |].
  split; [symmetry; apply (Forall2_length Hsc) |].
  split; [apply (keepsPage_map s_id _ _ ltac:(intros ? ? H; apply H) Hsc) |].
  split; [apply (keepsPage_map s_description _ _
                   ltac:(intros ? ? H; apply H) Hsc) |].
  split; [apply (keepsPage_map s_storyText _ _
                   ltac:(intros ? ? H; apply H) Hsc) |].
  split; [apply (keepsPage_map s_sliders _ _
                   ltac:(intros ? ? H; apply H) Hsc) |].
  split; [exact Hus | exact Hrest].
Qed.

Lemma Forall2_forallb {A} (R : A -> A -> Prop) (P : A -> bool) l l' :
  Forall2 R l l' ->
  (forall x y, In x l -> R x y -> P y = true) ->
  forallb P l' = true.
Proof.
  induction 1 as [| x y l l' Hxy _ IH]; intros HP; simpl; [reflexivity |].
  rewrite (HP x y (or_introl eq_refl) Hxy). apply IH.
  intros x0 y0 Hin. apply HP. right. exact Hin.
Qed.

Section BatchSuccess.
Context {platform : Platform}.

(** The calls the loop makes all succeed exactly when the loop runs to its
    end. *)
Lemma generateAllScenes_loop_ok snap todo a :
  allCallsSucceed snap todo (snd a)
  <-> fst (generateAllScenes_loop snap todo a) = Ok tt.
Proof.
  revert a. induction todo as [| scene rest IH]; intros a;
    cbn [generateAllScenes_loop allCallsSucceed].
  - cbn [fst]. split; [reflexivity | intros _; exact I].
  - destruct (Js.truthy_opt (s_imageUrl scene)); [apply IH |].
    destruct a as [st sys]. cbn [upd fst snd].
    destruct (generateSceneImage scene (characters snap) (p_tone (params snap))
                (AGE_STYLE_TAGS (p_ageGroup (params snap))) None false sys)
      as [[url | e] sys1].
    + match goal with
      | |- context [generateAllScenes_loop snap rest ?x] => apply (IH x)
      end.
    + cbn [fst]. split; [contradiction | discriminate].
Qed.

(** When every call succeeds the loop illustrates every scene whose id is
    the id of a scene it found without an image. *)
Lemma generateAllScenes_loop_success snap todo a :
  allCallsSucceed snap todo (snd a) ->
  let r := generateAllScenes_loop snap todo a in
  let ids := map s_id (filter (fun s => negb (hasImage s)) todo) in
  fst r = Ok tt
  /\ Forall2 (illustratedIf ids) (scenes (fst a)) (scenes (fst (snd r)))
  /\ sessionUsage (fst (snd r))
     = sessionUsage (fst a) + Z.of_nat (List.length ids).
Proof.
  revert a. induction todo as [| scene rest IH]; intros a Hall;
    cbn [generateAllScenes_loop filter map List.length].
  - cbn [fst snd]. split; [reflexivity |]. split; [| lia].
    apply Forall2_refl_on. intros s. split; [contradiction | reflexivity].
  - change (hasImage scene) with (Js.truthy_opt (s_imageUrl scene)).
    cbn [allCallsSucceed] in Hall.
    destruct (Js.truthy_opt (s_imageUrl scene)) eqn:Himg; cbn [negb].
    + apply IH, Hall.
    + destruct a as [st sys]. destruct st as [stp ld em us ps cs scs ae es].
      cbn [snd] in Hall.
      match goal with
      | |- context [generateSceneImage ?x1 ?x2 ?x3 ?x4 ?x5 ?x6 ?x7] =>
          change x7 with sys
      end.
      destruct (generateSceneImage scene (characters snap)
                  (p_tone (params snap))
                  (AGE_STYLE_TAGS (p_ageGroup (params snap))) None false sys)
        as [[url | e] sys1] eqn:Hgen; [| contradiction].
      match goal with
      | |- context [generateAllScenes_loop snap rest ?x] =>
          specialize (IH x Hall); revert IH
      end.
      run_setters. cbv zeta. cbn [map List.length].
      rewrite mapScene_compose by reflexivity.
      intros (Hok & Hsc & Hus).
      split; [exact Hok |]. split; [| rewrite Hus; lia].
      apply Forall2_map_l_inv in Hsc.
      eapply Forall2_impl; [| exact Hsc].
      intros x y [Hin Hout]. cbv beta in Hin, Hout.
      assert (Hurl : Js.truthy url = true)
        by (eapply generateSceneImage_ok_truthy, Hgen).
      destruct (s_id x =? s_id scene) eqn:E.
      * apply Z.eqb_eq in E. cbn [sceneImageReady sceneGenerating s_id] in Hin, Hout.
        split.
        -- intros _.
           destruct (in_dec Z.eq_dec (s_id x)
                       (map s_id (filter (fun s => negb (hasImage s)) rest)))
             as [Hyes | Hno].
           ++ apply Hin, Hyes.
           ++ rewrite (Hout Hno). unfold hasImage. cbn. rewrite Hurl.
              split; reflexivity.
        -- intros Hnot. exfalso. apply Hnot. left. symmetry. exact E.
      * apply Z.eqb_neq in E. split.
        -- intros [Heq | Hyes]; [exfalso; apply E; symmetry; exact Heq |].
           apply Hin, Hyes.
        -- intros Hnot. apply Hout. intros Hyes. apply Hnot. right. exact Hyes.
Qed.

End BatchSuccess.

(** X14: every call the batch makes succeeds exactly when
    [generateAllScenes] ends without an error message. In that case it ends
    with an image on every scene (so the book is ready as soon as it has a
    page) and the usage counter raised by the number of scenes that had no
    image. Scenes whose id is not the id of a scene without an image are
    left exactly as they were; the others end with an image and
    [isGenerating] false. *)
Theorem generateAllScenes_all_succeed {platform : Platform} (a : App) :
  let st := fst a in
  let st' := fst (generateAllScenes a) in
  let pending := filter (fun s => negb (hasImage s)) (scenes st) in
  (allCallsSucceed st (scenes st) (snd a) <-> errorMessage st' = None)
  /\ (allCallsSucceed st (scenes st) (snd a) ->
      forallb hasImage (scenes st') = true
      /\ (scenes st <> [] -> allImagesReady st' = true)
      /\ errorMessage st' = None
      /\ sessionUsage st' = sessionUsage st + Z.of_nat (List.length pending)
      /\ Forall2 (illustratedIf (map s_id pending)) (scenes st) (scenes st')).
Proof.
  intros st st' pending. split.
  - subst st st'. unfold generateAllScenes.
    destruct a as [st sys]. destruct st as [stp ld em us ps cs scs ae es].
    cbn [fst snd scenes].
    match goal with
    | |- context [generateAllScenes_loop ?snap ?todo ?x] =>
        pose proof (generateAllScenes_loop_ok snap todo x) as Hok;
        pose proof (generateAllScenes_loop_frame snap todo x) as Hframe;
        destruct (generateAllScenes_loop snap todo x) as [outcome [st2 sys2]]
    end.
    revert Hok Hframe. run_setters. cbv zeta.
    destruct st2 as [stp2 ld2 em2 us2 ps2 cs2 scs2 ae2 es2].
    intros Hok (_ & _ & _ & _ & Hem & _). rewrite Hok.
    destruct outcome as [[] | e]; run_setters.
    + split; [intros _; exact Hem | reflexivity].
    + split; discriminate.
  - intros Hall.
    assert (Hmain : errorMessage st' = None
                    /\ sessionUsage st'
                       = sessionUsage st + Z.of_nat (List.length pending)
                    /\ Forall2 (illustratedIf (map s_id pending))
                         (scenes st) (scenes st')).
    { subst st st' pending. unfold generateAllScenes.
      destruct a as [st sys]. destruct st as [stp ld em us ps cs scs ae es].
      cbn [fst snd scenes characters params] in *.
      match goal with
      | |- context [generateAllScenes_loop ?snap ?todo ?x] =>
          pose proof (generateAllScenes_loop_success snap todo x Hall) as Hloop;
          pose proof (generateAllScenes_loop_frame snap todo x) as Hframe;
          destruct (generateAllScenes_loop snap todo x) as [outcome [st2 sys2]]
      end.
      revert Hloop Hframe. run_setters. cbv zeta. rewrite length_map.
      destruct st2 as [stp2 ld2 em2 us2 ps2 cs2 scs2 ae2 es2].
      intros (Hok & Hsc & Hus) (_ & _ & _ & _ & Hem & _).
      cbn [fst] in Hok. subst outcome. run_setters.
      repeat split; assumption. }
    destruct Hmain as (Hem & Hus & Hsc).
    assert (Hready : forallb hasImage (scenes st') = true).
    { apply (Forall2_forallb _ _ _ _ Hsc). intros x y Hin [Hyes Hno].
      destruct (hasImage x) eqn:Hx.
      - destruct (in_dec Z.eq_dec (s_id x) (map s_id pending)) as [Hi | Hi].
        + apply Hyes, Hi.
        + rewrite (Hno Hi). exact Hx.
      - apply Hyes. apply in_map. apply filter_In. rewrite Hx.
        split; [exact Hin | reflexivity]. }
    split; [exact Hready |]. split; [| repeat split; assumption].
    intros Hne. unfold allImagesReady. fold hasImage.
    change (forallb (fun s => Js.truthy_opt (s_imageUrl s)) (scenes st'))
      with (forallb hasImage (scenes st')).
    rewrite Hready, andb_true_r. apply Nat.ltb_lt.
    rewrite <- (Forall2_length Hsc).
    destruct (scenes st); [contradiction | simpl; lia].
Qed.

Lemma generateAllScenes_all_succeed_witness :
  allImagesReady
    (fst (@generateAllScenes Scripted
            (book, scripted [Ok (imageResponse "QUFB");
                             Ok (imageResponse "QUJD");
                             Ok (imageResponse "Q0ND")])))
  = true
  /\ sessionUsage
       (fst (@generateAllScenes Scripted
               (book, scripted [Ok (imageResponse "QUFB");
                                Ok (imageResponse "QUJD");
                                Ok (imageResponse "Q0ND")])))
     = 3.
Proof.
  destruct (proj2 (@generateAllScenes_all_succeed Scripted
              (book, scripted [Ok (imageResponse "QUFB");
                               Ok (imageResponse "QUJD");
                               Ok (imageResponse "Q0ND")])))
    as (_ & Hready & _ & Hus & _).
  - exact I.
  - split; [apply Hready; discriminate | exact Hus].
Defined.

Section BatchOrder.
Context {platform : Platform}.

(** The loop works through the scenes it found without an image in list
    order, sending the request of one scene (once, or again on retries)
    before it turns to the next, and stops at the first that fails. *)
Lemma generateAllScenes_loop_order snap todo a :
  let r := generateAllScenes_loop snap todo a in
  exists (done : list (Scene * nat)) (remaining : list Scene),
    filter (fun s => negb (hasImage s)) todo = (map fst done ++ remaining)%list
    /\ requests (log (snd (snd r)))
       = (requests (log (snd a))
          ++ flat_map (fun p => repeat (sessionSceneRequest snap (fst p) None false)
                                  (S (snd p))) done)%list
    /\ (fst r = Ok tt -> remaining = []).
Proof.
  revert a. induction todo as [| scene rest IH]; intros a;
    cbn [generateAllScenes_loop filter].
  - exists [], []. cbn. rewrite app_nil_r. repeat split; reflexivity.
  - change (hasImage scene) with (Js.truthy_opt (s_imageUrl scene)).
    destruct (Js.truthy_opt (s_imageUrl scene)); cbn [negb]; [apply IH |].
    set (a1 := upd (setScenes (mapScene (s_id scene) (sceneGenerating true))) a).
    destruct (generateSceneImage_requests scene (characters snap)
                (p_tone (params snap))
                (AGE_STYLE_TAGS (p_ageGroup (params snap))) None false
                (snd a1)) as [k Hk].
    fold (sessionSceneRequest snap scene None false) in Hk.
    destruct (generateSceneImage scene (characters snap) (p_tone (params snap))
                (AGE_STYLE_TAGS (p_ageGroup (params snap))) None false
                (snd a1)) as [[imageUrl | error] sys1]; cbn [snd] in Hk.
    + match goal with
      | |- context [generateAllScenes_loop snap rest ?x] =>
          destruct (IH x) as (done & remaining & Hsplit & Hlog & Hend)
      end.
      exists ((scene, k) :: done), remaining. cbn [map fst flat_map snd].
      split; [rewrite Hsplit; reflexivity |]. split; [| exact Hend].
      rewrite Hlog. cbn [snd fst upd]. rewrite requests_emit, app_nil_r, Hk.
      rewrite <- app_assoc. reflexivity.
    + exists [(scene, k)], (filter (fun s => negb (hasImage s)) rest).
      cbn [map fst flat_map snd]. rewrite app_nil_r.
      split; [reflexivity |]. split; [exact Hk | discriminate].
Qed.

(** Scenes that have an image are passed over. *)
Lemma generateAllScenes_loop_illustrated snap todo a :
  forallb hasImage todo = true ->
  generateAllScenes_loop snap todo a = (Ok tt, a).
Proof.
  induction todo as [| scene rest IH]; cbn [forallb generateAllScenes_loop];
    [reflexivity |].
  intros H. apply andb_prop in H as [Hs Hrest].
  unfold hasImage in Hs. rewrite Hs. apply IH, Hrest.
Qed.

End BatchOrder.

(** X15: [generateAllScenes] sends requests only for scenes that had no
    image when it started, in list order, the request of one scene (repeated
    on retries) before that of the next; it works through a prefix of those
    scenes, and through all of them when it ends without an error message.
    When every scene already has an image it sends nothing, waits for
    nothing and only sets the step, [loading] and the error message. *)
Theorem generateAllScenes_works_in_order {platform : Platform} (a : App) :
  let st := fst a in
  let a' := generateAllScenes a in
  let pending := filter (fun s => negb (hasImage s)) (scenes st) in
  (exists (done : list (Scene * nat)) (remaining : list Scene),
      pending = (map fst done ++ remaining)%list
      /\ requests (log (snd a'))
         = (requests (log (snd a))
            ++ flat_map (fun p => repeat (sessionSceneRequest st (fst p) None false)
                                    (S (snd p))) done)%list
      /\ (errorMessage (fst a') = None -> remaining = []))
  /\ (forallb hasImage (scenes st) = true ->
      a' = (setLoading false (setErrorMessage None (setStep Scenes st)), snd a)).
Proof.
  intros st a' pending. subst st a' pending. unfold generateAllScenes.
  destruct a as [st sys]. cbn [fst snd]. split.
  - match goal with
    | |- context [generateAllScenes_loop ?snap ?todo ?x] =>
        destruct (generateAllScenes_loop_order snap todo x)
          as (done & remaining & Hsplit & Hlog & Hend);
        pose proof (generateAllScenes_loop_frame snap todo x) as Hframe;
        destruct (generateAllScenes_loop snap todo x) as [outcome [st2 sys2]]
    end.
    exists done, remaining. cbn [fst snd upd] in *.
    split; [exact Hsplit |].
    destruct outcome as [[] | error].
    + split; [exact Hlog | intros _; apply Hend; reflexivity].
    + unfold handleError. cbn [fst snd]. rewrite requests_emit, app_nil_r.
      split; [exact Hlog |]. destruct st2. discriminate.
  - intros Hall. rewrite generateAllScenes_loop_illustrated by exact Hall.
    destruct st. reflexivity.
Qed.

Lemma generateAllScenes_works_in_order_witness :
  @generateAllScenes Scripted
    (setScenes (map (sceneImageReady "data:image/png;base64,QUJD")) book,
     scripted [Ok refusalResponse])
  = (setLoading false
       (setErrorMessage None
          (setStep Scenes
             (setScenes (map (sceneImageReady "data:image/png;base64,QUJD"))
                book))),
     scripted [Ok refusalResponse]).
Proof.
  apply (proj2 (@generateAllScenes_works_in_order Scripted
                  (setScenes (map (sceneImageReady "data:image/png;base64,QUJD"))
                     book,
                   scripted [Ok refusalResponse]))).
  reflexivity.
Defined.

(** ** Editing the cast *)

Lemma setCharacters_same st :
  setCharacters (fun _ => characters st) st = st.
Proof. destruct st. reflexivity. Qed.

Lemma filter_all {A} (f : A -> bool) l :
  (forall x, In x l -> f x = true) -> filter f l = l.
Proof.
  induction l as [| x l IH]; intros H; simpl; [reflexivity |].
  rewrite (H x (or_introl eq_refl)), IH; [reflexivity |].
  intros y Hy. apply H. right. exact Hy.
Qed.

Lemma find_none_filter charId (l : list Character) :
  find (fun c => String.eqb (c_id c) charId) l = None <->
  filter (fun c => negb (String.eqb (c_id c) charId)) l = l.
Proof.
  split.
  - intros Hfind. apply filter_all. intros c Hin.
    rewrite (find_none _ _ Hfind c Hin). reflexivity.
  - intros Hfilter. destruct (find _ l) as [c |] eqn:Hfind; [| reflexivity].
    apply find_some in Hfind as [Hin Hc]. rewrite <- Hfilter in Hin.
    apply filter_In in Hin as [_ Hn]. rewrite Hc in Hn. discriminate.
Qed.

(** X16: [handleRemoveCharacter] removes every character with the given id
    and nothing else, keeping the order of the others; removing an id no
    character has changes nothing, and so does removing twice. A character
    sheet asked for a removed id is never generated: the handler returns at
    once, with no request sent and the state as it was. *)
Theorem removed_character_is_gone {platform : Platform}
  (charId : string) (st : Session) (sys : Sys) :
  let st' := handleRemoveCharacter charId st in
  (forall c, In c (characters st')
             <-> In c (characters st) /\ c_id c <> charId)
  /\ characters st'
     = filter (fun c => negb (String.eqb (c_id c) charId)) (characters st)
  /\ (find (fun c => String.eqb (c_id c) charId) (characters st) = None ->
      st' = st)
  /\ handleRemoveCharacter charId st' = st'
  /\ handleGenerateCharacter charId (st', sys) = (st', sys)
  /\ scenes st' = scenes st
  /\ sessionUsage st' = sessionUsage st.
Proof.
  intros st'. subst st'. unfold handleRemoveCharacter.
  assert (Hgone : find (fun c => String.eqb (c_id c) charId)
                    (filter (fun c => negb (String.eqb (c_id c) charId))
                       (characters st)) = None).
  { destruct (find _ (filter _ _)) as [c |] eqn:Hfind; [| reflexivity].
    apply find_some in Hfind as [Hin Hc].
    apply filter_In in Hin as [_ Hn]. rewrite Hc in Hn. discriminate. }
  split; [| split; [| split; [| split; [| split]]]].
  - intros c. cbn [characters setCharacters]. rewrite filter_In.
    split; intros [Hin Hc]; (split; [exact Hin |]).
    + intros Heq. apply String.eqb_eq in Heq. rewrite Heq in Hc. discriminate.
    + apply String.eqb_neq in Hc. rewrite Hc. reflexivity.
  - reflexivity.
  - intros Hfind. apply find_none_filter in Hfind. rewrite Hfind.
    apply setCharacters_same.
  - destruct st as [stp ld em us ps cs scs ae es].
    cbn [characters setCharacters] in *.
    apply find_none_filter in Hgone. rewrite Hgone. reflexivity.
  - unfold handleGenerateCharacter, handleGenerateCharacter_begin.
    cbn [fst characters setCharacters]. rewrite Hgone. reflexivity.
  - split; reflexivity.
Qed.

Lemma removed_character_is_gone_witness :
  handleRemoveCharacter "char-9" book = book.
Proof.
  apply (proj1 (proj2 (proj2 (@removed_character_is_gone Scripted "char-9" book
                                (scripted []))))).
  reflexivity.
Defined.

Lemma NoDup_snoc {A} (l : list A) x :
  NoDup l -> ~ In x l -> NoDup (l ++ [x]).
Proof.
  induction 1 as [| y l Hy _ IH]; intros Hx; simpl.
  - constructor; [intros [] | constructor].
  - constructor.
    + intros Hin. apply in_app_or in Hin as [Hin | [<- | []]].
      * contradiction.
      * apply Hx. left. reflexivity.
    + apply IH. intros Hin. apply Hx. right. exact Hin.
Qed.

(** X17: [handleAddCharacter] appends one character named "New Character"
    with the id ["char-"] followed by the current time in milliseconds, no
    sheet, no photo and all tweaks empty, and leaves the others as they are.
    The ids stay distinct provided no character has that id yet; two
    additions within the same millisecond give two characters with the same
    id. *)
Theorem handleAddCharacter_appends (now : Z) (st : Session) :
  let st' := handleAddCharacter now st in
  characters st' = (characters st ++ [newCharacter now])%list
  /\ c_id (newCharacter now) = "char-" ++ Js.num now
  /\ tweakStr (c_tweaks (newCharacter now)) = EmptyString
  /\ c_sheetUrl (newCharacter now) = None
  /\ (NoDup (map c_id (characters st)) ->
      ~ In ("char-" ++ Js.num now) (map c_id (characters st)) ->
      NoDup (map c_id (characters st')))
  /\ ~ NoDup (map c_id (characters (handleAddCharacter now st')))
  /\ scenes st' = scenes st.
Proof.
  intros st'. subst st'. unfold handleAddCharacter.
  cbn [characters setCharacters].
  repeat split.
  - intros Hnd Hfresh. rewrite map_app. apply NoDup_snoc; assumption.
  - rewrite !map_app. cbn [map newCharacter c_id].
    rewrite <- app_assoc. cbn [app]. intros Hnd.
    apply NoDup_remove_2 in Hnd. apply Hnd.
    apply in_or_app. right. left. reflexivity.
Qed.

Lemma handleAddCharacter_appends_witness :
  NoDup (map c_id (characters (handleAddCharacter 1700000000000 book))).
Proof.
  apply (proj1 (proj2 (proj2 (proj2 (proj2
           (handleAddCharacter_appends 1700000000000 book)))))).
  - repeat constructor; simpl; intuition discriminate.
  - simpl. intuition discriminate.
Defined.

Lemma setTweak_reads field value t : tweakOf field (setTweak field value t) = value.
Proof. destruct field; reflexivity. Qed.

Lemma setTweak_other field other value t :
  other <> field -> tweakOf other (setTweak field value t) = tweakOf other t.
Proof. destruct field, other; intros H; try reflexivity; contradiction. Qed.

Lemma setTweak_overwrites field v1 v2 t :
  setTweak field v2 (setTweak field v1 t) = setTweak field v2 t.
Proof. destruct field; reflexivity. Qed.

Lemma setTweak_commutes f1 f2 v1 v2 t :
  f1 <> f2 ->
  setTweak f1 v1 (setTweak f2 v2 t) = setTweak f2 v2 (setTweak f1 v1 t).
Proof. destruct f1, f2; intros H; try reflexivity; contradiction. Qed.

(** X18: an edited tweak is what the character then has and what the next
    prompt says. After [updateCharacterTweaks] every character with the
    given id has the new value under the edited key and its other four
    tweaks as before; if the value is not empty the character-sheet prompt
    of such a character quotes it as ["key: value"]. Writing the same key
    twice keeps the last value, edits of different keys commute, and the ids
    and order of the cast do not change. *)
Theorem updateCharacterTweaks_takes_effect
  (charId : string) (field : TweakField) (value : string) (st : Session)
  (tone styleTags : string) :
  let st' := updateCharacterTweaks charId field value st in
  (forall c, In c (characters st') -> c_id c = charId ->
             tweakOf field (c_tweaks c) = value
             /\ (value <> EmptyString ->
                 Js.includes (characterSheetPrompt c tone styleTags)
                   (tweakKey field ++ ": " ++ value) = true))
  /\ Forall2 (fun c c' =>
                c_id c' = c_id c /\ c_name c' = c_name c
                /\ c_description c' = c_description c
                /\ c_sheetUrl c' = c_sheetUrl c
                /\ c_uploadUrl c' = c_uploadUrl c
                /\ (forall other, other <> field ->
                                  tweakOf other (c_tweaks c')
                                  = tweakOf other (c_tweaks c))
                /\ (c_id c <> charId -> c' = c))
       (characters st) (characters st')
  /\ (forall v1,
        updateCharacterTweaks charId field value
          (updateCharacterTweaks charId field v1 st) = st')
  /\ (forall field2 v2,
        field2 <> field ->
        updateCharacterTweaks charId field2 v2 st'
        = updateCharacterTweaks charId field value
            (updateCharacterTweaks charId field2 v2 st)).
Proof.
  intros st'. subst st'. unfold updateCharacterTweaks.
  split; [| split; [| split]].
  - intros c Hin Hid. cbn [characters setCharacters] in Hin.
    apply In_mapCharacter in Hin as (c0 & _ & ->).
    destruct (String.eqb (c_id c0) charId) eqn:E;
      [| apply String.eqb_neq in E; contradiction].
    cbn [characterWithTweaks c_tweaks]. split; [apply setTweak_reads |].
    intros Hne.
    pose proof (tweakStr_mentions field (setTweak field value (c_tweaks c0))) as Hm.
    rewrite setTweak_reads in Hm. specialize (Hm Hne).
    assert (Htruthy : Js.truthy (tweakStr (setTweak field value (c_tweaks c0)))
                      = true).
    { apply includes_elim in Hm as (pre & post & Heq). rewrite Heq.
      destruct pre; [destruct field |]; reflexivity. }
    unfold characterSheetPrompt. cbn [characterWithTweaks c_tweaks c_name
                                       c_description].
    rewrite Htruthy.
    apply includes_trans
      with (b := tweakStr (setTweak field value (c_tweaks c0))); [| exact Hm].
    find_piece.
  - cbn [characters setCharacters]. unfold mapCharacter.
    apply Forall2_map_r. intros c.
    destruct (String.eqb (c_id c) charId) eqn:E.
    + cbn [characterWithTweaks c_id c_name c_description c_sheetUrl
             c_uploadUrl c_tweaks].
      repeat split; try reflexivity.
      * intros other Hne. apply setTweak_other, Hne.
      * intros Hne. apply String.eqb_eq in E. contradiction.
    + repeat split; reflexivity.
  - intros v1. destruct st as [stp ld em us ps cs scs ae es].
    cbv [setCharacters characters step loading errorMessage sessionUsage params
           scenes activeEditingScene editingSliders].
    f_equal. rewrite mapCharacter_compose by reflexivity.
    unfold mapCharacter. apply map_ext. intros c.
    destruct (String.eqb (c_id c) charId); [| reflexivity].
    cbn [characterWithTweaks c_id c_name c_description c_sheetUrl c_uploadUrl
           c_isGenerating c_tweaks].
    rewrite setTweak_overwrites. reflexivity.
  - intros field2 v2 Hne. destruct st as [stp ld em us ps cs scs ae es].
    cbv [setCharacters characters step loading errorMessage sessionUsage params
           scenes activeEditingScene editingSliders].
    f_equal. rewrite !mapCharacter_compose by reflexivity.
    unfold mapCharacter. apply map_ext. intros c.
    destruct (String.eqb (c_id c) charId); [| reflexivity].
    cbn [characterWithTweaks c_id c_name c_description c_sheetUrl c_uploadUrl
           c_isGenerating c_tweaks].
    rewrite (setTweak_commutes field2 field) by exact Hne. reflexivity.
Qed.

Lemma updateCharacterTweaks_takes_effect_witness :
  Js.includes
    (characterSheetPrompt
       (characterWithTweaks (setTweak Accessory "a lantern" (c_tweaks bob)) bob)
       "noir" (AGE_STYLE_TAGS Age5to7))
    "accessory: a lantern" = true.
Proof.
  apply (proj1 (updateCharacterTweaks_takes_effect "char-2" Accessory
                  "a lantern" book "noir" (AGE_STYLE_TAGS Age5to7))
           (characterWithTweaks (setTweak Accessory "a lantern" (c_tweaks bob))
              bob)).
  - right. left. reflexivity.
  - reflexivity.
  - discriminate.
Defined.

(** ** Exporting the pages *)

Lemma num_inj a b : Js.num a = Js.num b -> a = b.
Proof.
  unfold Js.num. intros H.
  assert (Hn : forall z, Z.to_int z <> Decimal.Pos Decimal.Nil
                         /\ Z.to_int z <> Decimal.Neg Decimal.Nil).
  { intros z. split; intros E; pose proof (DecimalZ.of_to z) as Hz;
      rewrite E in Hz; simpl in Hz; subst z; discriminate E. }
  apply DecimalZ.to_int_inj.
  apply (f_equal NilZero.int_of_string) in H.
  rewrite !NilZero.isi in H by apply Hn. congruence.
Qed.

Lemma length_append a b :
  String.length (a ++ b) = (String.length a + String.length b)%nat.
Proof. induction a; simpl; congruence. Qed.

Lemma append_inj_l p a b : p ++ a = p ++ b -> a = b.
Proof. induction p; simpl; intros H; [exact H | injection H as H; auto]. Qed.

Lemma append_inj_r a : forall b s, a ++ s = b ++ s -> a = b.
Proof.
  induction a as [| x a IH]; intros [| y b] s H; simpl in H.
  - reflexivity.
  - exfalso. apply (f_equal String.length) in H. simpl in H.
    rewrite length_append in H. lia.
  - exfalso. apply (f_equal String.length) in H. simpl in H.
    rewrite length_append in H. lia.
  - injection H as -> H. f_equal. eauto.
Qed.

Lemma pageFileName_inj i j : pageFileName i = pageFileName j -> i = j.
Proof.
  unfold pageFileName. intros H.
  apply append_inj_l, append_inj_r, num_inj in H. lia.
Qed.

Lemma filter_full {A} (f : A -> bool) l :
  List.length (filter f l) = List.length l <-> forallb f l = true.
Proof.
  induction l as [| x l IH]; simpl; [tauto |].
  pose proof (filter_length_le f l) as Hle.
  destruct (f x); simpl.
  - rewrite <- IH. lia.
  - split; [lia | discriminate].
Qed.

Section ExportFacts.
Variable canvas : nat -> CanvasOutcome.

(** The call for the picture at position [j] is made, under the name of that
    position, when every picture before it loaded. *)
Lemma downloadAll_from_call l :
  forall i j scene,
    nth_error l j = Some scene ->
    (forall m, (m < j)%nat -> canvas (i + m) <> NeverLoads) ->
    nth_error (downloadCalls (downloadAll_from canvas i l)) j
    = Some (interpolate (s_imageUrl scene), pageFileName (i + j)).
Proof.
  induction l as [| first rest IH]; intros i j scene Hnth Hload;
    [destruct j; discriminate |].
  destruct j as [| j]; cbn [nth_error] in Hnth.
  - injection Hnth as ->. rewrite Nat.add_0_r.
    cbn [downloadAll_from]. destruct (canvas i); reflexivity.
  - pose proof (Hload 0%nat ltac:(lia)) as H0. rewrite Nat.add_0_r in H0.
    assert (Hrest : nth_error (downloadCalls (downloadAll_from canvas (S i) rest)) j
                    = Some (interpolate (s_imageUrl scene),
                            pageFileName (i + S j))).
    { rewrite Nat.add_succ_r. apply (IH (S i) j scene Hnth).
      intros m Hm. specialize (Hload (S m) ltac:(lia)).
      rewrite Nat.add_succ_r in Hload. exact Hload. }
    cbn [downloadAll_from].
    destruct (canvas i); [contradiction | exact Hrest ..].
Qed.

(** No call is made after one whose image never loads. *)
Lemma downloadAll_from_stops l :
  forall i j,
    canvas (i + j) = NeverLoads ->
    (List.length (downloadCalls (downloadAll_from canvas i l)) <= S j)%nat.
Proof.
  induction l as [| first rest IH]; intros i j Hnever; [simpl; lia |].
  cbn [downloadAll_from].
  destruct (canvas i) eqn:E; [simpl; lia | | |];
    (destruct j as [| j];
     [rewrite Nat.add_0_r in Hnever; congruence |];
     rewrite Nat.add_succ_r in Hnever;
     specialize (IH (S i) j Hnever); simpl in *; lia).
Qed.

(** The files saved are those of the calls made whose canvas gave a blob. *)
Lemma downloadAll_from_saved l :
  forall i name,
    In name (downloadedFiles (downloadAll_from canvas i l))
    <-> exists j,
          (j < List.length l)%nat
          /\ canvas (i + j) = Encoded
          /\ (forall m, (m < j)%nat -> canvas (i + m) <> NeverLoads)
          /\ name = pageFileName (i + j).
Proof.
  induction l as [| first rest IH]; intros i name.
  - simpl. split; [contradiction | intros (j & Hj & _); lia].
  - assert (Hlater :
      In name (downloadedFiles (downloadAll_from canvas (S i) rest))
      <-> exists j,
            (0 < j < S (List.length rest))%nat
            /\ canvas (i + j) = Encoded
            /\ (forall m, (0 < m < j)%nat -> canvas (i + m) <> NeverLoads)
            /\ name = pageFileName (i + j)).
    { rewrite IH. split.
      - intros (j & Hj & He & Hl & Hn). exists (S j).
        rewrite Nat.add_succ_r. split; [lia |]. split; [exact He |].
        split; [| exact Hn].
        intros m Hm. destruct m as [| m]; [lia |].
        rewrite Nat.add_succ_r. apply Hl. lia.
      - intros (j & Hj & He & Hl & Hn). destruct j as [| j]; [lia |].
        rewrite Nat.add_succ_r in He, Hn. exists j.
        split; [lia |]. split; [exact He |]. split; [| exact Hn].
        intros m Hm. specialize (Hl (S m) ltac:(lia)).
        rewrite Nat.add_succ_r in Hl. exact Hl. }
    cbn [downloadAll_from List.length].
    destruct (canvas i) eqn:E; cbn [compressAndDownload app downloadedFiles In].
    + split; [contradiction |].
      intros (j & _ & He & Hl & _). destruct j as [| j].
      * rewrite Nat.add_0_r in He. congruence.
      * specialize (Hl 0%nat ltac:(lia)). rewrite Nat.add_0_r in Hl.
        contradiction.
    + rewrite Hlater. split.
      * intros (j & Hj & He & Hl & Hn). exists j.
        split; [lia |]. split; [exact He |]. split; [| exact Hn].
        intros m Hm. destruct m as [| m];
          [rewrite Nat.add_0_r; congruence | apply Hl; lia].
      * intros (j & Hj & He & Hl & Hn). destruct j as [| j];
          [rewrite Nat.add_0_r in He; congruence |].
        exists (S j). split; [lia |]. split; [exact He |].
        split; [| exact Hn]. intros m Hm. apply Hl. lia.
    + rewrite Hlater. split.
      * intros (j & Hj & He & Hl & Hn). exists j.
        split; [lia |]. split; [exact He |]. split; [| exact Hn].
        intros m Hm. destruct m as [| m];
          [rewrite Nat.add_0_r; congruence | apply Hl; lia].
      * intros (j & Hj & He & Hl & Hn). destruct j as [| j];
          [rewrite Nat.add_0_r in He; congruence |].
        exists (S j). split; [lia |]. split; [exact He |].
        split; [| exact Hn]. intros m Hm. apply Hl. lia.
    + rewrite Hlater. split.
      * intros [<- | (j & Hj & He & Hl & Hn)].
        -- exists 0%nat. rewrite Nat.add_0_r.
           split; [lia |]. split; [exact E |]. split; [| reflexivity].
           intros m Hm. lia.
        -- exists j. split; [lia |]. split; [exact He |]. split; [| exact Hn].
           intros m Hm. destruct m as [| m];
             [rewrite Nat.add_0_r; congruence | apply Hl; lia].
      * intros (j & Hj & He & Hl & Hn). destruct j as [| j].
        -- left. rewrite Nat.add_0_r in Hn. symmetry. exact Hn.
        -- right. exists (S j). split; [lia |]. split; [exact He |].
           split; [| exact Hn]. intros m Hm. apply Hl. lia.
Qed.

Lemma downloadAll_from_NoDup l :
  forall i, NoDup (downloadedFiles (downloadAll_from canvas i l)).
Proof.
  induction l as [| first rest IH]; intros i; [constructor |].
  cbn [downloadAll_from].
  destruct (canvas i); cbn [compressAndDownload app downloadedFiles];
    [constructor | apply IH | apply IH |].
  constructor; [| apply IH].
  intros Hin. apply downloadAll_from_saved in Hin as (j & _ & _ & _ & Hn).
  apply pageFileName_inj in Hn. lia.
Qed.

(** When every picture is encoded, each is called for, saved and followed by
    the pause, in order. *)
Lemma downloadAll_from_all l :
  forall i,
    (forall j, (j < List.length l)%nat -> canvas (i + j) = Encoded) ->
    downloadAll_from canvas i l
    = flat_map (fun p => [CompressAndDownload (interpolate (s_imageUrl (snd p)))
                            (pageFileName (fst p));
                          Click (pageFileName (fst p));
                          Pause 400])
        (combine (seq i (List.length l)) l)
    /\ downloadedFiles (downloadAll_from canvas i l)
       = map pageFileName (seq i (List.length l)).
Proof.
  induction l as [| first rest IH]; intros i Hall; [split; reflexivity |].
  pose proof (Hall 0%nat ltac:(simpl; lia)) as H0. rewrite Nat.add_0_r in H0.
  destruct (IH (S i)) as [Hev Hfiles].
  { intros j Hj. specialize (Hall (S j) ltac:(simpl; lia)).
    rewrite Nat.add_succ_r in Hall. exact Hall. }
  cbn [downloadAll_from List.length seq combine flat_map map fst snd].
  rewrite H0. cbn [compressAndDownload app downloadedFiles].
  rewrite Hfiles, Hev. split; reflexivity.
Qed.

End ExportFacts.

(** X19: the batch export. [downloadAll] calls [compressAndDownload] for the
    pages that have an image, in the order of the book and under the names
    [page-1.jpg], [page-2.jpg], ... by rank among those pages, as long as the
    image of every earlier call loaded; an image that never loads leaves its
    promise pending and no further call is made. A file is saved for exactly
    those calls whose canvas gave a blob, so no name is used twice; when that
    is every call, each page with an image is called for, saved and followed
    by a pause of 400 ms, and the files are [page-1.jpg] to [page-n.jpg]
    without a gap. The name of a page in the export is the one the page's
    own Save button uses exactly when every page before it has an image. *)
Theorem downloadAll_file_names (canvas : nat -> CanvasOutcome) (st : Session) :
  let pics := filter hasImage (scenes st) in
  let events := downloadAll canvas st in
  NoDup (downloadedFiles events)
  /\ (forall name,
        In name (downloadedFiles events)
        <-> exists j,
              (j < List.length pics)%nat
              /\ canvas j = Encoded
              /\ (forall m, (m < j)%nat -> canvas m <> NeverLoads)
              /\ name = pageFileName j)
  /\ (forall j, canvas j = NeverLoads ->
                (List.length (downloadCalls events) <= S j)%nat)
  /\ ((forall j, (j < List.length pics)%nat -> canvas j = Encoded) ->
      events
      = flat_map (fun p => [CompressAndDownload
                              (interpolate (s_imageUrl (snd p)))
                              (pageFileName (fst p));
                            Click (pageFileName (fst p));
                            Pause 400])
          (combine (seq 0 (List.length pics)) pics)
      /\ downloadedFiles events
         = map pageFileName (seq 0 (List.length pics)))
  /\ (forall pre scene post,
        scenes st = (pre ++ scene :: post)%list ->
        hasImage scene = true ->
        let rank := List.length (filter hasImage pre) in
        ((forall m, (m < rank)%nat -> canvas m <> NeverLoads) ->
         nth_error (downloadCalls events) rank
         = Some (interpolate (s_imageUrl scene), pageFileName rank))
        /\ (CompressAndDownload (interpolate (s_imageUrl scene))
              (pageFileName rank)
            = saveScene (List.length pre) scene
            <-> forallb hasImage pre = true)).
Proof.
  unfold downloadAll. change (fun s => Js.truthy_opt (s_imageUrl s)) with hasImage.
  cbv zeta.
  split; [apply downloadAll_from_NoDup |].
  split; [intros name; apply (downloadAll_from_saved canvas _ 0%nat name) |].
  split; [intros j; apply (downloadAll_from_stops canvas _ 0%nat j) |].
  split; [intros Hall; apply (downloadAll_from_all canvas _ 0%nat Hall) |].
  intros pre scene post Hsplit Hhas. split.
  - intros Hload.
    apply (downloadAll_from_call canvas _ 0%nat); [| exact Hload].
    rewrite Hsplit, filter_app. cbn [filter]. rewrite Hhas.
    rewrite nth_error_app2 by lia. rewrite Nat.sub_diag. reflexivity.
  - unfold saveScene. split.
    + intros H.
      apply (f_equal (fun e => match e with
                               | CompressAndDownload _ filename => filename
                               | _ => EmptyString
                               end)) in H.
      cbv beta iota in H. apply pageFileName_inj in H.
      apply filter_full, H.
    + intros H. apply filter_full in H. rewrite H. reflexivity.
Qed.

Lemma downloadAll_file_names_witness :
  nth_error (downloadCalls (downloadAll (fun _ => Encoded) halfIllustrated)) 1
  = Some ("data:image/png;base64,CCCC", "page-2.jpg").
Proof.
  apply (proj1 (proj2 (proj2 (proj2 (proj2
           (downloadAll_file_names (fun _ => Encoded) halfIllustrated))))
           [pictureA; sceneB] pictureC [] eq_refl eq_refl)).
  intros m _. discriminate.
Defined.

(** ** The story script *)

Lemma scriptBlocks_app i l1 l2 :
  scriptBlocks i (l1 ++ l2)%list
  = (scriptBlocks i l1 ++ scriptBlocks (i + List.length l1)%nat l2)%list.
Proof.
  revert i. induction l1 as [| scene rest IH]; intros i; simpl.
  - rewrite Nat.add_0_r. reflexivity.
  - rewrite IH.
    replace (S i + List.length rest)%nat with (i + S (List.length rest))%nat
      by lia.
    reflexivity.
Qed.

Lemma join_snoc sep l x :
  Js.join sep (l ++ [x])
  = match l with
    | [] => x
    | _ :: _ => Js.join sep l ++ sep ++ x
    end.
Proof.
  induction l as [| p rest IH]; [reflexivity |].
  destruct rest as [| q rest]; [reflexivity |].
  change (Js.join sep ((p :: q :: rest) ++ [x])%list)
    with (p ++ sep ++ Js.join sep ((q :: rest) ++ [x])%list).
  rewrite IH.
  change (Js.join sep (p :: q :: rest))
    with (p ++ sep ++ Js.join sep (q :: rest)).
  rewrite !append_assoc. reflexivity.
Qed.

Lemma join_split sep xs y zs :
  exists a,
    Js.join sep (xs ++ y :: zs)
    = a ++ y ++ match zs with
                | [] => EmptyString
                | _ :: _ => sep ++ Js.join sep zs
                end.
Proof.
  induction xs as [| p rest IH].
  - exists EmptyString. destruct zs; cbn [app Js.join append];
      [rewrite append_nil_r |]; reflexivity.
  - destruct IH as [a Ha].
    exists (p ++ sep ++ a).
    destruct rest as [| q rest].
    + cbn [app] in *.
      change (Js.join sep (p :: y :: zs)) with (p ++ sep ++ Js.join sep (y :: zs)).
      rewrite Ha, !append_assoc. reflexivity.
    + change (Js.join sep ((p :: q :: rest) ++ y :: zs)%list)
        with (p ++ sep ++ Js.join sep ((q :: rest) ++ y :: zs)%list).
      rewrite Ha, !append_assoc. reflexivity.
Qed.

(** X20: the story script is built page by page in the order of the book,
    whether or not a page has an image: the script of an empty book is
    empty, the script of a book with one more page at its end is the script
    of the book, a blank line, and the block of the new page, headed
    [PAGE k] with [k] the page's position and holding its text. So the block
    of an earlier page stands before the block of a later one. After
    [updateSceneStoryText] the block of an edited page holds the new text
    under the same heading. *)
Theorem storyScript_pages (st : Session) :
  (scenes st = [] -> storyScript st = EmptyString)
  /\ (forall front scene,
        scenes st = (front ++ [scene])%list ->
        storyScript st
        = match front with
          | [] => pageBlock 0 scene
          | _ :: _ =>
              storyScript (setScenes (fun _ => front) st)
              ++ (Js.nl ++ Js.nl)
              ++ pageBlock (List.length front) scene
          end)
  /\ (forall l1 s1 l2 s2 l3,
        scenes st = (l1 ++ s1 :: l2 ++ s2 :: l3)%list ->
        exists a b c,
          storyScript st
          = a ++ pageBlock (List.length l1) s1
              ++ b ++ pageBlock (List.length l1 + 1 + List.length l2) s2 ++ c)
  /\ (forall text pre scene post,
        scenes st = (pre ++ scene :: post)%list ->
        Js.includes (storyScript (updateSceneStoryText (s_id scene) text st))
          ("PAGE " ++ Js.num (Z.of_nat (List.length pre) + 1) ++ Js.nl
           ++ "------------------" ++ Js.nl ++ text ++ Js.nl)
        = true).
Proof.
  unfold storyScript. split; [| split; [| split]].
  - intros ->. reflexivity.
  - intros front scene Hsplit. rewrite Hsplit, scriptBlocks_app.
    cbn [scriptBlocks Nat.add]. rewrite join_snoc.
    destruct st as [stp ld em us ps cs scs ae es].
    cbn [setScenes scenes]. destruct front; reflexivity.
  - intros l1 s1 l2 s2 l3 Hsplit. rewrite Hsplit.
    rewrite scriptBlocks_app. cbn [scriptBlocks Nat.add].
    rewrite scriptBlocks_app. cbn [scriptBlocks].
    destruct (join_split (Js.nl ++ Js.nl) (scriptBlocks 0 l1)
                (pageBlock (List.length l1) s1)
                (scriptBlocks (S (List.length l1)) l2
                 ++ pageBlock (S (List.length l1) + List.length l2) s2
                 :: scriptBlocks (S (S (List.length l1) + List.length l2)) l3))
      as [a Ha].
    destruct (join_split (Js.nl ++ Js.nl)
                (scriptBlocks (S (List.length l1)) l2)
                (pageBlock (S (List.length l1) + List.length l2) s2)
                (scriptBlocks (S (S (List.length l1) + List.length l2)) l3))
      as [a2 Ha2].
    rewrite Ha.
    match goal with
    | |- context [match ?zs with [] => _ | _ :: _ => ?sep ++ Js.join ?sep ?zs end] =>
        replace (match zs with [] => EmptyString | _ :: _ => sep ++ Js.join sep zs end)
          with (sep ++ Js.join sep zs)
          by (destruct (scriptBlocks (S (List.length l1)) l2); reflexivity)
    end.
    rewrite Ha2.
    replace (List.length l1 + 1 + List.length l2)%nat
      with (S (List.length l1) + List.length l2)%nat by lia.
    eexists a, ((Js.nl ++ Js.nl) ++ a2), _.
    rewrite !append_assoc. reflexivity.
  - intros text pre scene post Hsplit.
    apply includes_join.
    unfold updateSceneStoryText. cbn [scenes setScenes]. rewrite Hsplit.
    unfold mapScene. rewrite map_app. cbn [map]. rewrite Z.eqb_refl.
    rewrite scriptBlocks_app. apply in_or_app. right. left.
    rewrite length_map. reflexivity.
Qed.

Lemma storyScript_pages_witness :
  Js.includes (storyScript (updateSceneStoryText 2 "She met Bob at dusk." book))
    ("PAGE 2" ++ Js.nl ++ "------------------" ++ Js.nl
     ++ "She met Bob at dusk." ++ Js.nl)
  = true.
Proof.
  apply (proj2 (proj2 (proj2 (storyScript_pages book)))
           "She met Bob at dusk." [sceneA] sceneB [sceneC] eq_refl).
Defined.

(** ** Starting over *)

(** X21: starting over. Away from the Input step a declined confirmation
    leaves the session as it is. Otherwise (on the Input step, where nothing
    is asked, or after a confirmation) the session is back on the Input step
    with no characters, no pages, the initial parameters and no error
    banner; the busy flag, the usage counter, the scene open in the studio
    and the studio sliders are not reset. In that state nothing is ready for
    export, the batch export downloads nothing, the script is empty, and
    starting over again, whatever the answer, changes nothing. *)
Theorem handleReset_effect (confirmed : bool) (st : Session) :
  let st' := handleReset confirmed st in
  (step st <> Input -> confirmed = false -> st' = st)
  /\ (step st = Input \/ confirmed = true ->
      step st' = Input
      /\ characters st' = []
      /\ scenes st' = []
      /\ params st' = initialParams
      /\ errorMessage st' = None
      /\ loading st' = loading st
      /\ sessionUsage st' = sessionUsage st
      /\ activeEditingScene st' = activeEditingScene st
      /\ editingSliders st' = editingSliders st
      /\ allImagesReady st' = false
      /\ isCharacterGenerating st' = false
      /\ (forall canvas, downloadAll canvas st' = [])
      /\ storyScript st' = EmptyString
      /\ forall answer, handleReset answer st' = st').
Proof.
  destruct st as [stp ld em us ps cs scs ae es]. cbv zeta. split.
  - intros Hstep ->. unfold handleReset. cbn [step] in *.
    destruct stp; [contradiction | reflexivity ..].
  - intros Hgo.
    assert (Hrun : handleReset confirmed (mkSession stp ld em us ps cs scs ae es)
                   = mkSession Input ld None us initialParams [] [] ae es).
    { unfold handleReset. cbn [step] in *.
      destruct Hgo as [-> | ->]; [reflexivity |].
      destruct stp; reflexivity. }
    rewrite Hrun. repeat split.
Qed.

Lemma handleReset_effect_witness :
  sessionUsage (handleReset true (incrementUsage book)) = 1
  /\ scenes (handleReset true (incrementUsage book)) = [].
Proof.
  destruct (proj2 (handleReset_effect true (incrementUsage book))
              (or_intror eq_refl))
    as (_ & _ & Hscenes & _ & _ & _ & Husage & _).
  split; [rewrite Husage; reflexivity | exact Hscenes].
Defined.

(** ** Reporting an error *)







(** ** The two revisions of the retry test *)

(** X23: the retry test of the current service module accepts every error
    the test of the first revision accepts. What it accepts in addition are
    errors whose text names [RESOURCE_EXHAUSTED], and errors with an empty
    message, which the first revision never retried on their text and the
    current one judges by [String(error)]. *)
Theorem isRetryable_widens (error : JsError) :
  (isRetryable_v1 error = true -> isRetryable error = true)
  /\ (isRetryable error = true -> isRetryable_v1 error = false ->
      Js.includes (errorMsg error) "RESOURCE_EXHAUSTED" = true
      \/ e_message error = EmptyString).
Proof.
  unfold isRetryable, isRetryable_v1, errorMsg, Js.or_else. cbv zeta.
  destruct (e_message error) as [| c msg] eqn:Emsg.
  - split; [| intros _ _; right; reflexivity].
    cbn [Js.truthy]. simpl Js.includes at 1 2 3.
    cbn [orb]. intros ->. apply orb_true_r.
  - change (Js.truthy (String c msg)) with true. cbv iota. split.
    + intros H. apply orb_prop in H as [H | H]; [| rewrite H; apply orb_true_r].
      rewrite H. reflexivity.
    + intros H2 H1. left.
      apply orb_false_elim in H1 as [H1 Hst]. rewrite H1, Hst in H2.
      cbn [orb] in H2. rewrite orb_false_r in H2. exact H2.
Qed.

Lemma isRetryable_widens_witness :
  isRetryable (mkError "ApiError" "503 Service Unavailable" None) = true.
Proof.
  apply (proj1 (isRetryable_widens
                  (mkError "ApiError" "503 Service Unavailable" None))).
  reflexivity.
Defined.

(** ** The time a retried call may wait *)

Lemma totalWait_doubling D k :
  totalWait (doubling D k) = D * (2 ^ Z.of_nat k - 1).
Proof.
  revert D. induction k as [| k IH]; intros D.
  - unfold doubling, totalWait. simpl. lia.
  - rewrite doubling_S. unfold totalWait in *. cbn [fold_right].
    rewrite IH, Nat2Z.inj_succ, Z.pow_succ_r by lia. lia.
Qed.

Lemma retryLoop_wait_budget {platform : Platform} {T}
  (classify : JsError -> bool) (notice : Z -> Z -> string)
  (fn : M T) (retries delay : Z) (s : Sys) :
  quiet fn -> 0 <= delay ->
  exists spent,
    waits (log (snd (retryLoop classify notice fn retries delay s)))
    = (waits (log s) ++ spent)%list
    /\ 0 <= totalWait spent <= delay * (2 ^ Z.max 0 retries - 1)
    /\ (forall error,
          fst (retryLoop classify notice fn retries delay s) = Err error ->
          classify error = true ->
          totalWait spent = delay * (2 ^ Z.max 0 retries - 1)).
Proof.
  intros Hq Hdelay.
  destruct (retryLoop_bounded classify notice fn Hq retries delay s)
    as (k & Hk & Hp & Hlast).
  exists (doubling delay k). split; [| split].
  - rewrite <- waits_pacing, Hp, waits_app, waits_pacing, waits_retrySchedule.
    reflexivity.
  - rewrite totalWait_doubling.
    assert (H1 : 0 < 2 ^ Z.of_nat k) by (apply Z.pow_pos_nonneg; lia).
    assert (H2 : 2 ^ Z.of_nat k <= 2 ^ Z.max 0 retries)
      by (apply Z.pow_le_mono_r; lia).
    nia.
  - intros error Herr Hc. rewrite (Hlast error Herr Hc), totalWait_doubling.
    replace (Z.of_nat (Z.to_nat retries)) with (Z.max 0 retries) by lia.
    reflexivity.
Qed.

(** X24: the time a retried call may spend waiting. Whatever the operation
    does on each call (as long as it records no wait of its own), and for a
    delay that is not negative, the waits [callWithRetry] adds sum to at most
    [delay * (2 ^ retries - 1)] milliseconds (nothing for [retries <= 0]),
    and to exactly that when the call ends with a retryable error (all
    retries used). The same holds for the wrapper of the first revision with
    its own retry test. *)
Theorem callWithRetry_wait_budget {platform : Platform} {T}
  (fn : M T) (retries delay : Z) (s : Sys) :
  quiet fn -> 0 <= delay ->
  (exists spent,
      waits (log (snd (callWithRetry fn retries delay s)))
      = (waits (log s) ++ spent)%list
      /\ 0 <= totalWait spent <= delay * (2 ^ Z.max 0 retries - 1)
      /\ (forall error,
            fst (callWithRetry fn retries delay s) = Err error ->
            isRetryable error = true ->
            totalWait spent = delay * (2 ^ Z.max 0 retries - 1)))
  /\ (exists spent,
        waits (log (snd (callWithRetry_v1 fn retries delay s)))
        = (waits (log s) ++ spent)%list
        /\ 0 <= totalWait spent <= delay * (2 ^ Z.max 0 retries - 1)
        /\ (forall error,
              fst (callWithRetry_v1 fn retries delay s) = Err error ->
              isRetryable_v1 error = true ->
              totalWait spent = delay * (2 ^ Z.max 0 retries - 1))).
Proof.
  intros Hq Hdelay. split.
  - apply (retryLoop_wait_budget isRetryable retryNotice fn retries delay s Hq
             Hdelay).
  - apply (retryLoop_wait_budget isRetryable_v1 retryNotice_v1 fn retries delay
             s Hq Hdelay).
Qed.

Lemma callWithRetry_wait_budget_witness :
  exists spent,
    waits (log (snd (@callWithRetry Scripted _
                       (generateSceneImage_attempt sceneA [ann; bob] "noir"
                          (AGE_STYLE_TAGS Age5to7) None false)
                       defaultRetries defaultDelay
                       (scripted [Err overloaded;
                                  Ok (imageResponse "QUFB")]))))
    = (waits [] ++ spent)%list
    /\ 0 <= totalWait spent <= 75000.
Proof.
  destruct (proj1 (@callWithRetry_wait_budget Scripted _
              (generateSceneImage_attempt sceneA [ann; bob] "noir"
                 (AGE_STYLE_TAGS Age5to7) None false)
              defaultRetries defaultDelay
              (scripted [Err overloaded; Ok (imageResponse "QUFB")])
              (quiet_generateSceneImage_attempt _ _ _ _ _ _)
              ltac:(unfold defaultDelay; lia)))
    as (spent & Hw & Hb & _).
  exists spent. split; [exact Hw | exact Hb].
Defined.
